(** * Kafka cluster and VPC address resource handlers

    A shallow embedding of [yandex/resource_yandex_mdb_kafka_cluster.go] and of
    the VPC address resource handler, with the properties of the reconciliation
    logic: the topic ordering pass, the topic and user differs, the field-path
    mapper, and the order and effects of the remote calls.

    The handlers run in a state monad over the trace of remote calls and the
    resource data; the remote side, the helpers the package declares in its
    other files, and what the Go runtime and the generated SDK code decide are
    parameters.  Definitions come first, the properties after them. *)

From Stdlib Require Import Ascii String.
From stdpp Require Import gmap strings list fin_maps pretty.

Local Open Scope string_scope.
Local Open Scope nat_scope.
Local Open Scope list_scope.

(** ** Data model (the SDK messages the handlers manipulate) *)

(** [kafka.TopicConfig2_1] / [kafka.TopicConfig2_6]: wrapped optional values. *)
Record TopicConfig := {
  CleanupPolicy : Z;
  CompressionType : Z;
  DeleteRetentionMs : option Z;
  FileDeleteDelayMs : option Z;
  FlushMessages : option Z;
  FlushMs : option Z;
  MinCompactionLagMs : option Z;
  RetentionBytes : option Z;
  RetentionMs : option Z;
  MaxMessageBytes : option Z;
  MinInsyncReplicas : option Z;
  SegmentBytes : option Z;
  Preallocate : option bool
}.

(** The [TopicConfig] oneof of a topic: per-version settings. *)
Inductive isTopicConfig :=
| TopicConfig_2_1 (c : TopicConfig)
| TopicConfig_2_6 (c : TopicConfig).

(** [kafka.Topic]: a topic as the remote API lists it. *)
Record Topic := {
  Name : string;
  ClusterId : string;
  Partitions : option Z;
  ReplicationFactor : option Z;
  t_TopicConfig : option isTopicConfig
}.

(** [kafka.TopicSpec]: a topic as the configuration declares it. *)
Record TopicSpec := {
  ts_Name : string;
  ts_Partitions : option Z;
  ts_ReplicationFactor : option Z;
  ts_TopicConfig : option isTopicConfig
}.

(** ** sortKafkaTopics *)

(** [topics[i], topics[j] = topics[j], topics[i]].  Both reads are in range at
    the one place the source swaps (i < j < len(topics)); out of range Go would
    panic, which the model renders as leaving the slice alone. *)
Definition swap {A} (l : list A) (i j : nat) : list A :=
  match l !! i, l !! j with
  | Some x, Some y => <[i:=y]> (<[j:=x]> l)
  | _, _ => l
  end.

(** The inner loop [for j := i + 1; j < len(topics); j++], entered at [j] with
    [n] iterations left: swap at the first match and [break]. *)
Fixpoint sortKafkaTopics_scan (name : string) (i j n : nat)
    (topics : list Topic) : list Topic :=
  match n with
  | O => topics
  | S n' =>
      match topics !! j with
      | Some tj =>
          if decide (name = Name tj) then swap topics i j
          else sortKafkaTopics_scan name i (S j) n' topics
      | None => topics
      end
  end.

(** The outer loop [for i, spec := range specs], from index [i] on. *)
Fixpoint sortKafkaTopics_from (i : nat) (specs : list TopicSpec)
    (topics : list Topic) : list Topic :=
  match specs with
  | [] => topics
  | spec :: rest =>
      sortKafkaTopics_from (S i) rest
        (sortKafkaTopics_scan (ts_Name spec) i (S i) (length topics - S i) topics)
  end.

(** [sortKafkaTopics(topics, specs)]: the slice is reordered in place; the
    model returns its new contents. *)
Definition sortKafkaTopics (topics : list Topic) (specs : list TopicSpec)
    : list Topic :=
  sortKafkaTopics_from 0 specs topics.

Definition mkTopic (n : string) : Topic :=
  {| Name := n; ClusterId := "c1"; Partitions := Some 1%Z;
     ReplicationFactor := Some 1%Z; t_TopicConfig := None |}.

Definition mkTopicSpec (n : string) : TopicSpec :=
  {| ts_Name := n; ts_Partitions := Some 1%Z;
     ts_ReplicationFactor := Some 1%Z; ts_TopicConfig := None |}.

(** The claim's reading of "same relative position": the matched remote
    elements, in their final order, carry the names of the matched target
    elements, in target order. *)
Definition aligned (sorted topics : list Topic) (specs : list TopicSpec) : Prop :=
  Name <$> filter (λ t, Name t ∈ (ts_Name <$> specs)) sorted
  = filter (λ n, n ∈ (Name <$> topics)) (ts_Name <$> specs).

(** ** Strings: the library calls the handlers make *)

(** [strings.Replace(s, old, new, -1)] for a non-empty [old]: every
    non-overlapping occurrence, leftmost first.  [skip] counts the bytes of a
    matched occurrence still to be dropped. *)
Fixpoint Replace_scan (old new : string) (skip : nat) (s : string) : string :=
  match s with
  | EmptyString => EmptyString
  | String c s' =>
      match skip with
      | S k => Replace_scan old new k s'
      | O =>
          if String.prefix old s
          then new +:+ Replace_scan old new (String.length old - 1) s'
          else String c (Replace_scan old new 0 s')
      end
  end.

(** With an empty [old] Go inserts [new] before every rune and at the end;
    the runes are taken to be single bytes. *)
Fixpoint Replace_empty (new : string) (s : string) : string :=
  match s with
  | EmptyString => new
  | String c s' => new +:+ String c (Replace_empty new s')
  end.

Definition strings_ReplaceAll (s old new : string) : string :=
  match old with
  | EmptyString => Replace_empty new s
  | _ => Replace_scan old new 0 s
  end.

(** [strings.Contains(s, substr)]. *)
Fixpoint strings_Contains (s substr : string) : bool :=
  String.prefix substr s ||
  match s with
  | EmptyString => false
  | String _ s' => strings_Contains s' substr
  end.

(** [strings.Count(s, substr)] for a non-empty [substr]: non-overlapping
    occurrences. *)
Fixpoint Count_scan (substr : string) (skip : nat) (s : string) : nat :=
  match s with
  | EmptyString => 0
  | String c s' =>
      match skip with
      | S k => Count_scan substr k s'
      | O =>
          if String.prefix substr s
          then S (Count_scan substr (String.length substr - 1) s')
          else Count_scan substr 0 s'
      end
  end.

Definition strings_Count (s substr : string) : nat :=
  match substr with
  | EmptyString => S (String.length s)
  | _ => Count_scan substr 0 s
  end.

(** Byte-wise map over a string, to state what replacing dots amounts to. *)
Fixpoint string_map (f : ascii → ascii) (s : string) : string :=
  match s with
  | EmptyString => EmptyString
  | String c s' => String (f c) (string_map f s')
  end.

Definition dot_to_underscore (c : ascii) : ascii :=
  if Ascii.eqb c "." then "_"%char else c.

(** ** The update-field maps *)

(** The entries of [mdbKafkaUpdateFieldsMap], as the literal lists them. *)
Definition mdbKafkaUpdateFieldsMap_entries : list (string * string) := [
  ("name", "name");
  ("description", "description");
  ("labels", "labels");
  ("security_group_ids", "security_group_ids");
  ("config.0.zones", "config_spec.zone_id");
  ("config.0.brokers_count", "config_spec.brokers_count");
  ("config.0.kafka.0.resources.0.resource_preset_id", "config_spec.kafka.resources.resource_preset_id");
  ("config.0.kafka.0.resources.0.disk_type_id", "config_spec.kafka.resources.disk_type_id");
  ("config.0.kafka.0.resources.0.disk_size", "config_spec.kafka.resources.disk_size");
  ("config.0.kafka.0.kafka_config.0.compression_type", "config_spec.kafka.kafka_config_{version}.compression_type");
  ("config.0.kafka.0.kafka_config.0.log_flush_interval_messages", "config_spec.kafka.kafka_config_{version}.log_flush_interval_messages");
  ("config.0.kafka.0.kafka_config.0.log_flush_interval_ms", "config_spec.kafka.kafka_config_{version}.log_flush_interval_ms");
  ("config.0.kafka.0.kafka_config.0.log_flush_scheduler_interval_ms", "config_spec.kafka.kafka_config_{version}.log_flush_scheduler_interval_ms");
  ("config.0.kafka.0.kafka_config.0.log_retention_bytes", "config_spec.kafka.kafka_config_{version}.log_retention_bytes");
  ("config.0.kafka.0.kafka_config.0.log_retention_hours", "config_spec.kafka.kafka_config_{version}.log_retention_hours");
  ("config.0.kafka.0.kafka_config.0.log_retention_minutes", "config_spec.kafka.kafka_config_{version}.log_retention_minutes");
  ("config.0.kafka.0.kafka_config.0.log_retention_ms", "config_spec.kafka.kafka_config_{version}.log_retention_ms");
  ("config.0.kafka.0.kafka_config.0.log_segment_bytes", "config_spec.kafka.kafka_config_{version}.log_segment_bytes");
  ("config.0.kafka.0.kafka_config.0.log_preallocate", "config_spec.kafka.kafka_config_{version}.log_preallocate");
  ("config.0.zookeeper.0.resources.0.resource_preset_id", "config_spec.zookeeper.resources.resource_preset_id");
  ("config.0.zookeeper.0.resources.0.disk_type_id", "config_spec.zookeeper.resources.disk_type_id");
  ("config.0.zookeeper.0.resources.0.disk_size", "config_spec.zookeeper.resources.disk_size")
].

(** [var mdbKafkaUpdateFieldsMap = map[string]string{...}]. *)
Definition mdbKafkaUpdateFieldsMap : gmap string string :=
  list_to_map mdbKafkaUpdateFieldsMap_entries.

(** The entries of [mdbKafkaUpdateTopicFieldsMap]. *)
Definition mdbKafkaUpdateTopicFieldsMap_entries : list (string * string) := [
  ("topic.%d.name", "topic_spec.name");
  ("topic.%d.partitions", "topic_spec.partitions");
  ("topic.%d.replication_factor", "topic_spec.replication_factor");
  ("topic.%d.topic_config.0.cleanup_policy", "topic_spec.topic_config_{version}.cleanup_policy");
  ("topic.%d.topic_config.0.compression_type", "topic_spec.topic_config_{version}.compression_type");
  ("topic.%d.topic_config.0.delete_retention_ms", "topic_spec.topic_config_{version}.delete_retention_ms");
  ("topic.%d.topic_config.0.file_delete_delay_ms", "topic_spec.topic_config_{version}.file_delete_delay_ms");
  ("topic.%d.topic_config.0.flush_messages", "topic_spec.topic_config_{version}.flush_messages");
  ("topic.%d.topic_config.0.flush_ms", "topic_spec.topic_config_{version}.flush_ms");
  ("topic.%d.topic_config.0.min_compaction_lag_ms", "topic_spec.topic_config_{version}.min_compaction_lag_ms");
  ("topic.%d.topic_config.0.retention_bytes", "topic_spec.topic_config_{version}.retention_bytes");
  ("topic.%d.topic_config.0.retention_ms", "topic_spec.topic_config_{version}.retention_ms");
  ("topic.%d.topic_config.0.max_message_bytes", "topic_spec.topic_config_{version}.max_message_bytes");
  ("topic.%d.topic_config.0.min_insync_replicas", "topic_spec.topic_config_{version}.min_insync_replicas");
  ("topic.%d.topic_config.0.segment_bytes", "topic_spec.topic_config_{version}.segment_bytes");
  ("topic.%d.topic_config.0.preallocate", "topic_spec.topic_config_{version}.preallocate")
].

Definition mdbKafkaUpdateTopicFieldsMap : gmap string string :=
  list_to_map mdbKafkaUpdateTopicFieldsMap_entries.

(** The placeholder of the update-mask paths. *)
Definition version_placeholder : string := "{version}".

(** The body of [getSuffixVerion], on the string that
    [d.Get("config.0.version")] holds:
    [strings.Replace(version, ".", "_", -1)]. *)
Definition suffixVersion (version : string) : string :=
  strings_ReplaceAll version "." "_".

(** The mapper step of the two update loops, on the same string:
    [strings.Replace(path, "{version}", getSuffixVerion(d), -1)]. *)
Definition updateMaskPath (version path : string) : string :=
  strings_ReplaceAll path version_placeholder (suffixVersion version).

(** ** Errors *)

(** A Go [error]: a gRPC status returned by the remote API, or an error built
    locally with [fmt.Errorf], which keeps only text. *)
Inductive error :=
| StatusError (code : Z) (desc : string)
| Errorf (text : string).

(** [codes.NotFound]. *)
Definition codes_NotFound : Z := 5%Z.

(** [codes.Code.String()]: the names of the seventeen gRPC codes, and
    [Code(n)] for any other number. *)
Definition code_name (c : Z) : string :=
  if decide (c = 0%Z) then "OK"
  else if decide (c = 1%Z) then "Canceled"
  else if decide (c = 2%Z) then "Unknown"
  else if decide (c = 3%Z) then "InvalidArgument"
  else if decide (c = 4%Z) then "DeadlineExceeded"
  else if decide (c = 5%Z) then "NotFound"
  else if decide (c = 6%Z) then "AlreadyExists"
  else if decide (c = 7%Z) then "PermissionDenied"
  else if decide (c = 8%Z) then "ResourceExhausted"
  else if decide (c = 9%Z) then "FailedPrecondition"
  else if decide (c = 10%Z) then "Aborted"
  else if decide (c = 11%Z) then "OutOfRange"
  else if decide (c = 12%Z) then "Unimplemented"
  else if decide (c = 13%Z) then "Internal"
  else if decide (c = 14%Z) then "Unavailable"
  else if decide (c = 15%Z) then "DataLoss"
  else if decide (c = 16%Z) then "Unauthenticated"
  else "Code(" +:+ pretty c +:+ ")".

(** [err.Error()]. *)
Definition Error_ (e : error) : string :=
  match e with
  | StatusError c desc => "rpc error: code = " +:+ code_name c +:+ " desc = " +:+ desc
  | Errorf text => text
  end.

(** The double quote character. *)
Definition dq : string := String (ascii_of_nat 34) EmptyString.

(** The verb [%q] on a string; of the escapes only those of the quote and the
    backslash are rendered. *)
Fixpoint escape (s : string) : string :=
  match s with
  | EmptyString => EmptyString
  | String c s' =>
      if decide (c = ascii_of_nat 34) then String "\" (String c (escape s'))
      else if decide (c = "\"%char) then String "\" (String "\" (escape s'))
      else String c (escape s')
  end.

Definition fmt_q (s : string) : string := dq +:+ escape s +:+ dq.

(** ** Declared configuration: [schema.ResourceData] *)

(** A value of type [interface{}] as the schema hands it out. *)
#[local] Unset Elimination Schemes.
Inductive Value :=
| VNil
| VString (s : string)
| VInt (z : Z)
| VBool (b : bool)
| VList (l : list Value)
| VMap (m : list (string * Value)).
#[local] Set Elimination Schemes.

(** The type assertion [v.(string)]; the schema types the keys it is used on
    as strings. *)
Definition as_string (v : Value) : string :=
  match v with VString s => s | _ => "" end.

(** The assertion to a slice of [interface{}], and the [List()] of a
    [schema.Set]. *)
Definition as_list (v : Value) : list Value :=
  match v with VList l => l | _ => [] end.

(** What the handlers observe of [d *schema.ResourceData], and what they
    change in it. *)
Record ResourceData := {
  rd_Id : string;                         (* d.Id() *)
  rd_Get : string → Value;                (* d.Get(key) *)
  rd_GetOk : string → bool;               (* the ok of d.GetOk(key) *)
  rd_HasChange : string → bool;           (* d.HasChange(key) *)
  rd_GetChange : string → Value * Value;  (* d.GetChange(key) *)
  rd_SetError : string → Value → option error; (* what d.Set(key, v) returns *)
  rd_partial : bool;                      (* d.Partial(b) *)
  rd_partials : list string               (* keys given to d.SetPartial, in order *)
}.

(** ** Remote messages *)

Definition Timestamp : Type := Z * Z.

Record Resources := {
  ResourcePresetId : string;
  DiskSize : Z;
  DiskTypeId : string
}.

Record ConfigSpec := {
  Version : string;
  KafkaResources : option Resources;
  KafkaConfig : option Value;
  ZookeeperResources : option Resources;
  ZoneId : list string;
  BrokersCount : option Z;
  AssignPublicIp : bool
}.

Record Cluster := {
  c_Id : string;
  c_FolderId : string;
  c_CreatedAt : option Timestamp;
  c_Name : string;
  c_Description : string;
  c_Labels : list (string * string);
  c_Environment : string;   (* GetEnvironment().String() *)
  c_NetworkId : string;
  c_Health : string;        (* GetHealth().String() *)
  c_Status : string;        (* GetStatus().String() *)
  c_SecurityGroupIds : list string;
  c_Config : ConfigSpec
}.

Inductive AccessRole :=
| ACCESS_ROLE_UNSPECIFIED
| ACCESS_ROLE_PRODUCER
| ACCESS_ROLE_CONSUMER.

Record Permission := {
  TopicName : string;
  Role : AccessRole
}.

#[global] Instance AccessRole_eq_dec : EqDecision AccessRole.
Proof. solve_decision. Defined.

#[global] Instance Permission_eq_dec : EqDecision Permission.
Proof. solve_decision. Defined.

Record UserSpec := {
  us_Name : string;
  us_Password : string;
  us_Permissions : list Permission
}.

Record User := {
  u_Name : string;
  u_ClusterId : string;
  u_Permissions : list Permission
}.

Record ExternalIpv4Address := {
  ip_Address : string;
  ip_ZoneId : string;
  ip_DdosProtectionProvider : string;
  ip_OutgoingSmtpCapability : string
}.

Record Address := {
  a_Id : string;
  a_FolderId : string;
  a_CreatedAt : option Timestamp;
  a_Name : string;
  a_Description : string;
  a_Labels : list (string * string);
  a_ExternalIpv4Address : option ExternalIpv4Address;
  a_Reserved : bool;
  a_Used : bool
}.

(** ** Requests *)

Record UpdateClusterRequest := {
  ucr_ClusterId : string;
  ucr_Name : string;
  ucr_Description : string;
  ucr_Labels : list (string * string);
  ucr_ConfigSpec : ConfigSpec;
  ucr_SecurityGroupIds : list string;
  ucr_UpdateMask : option (list string)
}.

Record UpdateUserRequest := {
  uur_ClusterId : string;
  uur_UserName : string;
  uur_Password : string;
  uur_Permissions : list Permission;
  uur_UpdateMask : list string
}.

Record UpdateTopicRequest := {
  utr_ClusterId : string;
  utr_TopicName : string;
  utr_TopicSpec : TopicSpec;
  utr_UpdateMask : option (list string)
}.

Record UpdateAddressRequest := {
  uar_AddressId : string;
  uar_UpdateMask : list string;
  uar_Name : string;
  uar_Description : string;
  uar_Labels : list (string * string)
}.

(** The remote procedures the handlers call. *)
Inductive Request :=
| Cluster_Get (ClusterId : string)
| Cluster_Update (req : UpdateClusterRequest)
| Topic_List (ClusterId PageToken : string)
| Topic_Delete (ClusterId TopicName : string)
| Topic_Create (ClusterId : string) (spec : TopicSpec)
| Topic_Update (req : UpdateTopicRequest)
| User_List (ClusterId PageToken : string)
| User_Delete (ClusterId UserName : string)
| User_Create (ClusterId : string) (spec : UserSpec)
| User_Update (req : UpdateUserRequest)
| Address_Get (AddressId : string)
| Address_Update (req : UpdateAddressRequest).

(** What a run leaves behind at the remote API: each call as it is issued, and
    each return of [op.Wait]. *)
Inductive Event :=
| Sent (r : Request)
| Waited (r : Request) (err : option error).

(** The remote side, through the SDK: what each call answers, given what the
    run has done so far.  [sdk_Operation] is [WrapOperation] around a call that
    starts a long-running operation (its error, if any); [sdk_Wait] is what
    [op.Wait(ctx)] then returns, a deadline error included. *)
Record SDK := {
  sdk_Cluster_Get : list Event → string → error + Cluster;
  sdk_Topic_List : list Event → string → string → error + (list Topic * string);
  sdk_User_List : list Event → string → string → error + (list User * string);
  sdk_Address_Get : list Event → string → error + Address;
  sdk_Operation : list Event → Request → option error;
  sdk_Wait : list Event → Request → option error
}.

(** [Config], the [meta] of every handler. *)
Record Config := { sdk : SDK }.

(** ** Sequential execution *)

(** The state a handler runs in: the remote calls so far, the resource data,
    and the number of [range] loops over maps run so far. *)
Record World := {
  w_trace : list Event;
  w_d : ResourceData;
  w_ranges : nat
}.

(** How a call ends: a value, a returned [error], or no return within the
    iterations allowed to the paginated listings. *)
Inductive Outcome (A : Type) :=
| Return (a : A)
| Raise (e : error)
| OutOfFuel.
Arguments Return {A} a.
Arguments Raise {A} e.
Arguments OutOfFuel {A}.

Definition M (A : Type) : Type := World → World * Outcome A.

#[global] Instance M_ret : MRet M := λ A a w, (w, Return a).

#[global] Instance M_bind : MBind M := λ A B f m w,
  match m w with
  | (w', Return a) => f a w'
  | (w', Raise e) => (w', Raise e)
  | (w', OutOfFuel) => (w', OutOfFuel)
  end.

Definition raise {A} (e : error) : M A := λ w, (w, Raise e).

Definition out_of_fuel {A} : M A := λ w, (w, OutOfFuel).

(** [err := f(...)] without the [return]: the error becomes a value. *)
Definition try {A} (m : M A) : M (error + A) := λ w,
  match m w with
  | (w', Return a) => (w', Return (inr a))
  | (w', Raise e) => (w', Return (inl e))
  | (w', OutOfFuel) => (w', OutOfFuel)
  end.

(** [for _, x := range l { if err := body(x); err != nil { return err } }]. *)
Fixpoint for_each {A} (l : list A) (body : A → M unit) : M unit :=
  match l with
  | [] => mret ()
  | x :: l' => body x ;; for_each l' body
  end.

Definition get_d : M ResourceData := λ w, (w, Return (w_d w)).

Definition get_trace : M (list Event) := λ w, (w, Return (w_trace w)).

Definition emit (ev : Event) : M unit := λ w,
  ({| w_trace := w_trace w ++ [ev]; w_d := w_d w; w_ranges := w_ranges w |},
   Return ()).

Definition modify_d (f : ResourceData → ResourceData) : M unit := λ w,
  ({| w_trace := w_trace w; w_d := f (w_d w); w_ranges := w_ranges w |},
   Return ()).

(** [d.SetPartial(k)]. *)
Definition d_SetPartial (k : string) : M unit :=
  modify_d (λ d,
    {| rd_Id := rd_Id d; rd_Get := rd_Get d; rd_GetOk := rd_GetOk d;
       rd_HasChange := rd_HasChange d; rd_GetChange := rd_GetChange d;
       rd_SetError := rd_SetError d; rd_partial := rd_partial d;
       rd_partials := rd_partials d ++ [k] |}).

(** [d.Partial(on)]. *)
Definition d_Partial (on : bool) : M unit :=
  modify_d (λ d,
    {| rd_Id := rd_Id d; rd_Get := rd_Get d; rd_GetOk := rd_GetOk d;
       rd_HasChange := rd_HasChange d; rd_GetChange := rd_GetChange d;
       rd_SetError := rd_SetError d; rd_partial := on;
       rd_partials := rd_partials d |}).

(** [d.SetId(id)]. *)
Definition d_SetId (id : string) : M unit :=
  modify_d (λ d,
    {| rd_Id := id; rd_Get := rd_Get d; rd_GetOk := rd_GetOk d;
       rd_HasChange := rd_HasChange d; rd_GetChange := rd_GetChange d;
       rd_SetError := rd_SetError d; rd_partial := rd_partial d;
       rd_partials := rd_partials d |}).

(** [d.Set(k, v)], as a value: the error it returns, if any; without an error
    [d.Get(k)] reads [v] from then on. *)
Definition d_Set (k : string) (v : Value) : M (option error) :=
  d ← get_d;
  match rd_SetError d k v with
  | Some err => mret (Some err)
  | None =>
      modify_d (λ d,
        {| rd_Id := rd_Id d;
           rd_Get := λ k', if decide (k' = k) then v else rd_Get d k';
           rd_GetOk := rd_GetOk d;
           rd_HasChange := rd_HasChange d; rd_GetChange := rd_GetChange d;
           rd_SetError := rd_SetError d; rd_partial := rd_partial d;
           rd_partials := rd_partials d |}) ;;
      mret None
  end.

(** [if err := d.Set(k, v); err != nil { return err }]. *)
Definition d_Set_check (k : string) (v : Value) : M unit :=
  r ← d_Set k v;
  match r with Some err => raise err | None => mret () end.

(** A remote call that answers at once. *)
Definition call {A} (answer : list Event → error + A) (r : Request)
    : M (error + A) :=
  h ← get_trace;
  emit (Sent r) ;;
  mret (answer h).

(** [op, err := config.sdk.WrapOperation(<call>)]. *)
Definition WrapOperation (config : Config) (r : Request) : M (option error) :=
  h ← get_trace;
  emit (Sent r) ;;
  mret (sdk_Operation (sdk config) h r).

(** [err = op.Wait(ctx)]. *)
Definition op_Wait (config : Config) (r : Request) : M (option error) :=
  h ← get_trace;
  let err := sdk_Wait (sdk config) h r in
  emit (Waited r err) ;;
  mret err.

(** [x, err := f(...); if err != nil { return err }] on a pure [f]. *)
Definition check {A} (r : error + A) : M A :=
  match r with inl err => raise err | inr a => mret a end.

(** The same, with the error rewritten on the way out
    ([return fmt.Errorf(..., err)]). *)
Definition check_with {A} (wrap : error → error) (r : error + A) : M A :=
  match r with inl err => raise (wrap err) | inr a => mret a end.

Definition fail_if (wrap : error → error) (r : option error) : M unit :=
  match r with Some err => raise (wrap err) | None => mret () end.

(** ** What the handlers use from the rest of the package *)

(** [IndexedTopicSpec]: the struct is declared with the topic helpers; the
    handlers read its two fields. *)
Record IndexedTopicSpec := {
  index : Z;
  topic : TopicSpec
}.

(** The helpers of the package that are declared in its other files: the
    expanders and flatteners of the schema, and the name-keyed differs.  The
    handlers are stated over any such helpers. *)
Class Package := {
  expandLabels : Value → error + list (string * string);
  expandSecurityGroupIds : Value → list string;
  expandKafkaConfigSpec : ResourceData → error + ConfigSpec;
  expandKafkaTopics : ResourceData → error + list TopicSpec;
  expandKafkaUsers : ResourceData → error + list UserSpec;
  expandKafkaUser : Value → error + UserSpec;
  kafkaTopicsDiff : list Topic → list TopicSpec → list string * list TopicSpec;
  kafkaUsersDiff : list User → list UserSpec → list string * list UserSpec;
  kafkaChangedTopics :
    ResourceData → list Value → list Value → string → error + list IndexedTopicSpec;
  kafkaFilterModifiedTopics :
    list IndexedTopicSpec → list string → list string → list IndexedTopicSpec;
  getTimestamp : option Timestamp → error + string;
  getTimestamp_address : option Timestamp → Value;
  flattenKafkaConfig : Cluster → error + Value;
  flattenKafkaTopics : list Topic → Value;
  kafkaUsersPasswords : list UserSpec → list (string * string);
  flattenKafkaUsers : list User → list (string * string) → Value;
  flattenExternalIpV4AddressSpec : option ExternalIpv4Address → Value
}.

(** What the Go runtime and the generated SDK code decide: the order in which
    the n-th [range] loop of a run visits a map, and the [String()] of a
    [kafka.Permission], which the verb [%v] prints for each element of a
    slice of permissions. *)
Class Library := {
  range_order : nat → gmap string string → list (string * string);
  Permission_String : Permission → string
}.

(** [for k, v := range m]: the entries in the order the runtime picks. *)
Definition range_map {lib : Library} (m : gmap string string)
    : M (list (string * string)) := λ w,
  ({| w_trace := w_trace w; w_d := w_d w; w_ranges := S (w_ranges w) |},
   Return (range_order (w_ranges w) m)).

Definition strings_value (l : list string) : Value := VList (VString <$> l).

Definition labels_value (l : list (string * string)) : Value :=
  VMap ((λ kv, (kv.1, VString kv.2)) <$> l).

(** Modelled from the spec: [handleNotFoundError], which the package declares
    with its utilities, outside the two files embedded here.  On a remote
    not-found the resource is signalled as gone by clearing its identity, and
    no error is returned; any other error comes back wrapped with the
    description of the resource. *)
Definition handleNotFoundError (err : error) (resourceName : string) : M unit :=
  match err with
  | StatusError code _ =>
      if decide (code = codes_NotFound) then d_SetId ""
      else raise (Errorf ("error reading " +:+ resourceName +:+ ": " +:+ Error_ err))
  | Errorf _ =>
      raise (Errorf ("error reading " +:+ resourceName +:+ ": " +:+ Error_ err))
  end.

(** ** The Kafka cluster handlers *)

Section kafka.
Context {pkg : Package} {lib : Library} (config : Config).

(** The loop of [listKafkaTopics], with [fuel] pages allowed.  The page size
    of the request is a constant of the package and is left out of the
    event. *)
Fixpoint listKafkaTopics_pages (fuel : nat) (id pageToken : string)
    (ret : list Topic) : M (list Topic) :=
  match fuel with
  | O => out_of_fuel
  | S fuel' =>
      resp ← call (λ h, sdk_Topic_List (sdk config) h id pageToken)
                  (Topic_List id pageToken);
      '(topics, next) ← check_with
        (λ err, Errorf ("error while getting list of topics for '" +:+ id
                        +:+ "': " +:+ Error_ err)) resp;
      let ret := ret ++ topics in
      if decide (next = "") then mret ret
      else listKafkaTopics_pages fuel' id next ret
  end.

Definition listKafkaTopics (fuel : nat) (id : string) : M (list Topic) :=
  listKafkaTopics_pages fuel id "" [].

Fixpoint listKafkaUsers_pages (fuel : nat) (id pageToken : string)
    (ret : list User) : M (list User) :=
  match fuel with
  | O => out_of_fuel
  | S fuel' =>
      resp ← call (λ h, sdk_User_List (sdk config) h id pageToken)
                  (User_List id pageToken);
      '(users, next) ← check_with
        (λ err, Errorf ("error while getting list of users for '" +:+ id
                        +:+ "': " +:+ Error_ err)) resp;
      let ret := ret ++ users in
      if decide (next = "") then mret ret
      else listKafkaUsers_pages fuel' id next ret
  end.

Definition listKafkaUsers (fuel : nat) (id : string) : M (list User) :=
  listKafkaUsers_pages fuel id "" [].

Definition kafkaClusterUpdateRequest (d : ResourceData)
    : error + UpdateClusterRequest :=
  match expandLabels (rd_Get d "labels") with
  | inl err =>
      inl (Errorf ("error expanding labels while updating Kafka cluster: "
                   +:+ Error_ err))
  | inr labels =>
      match expandKafkaConfigSpec d with
      | inl err =>
          inl (Errorf ("error expanding configSpec while updating Kafka cluster: "
                       +:+ Error_ err))
      | inr configSpec =>
          inr {| ucr_ClusterId := rd_Id d;
                 ucr_Name := as_string (rd_Get d "name");
                 ucr_Description := as_string (rd_Get d "description");
                 ucr_Labels := labels;
                 ucr_ConfigSpec := configSpec;
                 ucr_SecurityGroupIds :=
                   expandSecurityGroupIds (rd_Get d "security_group_ids");
                 ucr_UpdateMask := None |}
      end
  end.

Definition getSuffixVerion (d : ResourceData) : string :=
  suffixVersion (as_string (rd_Get d "config.0.version")).

(** The variables of an update loop.  [field] is the one loop variable of the
    [range] statement (Go before 1.22, the Go of the SDK generation this
    handler is written against): every iteration assigns it, and a closure
    [func() { d.SetPartial(field) }] holds the variable, not its value, so a
    closure is a function of what [field] holds when it is called. *)
Record ChangeLoop := {
  cl_field : string;
  cl_updatePath : list string;
  cl_onDone : list (string → M unit)
}.

Definition ChangeLoop_start : ChangeLoop :=
  {| cl_field := ""; cl_updatePath := []; cl_onDone := [] |}.

(** One iteration of the loop on an entry [(field, path)]; [key] is what
    [d.HasChange] is asked: [field] itself, or [fd] in the topic loop. *)
Definition ChangeLoop_step (d : ResourceData) (key : string → string)
    (st : ChangeLoop) (entry : string * string) : ChangeLoop :=
  let field := entry.1 in
  let path := entry.2 in
  if rd_HasChange d (key field)
  then {| cl_field := field;
          cl_updatePath :=
            cl_updatePath st
              ++ [strings_ReplaceAll path "{version}" (getSuffixVerion d)];
          cl_onDone := cl_onDone st ++ [λ field, d_SetPartial field] |}
  else {| cl_field := field;
          cl_updatePath := cl_updatePath st;
          cl_onDone := cl_onDone st |}.

(** [for _, f := range onDone { f() }]. *)
Definition run_onDone (st : ChangeLoop) : M unit :=
  for_each (cl_onDone st) (λ f, f (cl_field st)).

Definition updateKafkaClusterParams : M unit :=
  d ← get_d;
  req ← check (kafkaClusterUpdateRequest d);
  entries ← range_map mdbKafkaUpdateFieldsMap;
  let st := foldl (ChangeLoop_step d id) ChangeLoop_start entries in
  if decide (length (cl_updatePath st) = 0) then mret ()
  else
    let req :=
      {| ucr_ClusterId := ucr_ClusterId req; ucr_Name := ucr_Name req;
         ucr_Description := ucr_Description req; ucr_Labels := ucr_Labels req;
         ucr_ConfigSpec := ucr_ConfigSpec req;
         ucr_SecurityGroupIds := ucr_SecurityGroupIds req;
         ucr_UpdateMask := Some (cl_updatePath st) |} in
    err ← WrapOperation config (Cluster_Update req);
    fail_if (λ err, Errorf ("error while requesting API to update Kafka Cluster "
                            +:+ fmt_q (rd_Id d) +:+ ": " +:+ Error_ err)) err ;;
    err ← op_Wait config (Cluster_Update req);
    fail_if (λ err, Errorf ("error while updating Kafka Cluster "
                            +:+ fmt_q (rd_Id d) +:+ ": " +:+ Error_ err)) err ;;
    run_onDone st.

Definition deleteKafkaTopic (topicName : string) : M unit :=
  d ← get_d;
  let r := Topic_Delete (rd_Id d) topicName in
  err ← WrapOperation config r;
  fail_if (λ err, Errorf ("error while requesting API to delete topic from Kafka Cluster "
                          +:+ fmt_q (rd_Id d) +:+ ": " +:+ Error_ err)) err ;;
  err ← op_Wait config r;
  fail_if (λ err, Errorf ("error while deleting topic from Kafka Cluster "
                          +:+ fmt_q (rd_Id d) +:+ ": " +:+ Error_ err)) err.

Definition createKafkaTopic (topicSpec : TopicSpec) : M unit :=
  d ← get_d;
  let r := Topic_Create (rd_Id d) topicSpec in
  err ← WrapOperation config r;
  fail_if (λ err, Errorf ("error while requesting API to create topic in Kafka Cluster "
                          +:+ fmt_q (rd_Id d) +:+ ": " +:+ Error_ err)) err ;;
  err ← op_Wait config r;
  fail_if (λ err, Errorf ("error while adding topic to Kafka Cluster "
                          +:+ fmt_q (rd_Id d) +:+ ": " +:+ Error_ err)) err.

(** [fmt.Sprintf(field, index)] for a format whose one verb is [%d]. *)
Fixpoint Sprintf_d (format : string) (n : Z) : string :=
  match format with
  | EmptyString => EmptyString
  | String c rest =>
      if String.prefix "%d" format
      then pretty n +:+ match rest with String _ r => r | EmptyString => EmptyString end
      else String c (Sprintf_d rest n)
  end.

Definition updateKafkaTopic (topicName : string) (topicSpec : IndexedTopicSpec)
    (version : string) : M unit :=
  d ← get_d;
  entries ← range_map mdbKafkaUpdateTopicFieldsMap;
  let st :=
    foldl (ChangeLoop_step d (λ field, Sprintf_d field (index topicSpec)))
          ChangeLoop_start entries in
  if decide (length (cl_updatePath st) = 0) then mret ()
  else
    let request :=
      Topic_Update {| utr_ClusterId := rd_Id d; utr_TopicName := topicName;
                      utr_TopicSpec := topic topicSpec;
                      utr_UpdateMask := Some (cl_updatePath st) |} in
    err ← WrapOperation config request;
    fail_if (λ err, Errorf ("error while requesting API to update topic in Kafka Cluster "
                            +:+ fmt_q (rd_Id d) +:+ ": " +:+ Error_ err)) err ;;
    err ← op_Wait config request;
    fail_if (λ err, Errorf ("error while updating topic in Kafka Cluster "
                            +:+ fmt_q (rd_Id d) +:+ ": " +:+ Error_ err)) err ;;
    run_onDone st.

(** The loop over [toAddSpecs]: the name is appended to [toAdd] before the
    error of the creation is looked at. *)
Fixpoint createKafkaTopics (toAddSpecs : list TopicSpec) (toAdd : list string)
    : M (list string) :=
  match toAddSpecs with
  | [] => mret toAdd
  | topic :: rest =>
      err ← try (createKafkaTopic topic);
      let toAdd := toAdd ++ [ts_Name topic] in
      match err with
      | inl err => raise err
      | inr _ => createKafkaTopics rest toAdd
      end
  end.

Definition updateKafkaClusterTopics (fuel : nat) : M unit :=
  d ← get_d;
  currTopics ← listKafkaTopics fuel (rd_Id d);
  targetTopics ← check (expandKafkaTopics d);
  let currTopics := sortKafkaTopics currTopics targetTopics in
  let '(toDelete, toAddSpecs) := kafkaTopicsDiff currTopics targetTopics in
  for_each toDelete deleteKafkaTopic ;;
  toAdd ← createKafkaTopics toAddSpecs [] ;
  if negb (rd_GetOk d "config.0.version")
  then raise (Errorf "you must specify version of Kafka")
  else
    let version := as_string (rd_Get d "config.0.version") in
    let '(oldSpecs, newSpecs) := rd_GetChange d "topic" in
    changedTopics ←
      check (kafkaChangedTopics d (as_list oldSpecs) (as_list newSpecs) version);
    let modifiedTopics := kafkaFilterModifiedTopics changedTopics toDelete toAdd in
    for_each modifiedTopics
      (λ t, updateKafkaTopic (ts_Name (topic t)) t version) ;;
    d_SetPartial "topic".

Definition deleteKafkaUser (userName : string) : M unit :=
  d ← get_d;
  let r := User_Delete (rd_Id d) userName in
  err ← WrapOperation config r;
  fail_if (λ err, Errorf ("error while requesting API to delete user from Kafka Cluster "
                          +:+ fmt_q (rd_Id d) +:+ ": " +:+ Error_ err)) err ;;
  err ← op_Wait config r;
  fail_if (λ err, Errorf ("error while deleting user from Kafka Cluster "
                          +:+ fmt_q (rd_Id d) +:+ ": " +:+ Error_ err)) err.

Definition createKafkaUser (userSpec : UserSpec) : M unit :=
  d ← get_d;
  let r := User_Create (rd_Id d) userSpec in
  err ← WrapOperation config r;
  fail_if (λ err, Errorf ("error while requesting API to create user in Kafka Cluster "
                          +:+ fmt_q (rd_Id d) +:+ ": " +:+ Error_ err)) err ;;
  err ← op_Wait config r;
  fail_if (λ err, Errorf ("error while adding user to Kafka Cluster "
                          +:+ fmt_q (rd_Id d) +:+ ": " +:+ Error_ err)) err.

Definition updateKafkaUser (req : UpdateUserRequest) : M unit :=
  d ← get_d;
  err ← WrapOperation config (User_Update req);
  fail_if (λ err, Errorf ("error while requesting API to update user in Kafka Cluster "
                          +:+ fmt_q (rd_Id d) +:+ ": " +:+ Error_ err)) err ;;
  err ← op_Wait config (User_Update req);
  fail_if (λ err, Errorf ("error while updating user in Kafka Cluster "
                          +:+ fmt_q (rd_Id d) +:+ ": " +:+ Error_ err)) err.

(** [strings.Join(elems, sep)]. *)
Fixpoint strings_Join (elems : list string) (sep : string) : string :=
  match elems with
  | [] => EmptyString
  | [e] => e
  | e :: rest => e +:+ sep +:+ strings_Join rest sep
  end.

(** [fmt.Sprintf("%v", permissions)] on a slice of permission messages: the
    elements, each printed by its [String()], with a space between them and
    square brackets around. *)
Definition Sprintf_v (permissions : list Permission) : string :=
  "[" +:+ strings_Join (Permission_String <$> permissions) " " +:+ "]".

(** The first loop of [updateKafkaUsers]: the old specs by name. *)
Fixpoint oldUsersByName (specs : list Value) (m : gmap string UserSpec)
    : error + gmap string UserSpec :=
  match specs with
  | [] => inr m
  | spec :: rest =>
      match expandKafkaUser spec with
      | inl err => inl err
      | inr user => oldUsersByName rest (<[us_Name user := user]> m)
      end
  end.

(** The update-mask paths of a new spec [user] against the old spec [u] of
    the same name. *)
Definition userUpdatePaths (user u : UserSpec) : list string :=
  let updatePaths := [] in
  let updatePaths :=
    if decide (us_Password user ≠ us_Password u)
    then updatePaths ++ ["password"] else updatePaths in
  let updatePaths :=
    if decide (Sprintf_v (us_Permissions user) ≠ Sprintf_v (us_Permissions u))
    then updatePaths ++ ["permissions"] else updatePaths in
  updatePaths.

(** The body of the second loop of [updateKafkaUsers]. *)
Definition updateKafkaUsers_step (m : gmap string UserSpec) (spec : Value)
    : M unit :=
  d ← get_d;
  user ← check (expandKafkaUser spec);
  match m !! us_Name user with
  | Some u =>
      let updatePaths := userUpdatePaths user u in
      if decide (0 < length updatePaths)
      then updateKafkaUser
             {| uur_ClusterId := rd_Id d;
                uur_UserName := us_Name user;
                uur_Password := us_Password user;
                uur_Permissions := us_Permissions user;
                uur_UpdateMask := updatePaths |}
      else mret ()
  | None => mret ()
  end.

Definition updateKafkaUsers (oldSpecs newSpecs : list Value) : M unit :=
  m ← check (oldUsersByName oldSpecs ∅);
  for_each newSpecs (updateKafkaUsers_step m).

Definition updateKafkaClusterUsers (fuel : nat) : M unit :=
  d ← get_d;
  currUsers ← listKafkaUsers fuel (rd_Id d);
  targetUsers ← check (expandKafkaUsers d);
  let '(toDelete, toAdd) := kafkaUsersDiff currUsers targetUsers in
  for_each toDelete deleteKafkaUser ;;
  for_each toAdd createKafkaUser ;;
  let '(oldSpecs, newSpecs) := rd_GetChange d "user" in
  updateKafkaUsers (as_list oldSpecs) (as_list newSpecs) ;;
  d_SetPartial "user".

Definition resourceYandexMDBKafkaClusterRead (fuel : nat) : M unit :=
  d ← get_d;
  r ← call (λ h, sdk_Cluster_Get (sdk config) h (rd_Id d)) (Cluster_Get (rd_Id d));
  match r with
  | inl err =>
      handleNotFoundError err ("Cluster " +:+ fmt_q (as_string (rd_Get d "name")))
  | inr cluster =>
      createdAt ← check (getTimestamp (c_CreatedAt cluster));
      d_Set "created_at" (VString createdAt) ;;
      d_Set "name" (VString (c_Name cluster)) ;;
      d_Set "folder_id" (VString (c_FolderId cluster)) ;;
      d_Set "network_id" (VString (c_NetworkId cluster)) ;;
      d_Set "environment" (VString (c_Environment cluster)) ;;
      d_Set "health" (VString (c_Health cluster)) ;;
      d_Set "status" (VString (c_Status cluster)) ;;
      d_Set "description" (VString (c_Description cluster)) ;;
      cfg ← check (flattenKafkaConfig cluster);
      d_Set_check "config" cfg ;;
      topics ← listKafkaTopics fuel (rd_Id d);
      d ← get_d;
      topicSpecs ← check (expandKafkaTopics d);
      let topics := sortKafkaTopics topics topicSpecs in
      d_Set_check "topic" (flattenKafkaTopics topics) ;;
      d ← get_d;
      dUsers ← check (expandKafkaUsers d);
      let passwords := kafkaUsersPasswords dUsers in
      users ← listKafkaUsers fuel (rd_Id d);
      d_Set_check "user" (flattenKafkaUsers users passwords) ;;
      d_Set_check "security_group_ids" (strings_value (c_SecurityGroupIds cluster)) ;;
      d_Set_check "labels" (labels_value (c_Labels cluster))
  end.

Definition resourceYandexMDBKafkaClusterUpdate (fuel : nat) : M unit :=
  d_Partial true ;;
  updateKafkaClusterParams ;;
  d ← get_d;
  (if rd_HasChange d "topic" then updateKafkaClusterTopics fuel else mret ()) ;;
  (if rd_HasChange d "user" then updateKafkaClusterUsers fuel else mret ()) ;;
  d_Partial false ;;
  resourceYandexMDBKafkaClusterRead fuel.

End kafka.

(** ** The VPC address handlers *)

Section address.
Context {pkg : Package} (config : Config).

Definition addressError (text : string) : error :=
  Errorf ("VPC address: " +:+ text).

Definition handleAddressNotFoundError (err : error) (id : string) : M unit :=
  handleNotFoundError err ("VPC address " +:+ fmt_q id).

Definition yandexVPCAddressRead (id : string) : M unit :=
  r ← call (λ h, sdk_Address_Get (sdk config) h id) (Address_Get id);
  match r with
  | inl err => handleAddressNotFoundError err id
  | inr address =>
      d_Set_check "folder_id" (VString (a_FolderId address)) ;;
      d_Set_check "created_at" (getTimestamp_address (a_CreatedAt address)) ;;
      d_Set_check "name" (VString (a_Name address)) ;;
      d_Set_check "description" (VString (a_Description address)) ;;
      d_Set_check "labels" (labels_value (a_Labels address)) ;;
      let v4Addr := flattenExternalIpV4AddressSpec (a_ExternalIpv4Address address) in
      d_Set_check "external_ipv4_address" v4Addr ;;
      d_Set_check "reserved" (VBool (a_Reserved address)) ;;
      d_Set_check "used" (VBool (a_Used address))
  end.

Definition resourceYandexVPCAddressRead : M unit :=
  d ← get_d;
  yandexVPCAddressRead (rd_Id d).

Definition resourceYandexVPCAddressUpdate : M unit :=
  d_Partial true ;;
  d ← get_d;
  let req :=
    {| uar_AddressId := rd_Id d; uar_UpdateMask := [];
       uar_Name := ""; uar_Description := ""; uar_Labels := [] |} in
  req ←
    (if rd_HasChange d "labels"
     then
       labelsProp ← check (expandLabels (rd_Get d "labels"));
       mret {| uar_AddressId := uar_AddressId req;
               uar_UpdateMask := uar_UpdateMask req ++ ["labels"];
               uar_Name := uar_Name req; uar_Description := uar_Description req;
               uar_Labels := labelsProp |}
     else mret req);
  let req :=
    if rd_HasChange d "name"
    then {| uar_AddressId := uar_AddressId req;
            uar_UpdateMask := uar_UpdateMask req ++ ["name"];
            uar_Name := as_string (rd_Get d "name");
            uar_Description := uar_Description req;
            uar_Labels := uar_Labels req |}
    else req in
  let req :=
    if rd_HasChange d "description"
    then {| uar_AddressId := uar_AddressId req;
            uar_UpdateMask := uar_UpdateMask req ++ ["description"];
            uar_Name := uar_Name req;
            uar_Description := as_string (rd_Get d "description");
            uar_Labels := uar_Labels req |}
    else req in
  err ← WrapOperation config (Address_Update req);
  fail_if (λ err, addressError ("while requesting API to update Address "
                                +:+ fmt_q (rd_Id d) +:+ ": " +:+ Error_ err)) err ;;
  err ← op_Wait config (Address_Update req);
  fail_if (λ err, addressError ("updating Address " +:+ fmt_q (rd_Id d)
                                +:+ ": " +:+ Error_ err)) err ;;
  d_Partial false ;;
  resourceYandexVPCAddressRead.

End address.

(** ** The topic differ *)

Module Differ.

(** Modelled from the spec: [kafkaTopicsDiff], which the package declares with
    its topic helpers, outside the two files embedded here.  To-delete are the
    remote names absent from
    the target; to-add are the target specs whose names are absent from the
    remote list.  Name equality is the only key. *)
Definition kafkaTopicsDiff (currTopics : list Topic)
    (targetTopics : list TopicSpec) : list string * list TopicSpec :=
  (filter (λ n, n ∉ (ts_Name <$> targetTopics)) (Name <$> currTopics),
   filter (λ spec, ts_Name spec ∉ (Name <$> currTopics)) targetTopics).

(** Modelled from the spec: [kafkaFilterModifiedTopics], declared next to
    [kafkaTopicsDiff].  It removes the deleted and the created topics from the
    changed ones, by name. *)
Definition kafkaFilterModifiedTopics (topics : list IndexedTopicSpec)
    (toDelete toAdd : list string) : list IndexedTopicSpec :=
  filter (λ t, (ts_Name (topic t) ∉ toDelete) ∧ (ts_Name (topic t) ∉ toAdd)) topics.

End Differ.

(** ** Compact protobuf text *)

(** The two tokens of the compact protobuf text of a permission: each set
    field, followed by a space; a field holding its zero value is not
    printed. *)
Definition tokT (t : string) : string :=
  if decide (t = "") then "" else "topic_name:" +:+ fmt_q t +:+ " ".

Definition tokR (r : AccessRole) : string :=
  match r with
  | ACCESS_ROLE_UNSPECIFIED => ""
  | ACCESS_ROLE_PRODUCER => "role:ACCESS_ROLE_PRODUCER "
  | ACCESS_ROLE_CONSUMER => "role:ACCESS_ROLE_CONSUMER "
  end.

(** ** Sample environments

    Concrete helpers, runtime, remote sides and resource data, to run the
    handlers on. *)

Module Sample.

(** Compact protobuf text of a permission. *)
Definition compact_text (p : Permission) : string :=
  tokT (TopicName p) +:+ tokR (Role p).

(** Single-line protobuf text of a permission: the set fields with [sep]
    between them (one space, or two) and nothing after the last; a field
    holding its zero value is not printed. *)
Definition single_line_text (sep : string) (p : Permission) : string :=
  strings_Join
    ((if decide (TopicName p = "") then []
      else ["topic_name:" +:+ fmt_q (TopicName p)])
     ++ match Role p with
        | ACCESS_ROLE_UNSPECIFIED => []
        | ACCESS_ROLE_PRODUCER => ["role:ACCESS_ROLE_PRODUCER"]
        | ACCESS_ROLE_CONSUMER => ["role:ACCESS_ROLE_CONSUMER"]
        end)
    sep.

(** The literal order for the two update-field maps. *)
Definition literal_order (n : nat) (m : gmap string string)
    : list (string * string) :=
  if decide (m = mdbKafkaUpdateFieldsMap) then mdbKafkaUpdateFieldsMap_entries
  else if decide (m = mdbKafkaUpdateTopicFieldsMap)
       then mdbKafkaUpdateTopicFieldsMap_entries
       else map_to_list m.

Definition library : Library :=
  {| range_order := literal_order; Permission_String := compact_text |}.

Definition library_single_line (sep : string) : Library :=
  {| range_order := literal_order; Permission_String := single_line_text sep |}.

(** A permission comes as the list [topic; role]. *)
Fixpoint expandPermissions (l : list Value) : list Permission :=
  match l with
  | VList [VString t; VString r] :: rest =>
      {| TopicName := t;
         Role := if decide (r = "ACCESS_ROLE_PRODUCER") then ACCESS_ROLE_PRODUCER
                 else if decide (r = "ACCESS_ROLE_CONSUMER") then ACCESS_ROLE_CONSUMER
                 else ACCESS_ROLE_UNSPECIFIED |}
      :: expandPermissions rest
  | _ => []
  end.

(** A user spec comes as the list [name; password; permissions]. *)
Definition expandUser (v : Value) : error + UserSpec :=
  match v with
  | VList [VString n; VString pw; VList perms] =>
      inr {| us_Name := n; us_Password := pw;
             us_Permissions := expandPermissions perms |}
  | _ => inl (Errorf "user: unexpected value")
  end.

Definition configSpec : ConfigSpec :=
  {| Version := "2.8"; KafkaResources := None; KafkaConfig := None;
     ZookeeperResources := None; ZoneId := ["zone-a"];
     BrokersCount := Some 1%Z; AssignPublicIp := false |}.

Definition package : Package :=
  {| expandLabels := λ _, inr [];
     expandSecurityGroupIds := λ _, [];
     expandKafkaConfigSpec := λ _, inr configSpec;
     expandKafkaTopics := λ _, inr [];
     expandKafkaUsers := λ _, inr [];
     expandKafkaUser := expandUser;
     kafkaTopicsDiff := Differ.kafkaTopicsDiff;
     kafkaUsersDiff := λ _ _, ([], []);
     kafkaChangedTopics := λ _ _ _ _, inr [];
     kafkaFilterModifiedTopics := Differ.kafkaFilterModifiedTopics;
     getTimestamp := λ _, inr "2021-01-01T00:00:00Z";
     getTimestamp_address := λ _, VString "2021-01-01T00:00:00Z";
     flattenKafkaConfig := λ _, inr VNil;
     flattenKafkaTopics := λ _, VList [];
     kafkaUsersPasswords := λ _, [];
     flattenKafkaUsers := λ _ _, VList [];
     flattenExternalIpV4AddressSpec := λ _, VList [] |}.

Definition cluster : Cluster :=
  {| c_Id := "c1"; c_FolderId := "f1"; c_CreatedAt := None; c_Name := "kafka";
     c_Description := ""; c_Labels := []; c_Environment := "PRODUCTION";
     c_NetworkId := "n1"; c_Health := "ALIVE"; c_Status := "RUNNING";
     c_SecurityGroupIds := []; c_Config := configSpec |}.

Definition address : Address :=
  {| a_Id := "a1"; a_FolderId := "f1"; a_CreatedAt := None; a_Name := "addr";
     a_Description := ""; a_Labels := []; a_ExternalIpv4Address := None;
     a_Reserved := true; a_Used := false |}.

(** A remote side on which every call succeeds and the lists are empty. *)
Definition sdk_ok : SDK :=
  {| sdk_Cluster_Get := λ _ _, inr cluster;
     sdk_Topic_List := λ _ _ _, inr ([], "");
     sdk_User_List := λ _ _ _, inr ([], "");
     sdk_Address_Get := λ _ _, inr address;
     sdk_Operation := λ _ _, None;
     sdk_Wait := λ _ _, None |}.

(** A remote side on which the resource is gone. *)
Definition sdk_gone : SDK :=
  {| sdk_Cluster_Get := λ _ _, inl (StatusError codes_NotFound "cluster not found");
     sdk_Topic_List := λ _ _ _, inr ([], "");
     sdk_User_List := λ _ _ _, inr ([], "");
     sdk_Address_Get := λ _ _, inl (StatusError codes_NotFound "address not found");
     sdk_Operation := λ _ _, None;
     sdk_Wait := λ _ _, None |}.

(** Resource data with identity [id] in which exactly the keys of [changed]
    have changed. *)
Definition data (id : string) (changed : list string) : ResourceData :=
  {| rd_Id := id;
     rd_Get := λ k, if decide (k = "config.0.version") then VString "2.8"
                    else if decide (k = "name") then VString "res" else VNil;
     rd_GetOk := λ k, bool_decide (k = "config.0.version");
     rd_HasChange := λ k, bool_decide (k ∈ changed);
     rd_GetChange := λ _, (VList [], VList []);
     rd_SetError := λ _ _, None;
     rd_partial := false;
     rd_partials := [] |}.

Definition world (d : ResourceData) : World :=
  {| w_trace := []; w_d := d; w_ranges := 0 |}.

End Sample.

(** ** The order of the remote calls *)

(** The phases of a topic reconciliation: listing the remote topics (0), then
    deleting (1), creating (2) and updating (3). *)
Definition topic_phase (r : Request) : option nat :=
  match r with
  | Topic_List _ _ => Some 0
  | Topic_Delete _ _ => Some 1
  | Topic_Create _ _ => Some 2
  | Topic_Update _ => Some 3
  | _ => None
  end.

(** The same phases for users. *)
Definition user_phase (r : Request) : option nat :=
  match r with
  | User_List _ _ => Some 0
  | User_Delete _ _ => Some 1
  | User_Create _ _ => Some 2
  | User_Update _ => Some 3
  | _ => None
  end.

(** [Sequential phase p evs]: the events [evs] of a run that is in phase [p]
    are strictly sequential and ordered by phase.  A listing call is answered
    at once and belongs to phase 0.  An operation of phase [q] can only be
    requested when no operation of a later phase has been; the next event
    after its request is the return of its own [Wait]; another call follows
    only when that [Wait] returned without error. *)
Inductive Sequential (phase : Request → option nat)
    : nat → list Event → Prop :=
| seq_end p :
    Sequential phase p []
| seq_answered r rest :
    phase r = Some 0 →
    Sequential phase 0 rest →
    Sequential phase 0 (Sent r :: rest)
| seq_refused p q r :
    phase r = Some q → 0 < q → p ≤ q →
    Sequential phase p [Sent r]
| seq_wait_failed p q r err :
    phase r = Some q → 0 < q → p ≤ q →
    Sequential phase p [Sent r; Waited r (Some err)]
| seq_awaited p q r rest :
    phase r = Some q → 0 < q → p ≤ q →
    Sequential phase q rest →
    Sequential phase p (Sent r :: Waited r None :: rest).

(** [Completed phase p q evs]: such events in which every operation has been
    awaited with success, from phase [p] and no further than phase [q]. *)
Inductive Completed (phase : Request → option nat)
    : nat → nat → list Event → Prop :=
| comp_end p q :
    p ≤ q →
    Completed phase p q []
| comp_answered q r rest :
    phase r = Some 0 →
    Completed phase 0 q rest →
    Completed phase 0 q (Sent r :: rest)
| comp_awaited p q q' r rest :
    phase r = Some q → 0 < q → p ≤ q →
    Completed phase q q' rest →
    Completed phase p q' (Sent r :: Waited r None :: rest).

(** What a step that works in the phases [p] to [q] leaves behind: completed
    events when it returns, sequential ones when it fails. *)
Definition Phase (phase : Request → option nat) (p q : nat) {A}
    (out : Outcome A) (evs : list Event) : Prop :=
  match out with
  | Return _ => Completed phase p q evs
  | _ => Sequential phase p evs
  end.

(** ** The print of a slice of permissions *)

(** What follows an element in the print of a slice: the closing bracket, or
    the space before the next element. *)
Definition closes (s : string) : Prop :=
  ∃ rest, s = String "]" rest ∨ s = String " " rest.

(** The print of a slice after its first element, [text] being the print of
    a permission. *)
Fixpoint printed_rest (text : Permission → string) (ps : list Permission)
    : string :=
  match ps with
  | [] => "]"
  | p :: ps' => " " +:+ text p +:+ printed_rest text ps'
  end.

(** A permission with both fields set: a topic name and a role. *)
Definition ordinary (p : Permission) : Prop :=
  TopicName p ≠ "" ∧ Role p ≠ ACCESS_ROLE_UNSPECIFIED.

(** [protobuf_text permissions]: the [String()] of a permission prints
    protobuf text, either compact text, in which a space follows each field,
    or single-line text with some separator between the fields and nothing
    after the last; in the second case the permissions have both fields
    set. *)
Definition protobuf_text {lib : Library} (permissions : list Permission)
    : Prop :=
  Permission_String = Sample.compact_text
  ∨ (∃ sep, Permission_String = Sample.single_line_text sep)
    ∧ Forall ordinary permissions.

(** ** Statements about paths and runs *)

(** What the mapper does to one path of a table: nothing when it holds no
    placeholder; otherwise the path holds exactly one, and that one is replaced
    by the suffix. *)
Definition mapped_once (path : string) : Prop :=
  ∀ version,
    (strings_Count path version_placeholder = 0
     ∧ updateMaskPath version path = path)
    ∨ (strings_Count path version_placeholder = 1
       ∧ ∃ pre post,
           path = pre +:+ version_placeholder +:+ post
           ∧ strings_Contains pre version_placeholder = false
           ∧ strings_Contains post version_placeholder = false
           ∧ updateMaskPath version path
             = pre +:+ suffixVersion version +:+ post).

(** [emits m P]: from any state, [m] adds events [evs] at the end of the trace
    and ends in an outcome [out] with [P out evs]. *)
Definition emits {A} (m : M A) (P : Outcome A → list Event → Prop) : Prop :=
  ∀ w, ∃ evs, w_trace (m w).1 = w_trace w ++ evs ∧ P (m w).2 evs.

(** [silent m]: [m] makes no remote call. *)
Definition silent {A} (m : M A) : Prop :=
  ∀ w, w_trace (m w).1 = w_trace w.

(** [extends m]: the run of [m] keeps the calls made so far and adds its own
    after them. *)
Definition extends {A} (m : M A) : Prop := emits m (λ _ _, True).

(** The markers added by a run. *)
Definition markers_added {A} (m : M A) (w : World) (ks : list string) : Prop :=
  rd_partials (w_d (m w).1) = rd_partials (w_d w) ++ ks.

(** ** Creation and deletion *)

(** [kafka.Cluster_Environment]. *)
Inductive Environment :=
| ENVIRONMENT_UNSPECIFIED
| PRODUCTION
| PRESTABLE.

Record CreateClusterRequest := {
  ccr_FolderId : string;
  ccr_Name : string;
  ccr_Description : string;
  ccr_NetworkId : string;
  ccr_Environment : Environment;
  ccr_ConfigSpec : ConfigSpec;
  ccr_Labels : list (string * string);
  ccr_SubnetId : list string;
  ccr_TopicSpecs : list TopicSpec;
  ccr_UserSpecs : list UserSpec;
  ccr_SecurityGroupIds : list string
}.

(** [vpc.CreateAddressRequest] with its external IPv4 address spec. *)
Record CreateAddressRequest := {
  car_FolderId : string;
  car_Name : string;
  car_Description : string;
  car_Labels : list (string * string);
  car_ExternalIpv4AddressSpec : option ExternalIpv4Address
}.

(** The calls that start the creation or the deletion of a resource. *)
Inductive Launch :=
| Cluster_Create (req : CreateClusterRequest)
| Cluster_Delete (ClusterId : string)
| Address_Create (req : CreateAddressRequest)
| Address_Delete (AddressId : string).

(** What [op.Metadata()] unpacks: the metadata of the creation of a cluster or
    of an address, or a message of another type. *)
Inductive Metadata :=
| CreateClusterMetadata (ClusterId : string)
| CreateAddressMetadata (AddressId : string)
| OtherMetadata.

(** What these calls leave behind: the request, and the return of its
    [op.Wait]. *)
Inductive Step :=
| Launched (r : Launch)
| Awaited (r : Launch) (err : option error).

(** The remote side for these calls, given the calls made so far: the error of
    [WrapOperation], what [op.Metadata()] and [op.Response()] return, and
    what [op.Wait(ctx)] returns. *)
Record Operations := {
  ops_Operation : list Event → list Step → Launch → option error;
  ops_Metadata : list Event → list Step → Launch → error + Metadata;
  ops_Wait : list Event → list Step → Launch → option error;
  ops_Response : list Event → list Step → Launch → option error
}.

(** The state of a creation or a deletion: the state of the handlers above,
    and the steps taken. *)
Record Run := {
  run_world : World;
  run_steps : list Step
}.

Definition L (A : Type) : Type := Run → Run * Outcome A.

#[global] Instance L_ret : MRet L := λ A a s, (s, Return a).

#[global] Instance L_bind : MBind L := λ A B f m s,
  match m s with
  | (s', Return a) => f a s'
  | (s', Raise e) => (s', Raise e)
  | (s', OutOfFuel) => (s', OutOfFuel)
  end.

(** A step of the handlers above, run inside a creation or a deletion. *)
Definition lift {A} (m : M A) : L A := λ s,
  let '(w', out) := m (run_world s) in
  ({| run_world := w'; run_steps := run_steps s |}, out).

Definition fail {A} (e : error) : L A := λ s, (s, Raise e).

Definition fail_when (wrap : error → error) (r : option error) : L unit :=
  match r with Some err => fail (wrap err) | None => mret () end.

(** [op, err := config.sdk.WrapOperation(<call>)]. *)
Definition launch (ops : Operations) (r : Launch) : L (option error) := λ s,
  ({| run_world := run_world s; run_steps := run_steps s ++ [Launched r] |},
   Return (ops_Operation ops (w_trace (run_world s)) (run_steps s) r)).

(** [protoMetadata, err := op.Metadata()]. *)
Definition op_Metadata (ops : Operations) (r : Launch) : L (error + Metadata) :=
  λ s, (s, Return (ops_Metadata ops (w_trace (run_world s)) (run_steps s) r)).

(** [err = op.Wait(ctx)]. *)
Definition await (ops : Operations) (r : Launch) : L (option error) := λ s,
  let err := ops_Wait ops (w_trace (run_world s)) (run_steps s) r in
  ({| run_world := run_world s; run_steps := run_steps s ++ [Awaited r err] |},
   Return err).

(** [_, err := op.Response()]. *)
Definition op_Response (ops : Operations) (r : Launch) : L (option error) :=
  λ s, (s, Return (ops_Response ops (w_trace (run_world s)) (run_steps s) r)).

(** The helpers of the package that only the creation uses, declared in its
    other files. *)
Class Creation := {
  getFolderID : ResourceData → Config → error + string;
  parseKafkaEnv : string → error + Environment;
  expandExternalIpv4Address : ResourceData → error + option ExternalIpv4Address
}.

Section lifecycle.
Context {pkg : Package} {lib : Library} {crt : Creation}.
Context (config : Config) (ops : Operations).

Definition prepareKafkaCreateRequest (d : ResourceData) (meta : Config)
    : error + CreateClusterRequest :=
  match expandLabels (rd_Get d "labels") with
  | inl err =>
      inl (Errorf ("error while expanding labels on Kafka Cluster create: "
                   +:+ Error_ err))
  | inr labels =>
  match getFolderID d meta with
  | inl err =>
      inl (Errorf ("error getting folder ID while creating Kafka Cluster: "
                   +:+ Error_ err))
  | inr folderID =>
  let e := as_string (rd_Get d "environment") in
  match parseKafkaEnv e with
  | inl err =>
      inl (Errorf ("error resolving environment while creating Kafka Cluster: "
                   +:+ Error_ err))
  | inr env =>
  match expandKafkaConfigSpec d with
  | inl err =>
      inl (Errorf ("error while expanding configuration on Kafka Cluster create: "
                   +:+ Error_ err))
  | inr configSpec =>
  let subnets :=
    if rd_GetOk d "subnet_ids"
    then as_string <$> as_list (rd_Get d "subnet_ids")
    else [] in
  match expandKafkaTopics d with
  | inl err =>
      inl (Errorf ("error while expanding topics on Kafka Cluster create: "
                   +:+ Error_ err))
  | inr topicSpecs =>
  match expandKafkaUsers d with
  | inl err =>
      inl (Errorf ("error while expanding users on Kafka Cluster create: "
                   +:+ Error_ err))
  | inr userSpecs =>
  let securityGroupIds := expandSecurityGroupIds (rd_Get d "security_group_ids") in
  inr {| ccr_FolderId := folderID;
         ccr_Name := as_string (rd_Get d "name");
         ccr_Description := as_string (rd_Get d "description");
         ccr_NetworkId := as_string (rd_Get d "network_id");
         ccr_Environment := env;
         ccr_ConfigSpec := configSpec;
         ccr_Labels := labels;
         ccr_SubnetId := subnets;
         ccr_TopicSpecs := topicSpecs;
         ccr_UserSpecs := userSpecs;
         ccr_SecurityGroupIds := securityGroupIds |}
  end end end end end end.

Definition resourceYandexMDBKafkaClusterCreate (fuel : nat) : L unit :=
  d ← lift get_d;
  req ← lift (check (prepareKafkaCreateRequest d config));
  let create := Cluster_Create req in
  err ← launch ops create;
  fail_when (λ err, Errorf ("error while requesting API to create Kafka Cluster: "
                            +:+ Error_ err)) err ;;
  protoMetadata ← op_Metadata ops create;
  match protoMetadata with
  | inl err =>
      fail (Errorf ("error while getting Kafka create operation metadata: "
                    +:+ Error_ err))
  | inr (CreateClusterMetadata ClusterId) =>
      lift (d_SetId ClusterId) ;;
      err ← await ops create;
      fail_when (λ err, Errorf ("error while waiting for operation to create Kafka Cluster: "
                                +:+ Error_ err)) err ;;
      err ← op_Response ops create;
      fail_when (λ err, Errorf ("kafka cluster creation failed: "
                                +:+ Error_ err)) err ;;
      lift (resourceYandexMDBKafkaClusterRead config fuel)
  | inr _ =>
      fail (Errorf "could not get Cluster ID from create operation metadata")
  end.

Definition resourceYandexMDBKafkaClusterDelete : L unit :=
  d ← lift get_d;
  let delete := Cluster_Delete (rd_Id d) in
  err ← launch ops delete;
  match err with
  | Some err =>
      lift (handleNotFoundError err
              ("Kafka Cluster " +:+ fmt_q (as_string (rd_Get d "name"))))
  | None =>
      err ← await ops delete;
      fail_when (λ err, err) err ;;
      err ← op_Response ops delete;
      fail_when (λ err, err) err
  end.

Definition resourceYandexVPCAddressCreate : L unit :=
  d ← lift get_d;
  labels ← lift (check_with
    (λ err, addressError ("expanding labels while creating address: "
                          +:+ Error_ err))
    (expandLabels (rd_Get d "labels")));
  folderID ← lift (check_with
    (λ err, addressError ("expanding folder ID while creating address: "
                          +:+ Error_ err))
    (getFolderID d config));
  spec ← lift (check_with
    (λ err, addressError ("expanding external ipv4 address while creating address: "
                          +:+ Error_ err))
    (expandExternalIpv4Address d));
  let req :=
    {| car_FolderId := folderID;
       car_Name := as_string (rd_Get d "name");
       car_Description := as_string (rd_Get d "description");
       car_Labels := labels;
       car_ExternalIpv4AddressSpec := spec |} in
  let create := Address_Create req in
  err ← launch ops create;
  fail_when (λ err, addressError ("while requesting API to create address: "
                                  +:+ Error_ err)) err ;;
  protoMetadata ← op_Metadata ops create;
  match protoMetadata with
  | inl err =>
      fail (addressError ("while get address create operation metadata: "
                          +:+ Error_ err))
  | inr (CreateAddressMetadata AddressId) =>
      lift (d_SetId AddressId) ;;
      err ← await ops create;
      fail_when (λ err, addressError ("while waiting operation to create address: "
                                      +:+ Error_ err)) err ;;
      err ← op_Response ops create;
      fail_when (λ err, addressError ("creation failed: " +:+ Error_ err)) err ;;
      lift (resourceYandexVPCAddressRead config)
  | inr _ =>
      fail (addressError "could not get Address ID from create operation metadata")
  end.

Definition resourceYandexVPCAddressDelete : L unit :=
  d ← lift get_d;
  let delete := Address_Delete (rd_Id d) in
  err ← launch ops delete;
  match err with
  | Some err => lift (handleAddressNotFoundError err (rd_Id d))
  | None =>
      err ← await ops delete;
      fail_when (λ err, err) err ;;
      err ← op_Response ops delete;
      fail_when (λ err, err) err
  end.

End lifecycle.

(** ** Statements about the remaining behaviour of the handlers *)

(** [settled i topics specs]: no remote element that stands after the index of
    a target spec carries the name of that spec, the specs being counted from
    index [i]. *)
Definition settled (i : nat) (topics : list Topic) (specs : list TopicSpec)
    : Prop :=
  ∀ k s j t, specs !! k = Some s → i + k < j → topics !! j = Some t →
    Name t ≠ ts_Name s.

(** [only E m]: every event a run of [m] adds is in [E]. *)
Definition only {A} (E : Event → Prop) (m : M A) : Prop :=
  emits m (λ _ evs, Forall E evs).

(** The request an event is about. *)
Definition request_of (ev : Event) : Request :=
  match ev with Sent r | Waited r _ => r end.

(** The events about the requests in [C]. *)
Definition about (C : Request → Prop) (ev : Event) : Prop := C (request_of ev).

(** [never_returns m]: no run of [m] ends without an error. *)
Definition never_returns {A} (m : M A) : Prop :=
  ∀ w a, (m w).2 ≠ Return a.

(** [marks k m]: the markers a run of [m] adds are the one marker [k] when it
    returns, and none when it fails. *)
Definition marks {A} (k : string) (m : M A) : Prop :=
  ∀ w, markers_added m w
         (match (m w).2 with Return _ => [k] | _ => [] end).

(** [settles_partial G m]: run in partial mode, [m] leaves partial mode exactly
    when it reaches a call in [G], the read of the resource, and it reaches
    that read whenever it returns. *)
Definition settles_partial {A} (G : Event → Prop) (m : M A) : Prop :=
  ∀ w, rd_partial (w_d w) = true →
    ∃ evs, w_trace (m w).1 = w_trace w ++ evs
      ∧ (rd_partial (w_d (m w).1) = false ↔ Exists G evs)
      ∧ ∀ a, (m w).2 = Return a → rd_partial (w_d (m w).1) = false.

(** The read of a cluster, and the read of an address. *)
Definition is_Cluster_Get (ev : Event) : Prop :=
  ∃ id, ev = Sent (Cluster_Get id).

Definition is_Address_Get (ev : Event) : Prop :=
  ∃ id, ev = Sent (Address_Get id).

(** The update requests that the user differ may send for the old and the
    new specs of a change: one for a user whose name both sides declare, with
    the password and the permissions of the new side, and with the paths in
    which the two sides differ, of which there is at least one. *)
Definition user_update_of {pkg : Package} {lib : Library}
    (oldSpecs newSpecs : list Value) (r : Request) : Prop :=
  ∃ cid old new u user,
    old ∈ oldSpecs ∧ new ∈ newSpecs
    ∧ expandKafkaUser old = inr u ∧ expandKafkaUser new = inr user
    ∧ us_Name u = us_Name user
    ∧ userUpdatePaths user u ≠ []
    ∧ r = User_Update
            {| uur_ClusterId := cid;
               uur_UserName := us_Name user;
               uur_Password := us_Password user;
               uur_Permissions := us_Permissions user;
               uur_UpdateMask := userUpdatePaths user u |}.

(** The requests of a run, in the order in which they are sent. *)
Definition requests (evs : list Event) : list Request :=
  omap (λ ev, match ev with Sent r => Some r | Waited _ _ => None end) evs.

(** The name of the topic a request deletes, creates or updates. *)
Definition topic_deleted (r : Request) : option string :=
  match r with Topic_Delete _ name => Some name | _ => None end.

Definition topic_created (r : Request) : option string :=
  match r with Topic_Create _ spec => Some (ts_Name spec) | _ => None end.

Definition topic_updated (r : Request) : option string :=
  match r with Topic_Update req => Some (utr_TopicName req) | _ => None end.

(** The names that the requests of a run carry, under [pick]. *)
Definition named (pick : Request → option string) (evs : list Event)
    : gset string :=
  list_to_set (omap pick (requests evs)).

(** The three name sets of a topic reconciliation as the remote side sees
    them: the topics that the run asks to delete, to create and to update. *)
Definition deleted_topics : list Event → gset string := named topic_deleted.

Definition created_topics : list Event → gset string := named topic_created.

Definition updated_topics : list Event → gset string := named topic_updated.

(** [topic_changed d t]: some field of the topic table, asked about at the
    index of [t], has changed. *)
Definition topic_changed {lib : Library} (d : ResourceData)
    (t : IndexedTopicSpec) : Prop :=
  ∃ n e, e ∈ range_order n mdbKafkaUpdateTopicFieldsMap
         ∧ rd_HasChange d (Sprintf_d e.1 (index t)) = true.

(** [changed_topic d name]: [kafkaChangedTopics], asked as
    [updateKafkaClusterTopics] asks it, reports a topic of that name, and
    some field of the topic table has changed at the index it reports. *)
Definition changed_topic {pkg : Package} {lib : Library} (d : ResourceData)
    (name : string) : Prop :=
  ∃ changedTopics t,
    kafkaChangedTopics d (as_list (rd_GetChange d "topic").1)
      (as_list (rd_GetChange d "topic").2)
      (as_string (rd_Get d "config.0.version")) = inr changedTopics
    ∧ t ∈ changedTopics ∧ ts_Name (topic t) = name ∧ topic_changed d t.

(** The events of operations that are requested and awaited with success, one
    after the other. *)
Definition awaited (rs : list Request) : list Event :=
  rs ≫= λ r, [Sent r; Waited r None].

(** [accepts config]: the remote side accepts every request of an operation,
    and every wait on one returns without error. *)
Definition accepts (config : Config) : Prop :=
  ∀ h q, sdk_Operation (sdk config) h q = None
         ∧ sdk_Wait (sdk config) h q = None.

(** The calls that read the remote state: they are answered at once and start
    no operation. *)
Definition is_read (ev : Event) : Prop :=
  match ev with
  | Sent (Cluster_Get _) | Sent (Topic_List _ _) | Sent (User_List _ _)
  | Sent (Address_Get _) => True
  | _ => False
  end.

(** [answers page mk h tok pages last]: asked through [page] for the page
    [tok] after the calls [h], the remote answers with the pages [pages] one
    after the other, each naming a next page, and then with [last]: an error,
    or the elements of a final page that names no next one.  [mk] is the
    request a page token is asked with. *)
Fixpoint answers {A} (page : list Event → string → error + (list A * string))
    (mk : string → Request) (h : list Event) (tok : string)
    (pages : list (list A * string)) (last : error + list A) : Prop :=
  match pages with
  | [] =>
      page h tok = match last with
                   | inl err => inl err
                   | inr elems => inr (elems, "")
                   end
  | (elems, next) :: rest =>
      page h tok = inr (elems, next) ∧ next ≠ ""
      ∧ answers page mk (h ++ [Sent (mk tok)]) next rest last
  end.

(** The calls of a listing that walks through [pages] from the token [tok]:
    one for each page and one more for what comes after them. *)
Fixpoint page_calls (mk : string → Request) (tok : string) {A}
    (pages : list (list A * string)) : list Event :=
  Sent (mk tok)
  :: match pages with
     | [] => []
     | (_, next) :: rest => page_calls mk next rest
     end.

(** Concrete remote sides and resource data for the runs below. *)
Module Scenario.

Definition alice : User :=
  {| u_Name := "alice"; u_ClusterId := "c1"; u_Permissions := [] |}.

Definition bob : User :=
  {| u_Name := "bob"; u_ClusterId := "c1"; u_Permissions := [] |}.

(** A remote side that serves the topics of a cluster in two pages, and fails
    on the second page of its users. *)
Definition sdk_paged : SDK :=
  {| sdk_Cluster_Get := λ _ _, inr Sample.cluster;
     sdk_Topic_List := λ _ _ tok,
       if decide (tok = "") then inr ([mkTopic "a"; mkTopic "b"], "page-2")
       else inr ([mkTopic "c"], "");
     sdk_User_List := λ _ _ tok,
       if decide (tok = "") then inr ([alice; bob], "page-2")
       else inl (StatusError 14 "try again");
     sdk_Address_Get := λ _ _, inr Sample.address;
     sdk_Operation := λ _ _, None;
     sdk_Wait := λ _ _, None |}.

(** Helpers of the package with which no labels can be expanded. *)
Definition package_bad_labels : Package :=
  {| expandLabels := λ _, inl (Errorf "labels: unexpected value");
     expandSecurityGroupIds := expandSecurityGroupIds (Package := Sample.package);
     expandKafkaConfigSpec := expandKafkaConfigSpec (Package := Sample.package);
     expandKafkaTopics := expandKafkaTopics (Package := Sample.package);
     expandKafkaUsers := expandKafkaUsers (Package := Sample.package);
     expandKafkaUser := expandKafkaUser (Package := Sample.package);
     kafkaTopicsDiff := kafkaTopicsDiff (Package := Sample.package);
     kafkaUsersDiff := kafkaUsersDiff (Package := Sample.package);
     kafkaChangedTopics := kafkaChangedTopics (Package := Sample.package);
     kafkaFilterModifiedTopics :=
       kafkaFilterModifiedTopics (Package := Sample.package);
     getTimestamp := getTimestamp (Package := Sample.package);
     getTimestamp_address := getTimestamp_address (Package := Sample.package);
     flattenKafkaConfig := flattenKafkaConfig (Package := Sample.package);
     flattenKafkaTopics := flattenKafkaTopics (Package := Sample.package);
     kafkaUsersPasswords := kafkaUsersPasswords (Package := Sample.package);
     flattenKafkaUsers := flattenKafkaUsers (Package := Sample.package);
     flattenExternalIpV4AddressSpec :=
       flattenExternalIpV4AddressSpec (Package := Sample.package) |}.

(** Helpers of the package under which the configuration declares the topics
    [b] and [c]. *)
Definition package_topics : Package :=
  {| expandLabels := expandLabels (Package := Sample.package);
     expandSecurityGroupIds := expandSecurityGroupIds (Package := Sample.package);
     expandKafkaConfigSpec := expandKafkaConfigSpec (Package := Sample.package);
     expandKafkaTopics := λ _, inr [mkTopicSpec "b"; mkTopicSpec "c"];
     expandKafkaUsers := expandKafkaUsers (Package := Sample.package);
     expandKafkaUser := expandKafkaUser (Package := Sample.package);
     kafkaTopicsDiff := kafkaTopicsDiff (Package := Sample.package);
     kafkaUsersDiff := kafkaUsersDiff (Package := Sample.package);
     kafkaChangedTopics := kafkaChangedTopics (Package := Sample.package);
     kafkaFilterModifiedTopics :=
       kafkaFilterModifiedTopics (Package := Sample.package);
     getTimestamp := getTimestamp (Package := Sample.package);
     getTimestamp_address := getTimestamp_address (Package := Sample.package);
     flattenKafkaConfig := flattenKafkaConfig (Package := Sample.package);
     flattenKafkaTopics := flattenKafkaTopics (Package := Sample.package);
     kafkaUsersPasswords := kafkaUsersPasswords (Package := Sample.package);
     flattenKafkaUsers := flattenKafkaUsers (Package := Sample.package);
     flattenExternalIpV4AddressSpec :=
       flattenExternalIpV4AddressSpec (Package := Sample.package) |}.

(** A remote side with the topics [a] and [b], on which every call
    succeeds. *)
Definition sdk_topics : SDK :=
  {| sdk_Cluster_Get := λ _ _, inr Sample.cluster;
     sdk_Topic_List := λ _ _ _, inr ([mkTopic "a"; mkTopic "b"], "");
     sdk_User_List := λ _ _ _, inr ([], "");
     sdk_Address_Get := λ _ _, inr Sample.address;
     sdk_Operation := λ _ _, None;
     sdk_Wait := λ _ _, None |}.

(** Resource data of the cluster [c1] in which no version is set. *)
Definition data_without_version : ResourceData :=
  {| rd_Id := "c1";
     rd_Get := λ _, VNil;
     rd_GetOk := λ _, false;
     rd_HasChange := λ k, bool_decide (k = "topic");
     rd_GetChange := λ _, (VList [], VList []);
     rd_SetError := λ _ _, None;
     rd_partial := true;
     rd_partials := [] |}.

(** The helpers of the creation: the folder [f1], the production
    environment, no address spec. *)
Definition creation : Creation :=
  {| getFolderID := λ _ _, inr "f1";
     parseKafkaEnv := λ _, inr PRODUCTION;
     expandExternalIpv4Address := λ _, inr None |}.

(** A remote side that accepts every creation and deletion, names the new
    cluster [c9] and the new address [a9], and on which every wait and
    response succeeds when [wait] and [response] are [None]. *)
Definition ops_with (wait response : option error) : Operations :=
  {| ops_Operation := λ _ _ _, None;
     ops_Metadata := λ _ _ r,
       match r with
       | Cluster_Create _ => inr (CreateClusterMetadata "c9")
       | Address_Create _ => inr (CreateAddressMetadata "a9")
       | _ => inr OtherMetadata
       end;
     ops_Wait := λ _ _ _, wait;
     ops_Response := λ _ _ _, response |}.

(** A remote side whose operations carry no metadata of a creation. *)
Definition ops_without_metadata : Operations :=
  {| ops_Operation := λ _ _ _, None;
     ops_Metadata := λ _ _ _, inr OtherMetadata;
     ops_Wait := λ _ _ _, None;
     ops_Response := λ _ _ _, None |}.

(** The request that [prepareKafkaCreateRequest] builds from [Sample.data]
    with the helpers above. *)
Definition create_request : CreateClusterRequest :=
  {| ccr_FolderId := "f1"; ccr_Name := "res"; ccr_Description := "";
     ccr_NetworkId := ""; ccr_Environment := PRODUCTION;
     ccr_ConfigSpec := Sample.configSpec; ccr_Labels := [];
     ccr_SubnetId := []; ccr_TopicSpecs := []; ccr_UserSpecs := [];
     ccr_SecurityGroupIds := [] |}.

Definition run (d : ResourceData) : Run :=
  {| run_world := Sample.world d; run_steps := [] |}.

(** Resource data of the resource [id] in which [d.Set] rejects the keys of
    [rejected] and accepts every other key. *)
Definition data_rejecting (id : string) (rejected : list string)
    : ResourceData :=
  {| rd_Id := id;
     rd_Get := λ _, VNil;
     rd_GetOk := λ _, false;
     rd_HasChange := λ _, false;
     rd_GetChange := λ _, (VList [], VList []);
     rd_SetError := λ k _,
       if bool_decide (k ∈ rejected)
       then Some (Errorf ("cannot set " +:+ k)) else None;
     rd_partial := false;
     rd_partials := [] |}.

(** Helpers of the package under which the configuration declares the topics
    [specs] and [kafkaChangedTopics] reports the topics [changed]. *)
Definition package_declaring (specs : list TopicSpec)
    (changed : list IndexedTopicSpec) : Package :=
  {| expandLabels := expandLabels (Package := Sample.package);
     expandSecurityGroupIds := expandSecurityGroupIds (Package := Sample.package);
     expandKafkaConfigSpec := expandKafkaConfigSpec (Package := Sample.package);
     expandKafkaTopics := λ _, inr specs;
     expandKafkaUsers := expandKafkaUsers (Package := Sample.package);
     expandKafkaUser := expandKafkaUser (Package := Sample.package);
     kafkaTopicsDiff := kafkaTopicsDiff (Package := Sample.package);
     kafkaUsersDiff := kafkaUsersDiff (Package := Sample.package);
     kafkaChangedTopics := λ _ _ _ _, inr changed;
     kafkaFilterModifiedTopics :=
       kafkaFilterModifiedTopics (Package := Sample.package);
     getTimestamp := getTimestamp (Package := Sample.package);
     getTimestamp_address := getTimestamp_address (Package := Sample.package);
     flattenKafkaConfig := flattenKafkaConfig (Package := Sample.package);
     flattenKafkaTopics := flattenKafkaTopics (Package := Sample.package);
     kafkaUsersPasswords := kafkaUsersPasswords (Package := Sample.package);
     flattenKafkaUsers := flattenKafkaUsers (Package := Sample.package);
     flattenExternalIpV4AddressSpec :=
       flattenExternalIpV4AddressSpec (Package := Sample.package) |}.

End Scenario.

(** The attributes the read of an address sets, in the order in which it sets
    them. *)
Definition address_attributes {pkg : Package} (address : Address)
    : list (string * Value) :=
  [("folder_id", VString (a_FolderId address));
   ("created_at", getTimestamp_address (a_CreatedAt address));
   ("name", VString (a_Name address));
   ("description", VString (a_Description address));
   ("labels", labels_value (a_Labels address));
   ("external_ipv4_address",
    flattenExternalIpV4AddressSpec (a_ExternalIpv4Address address));
   ("reserved", VBool (a_Reserved address));
   ("used", VBool (a_Used address))].

(** [keeps proj m]: a run of [m] leaves the part [proj] of the resource data
    as it was. *)
Definition keeps {A B} (proj : ResourceData → B) (m : M A) : Prop :=
  ∀ w, proj (w_d (m w).1) = proj (w_d w).

(** * Properties *)

Example sortKafkaTopics_moves_matches_forward :
  Name <$> sortKafkaTopics [mkTopic "x"; mkTopic "a"; mkTopic "b"]
                           [mkTopicSpec "a"; mkTopicSpec "b"]
  = ["a"; "b"; "x"].
Proof. reflexivity. Qed.

Example sortKafkaTopics_beyond_the_slice :
  Name <$> sortKafkaTopics [mkTopic "a"]
                           [mkTopicSpec "b"; mkTopicSpec "a"; mkTopicSpec "c"]
  = ["a"].
Proof. reflexivity. Qed.

Section sort_facts.
Implicit Types (topics : list Topic) (specs : list TopicSpec).

Lemma swap_length {A} (l : list A) i j : length (swap l i j) = length l.
Proof.
  unfold swap. destruct (l !! i), (l !! j); auto.
  by rewrite !length_insert.
Qed.

Lemma swap_perm {A} (l : list A) i j : swap l i j ≡ₚ l.
Proof.
  unfold swap.
  destruct (l !! i) as [x|] eqn:Hi, (l !! j) as [y|] eqn:Hj; auto.
  by apply Permutation_insert_swap.
Qed.

Lemma scan_perm name i j n topics :
  sortKafkaTopics_scan name i j n topics ≡ₚ topics.
Proof.
  revert j. induction n as [|n IH]; intros j; simpl; auto.
  destruct (topics !! j); auto.
  case_decide; auto using swap_perm.
Qed.

Lemma sort_from_perm specs : ∀ i topics,
  sortKafkaTopics_from i specs topics ≡ₚ topics.
Proof.
  induction specs as [|s specs IH]; intros i topics; simpl; auto.
  rewrite IH. apply scan_perm.
Qed.

Lemma swap_lookup {A} (l : list A) i j x y k :
  l !! i = Some x → l !! j = Some y →
  swap l i j !! k =
    if decide (k = i) then Some y else if decide (k = j) then Some x else l !! k.
Proof.
  intros Hi Hj. unfold swap. rewrite Hi, Hj.
  pose proof (lookup_lt_Some _ _ _ Hi). pose proof (lookup_lt_Some _ _ _ Hj).
  repeat case_decide; subst.
  - rewrite list_lookup_insert_eq; [done|by rewrite length_insert].
  - rewrite list_lookup_insert_ne by done. by rewrite list_lookup_insert_eq.
  - by rewrite !list_lookup_insert_ne.
Qed.

(** What one run of the inner loop does: nothing when no later element carries
    the name, else one swap with the first later element that does. *)
Lemma scan_cases name i n : ∀ j topics,
  j + n = length topics →
  (sortKafkaTopics_scan name i j n topics = topics
   ∧ ∀ k t, j ≤ k → topics !! k = Some t → Name t ≠ name)
  ∨ (∃ j0 t0, j ≤ j0 ∧ topics !! j0 = Some t0 ∧ Name t0 = name
       ∧ sortKafkaTopics_scan name i j n topics = swap topics i j0).
Proof.
  induction n as [|n IH]; intros j topics Hlen; simpl.
  - left. split; [done|]. intros k t Hk Ht.
    apply lookup_lt_Some in Ht. lia.
  - destruct (topics !! j) as [tj|] eqn:Hj.
    2:{ apply lookup_ge_None in Hj. lia. }
    case_decide as Hname.
    + right. exists j, tj. by subst.
    + destruct (IH (S j) topics ltac:(lia)) as [[Heq Hno]|(j0 & t0 & ? & ? & ? & ?)].
      * left. split; [done|]. intros k t Hk Ht.
        destruct (decide (k = j)) as [->|]; [congruence|].
        apply (Hno k); [lia|done].
      * right. exists j0, t0. repeat split; auto with lia.
Qed.

(** The positional invariant of the outer loop: when the remaining target
    names are distinct and each still sits at or after [i], the pass puts the
    k-th remaining target name at index [i + k] and leaves the indices below
    [i] alone. *)
Lemma sort_from_positions specs : ∀ i topics,
  NoDup (ts_Name <$> specs) →
  (∀ s, s ∈ specs → ∃ j t, i ≤ j ∧ topics !! j = Some t ∧ Name t = ts_Name s) →
  (∀ k s, specs !! k = Some s →
     ∃ t, sortKafkaTopics_from i specs topics !! (i + k) = Some t
          ∧ Name t = ts_Name s)
  ∧ (∀ k, k < i → sortKafkaTopics_from i specs topics !! k = topics !! k).
Proof.
  induction specs as [|s specs IH]; intros i topics Hnd Hin; simpl.
  { split; [intros k s Hk; by rewrite lookup_nil in Hk|done]. }
  rewrite fmap_cons in Hnd. apply NoDup_cons in Hnd as [Hfresh Hnd].
  destruct (Hin s ltac:(left)) as (js & t_s & Hjs & Hts & Hns).
  assert (i < length topics) as Hi
    by (apply lookup_lt_Some in Hts; lia).
  destruct (lookup_lt_is_Some_2 topics i Hi) as [ti Hti].
  set (topics' := sortKafkaTopics_scan _ _ _ _ _).
  assert (∃ t, topics' !! i = Some t ∧ Name t = ts_Name s
          ∧ (∀ k, k < i → topics' !! k = topics !! k)
          ∧ ∀ s', s' ∈ specs →
              ∃ j t', S i ≤ j ∧ topics' !! j = Some t' ∧ Name t' = ts_Name s')
    as (t & Hi' & Hname & Hlow & Hrest).
  { assert (∀ s', s' ∈ specs → ts_Name s' ≠ ts_Name s) as Hne.
    { intros s' Hs' Heq. apply Hfresh. rewrite <-Heq.
      by apply list_elem_of_fmap_2. }
    subst topics'.
    destruct (scan_cases (ts_Name s) i (length topics - S i) (S i) topics
                ltac:(lia)) as [[-> Hno]|(j0 & t0 & Hj0 & Ht0 & Hn0 & ->)].
    - assert (js = i) as ->.
      { destruct (decide (js = i)); [done|].
        exfalso. apply (Hno js t_s); [lia|done..]. }
      exists t_s. repeat split; [done..|].
      intros s' Hs'. destruct (Hin s' ltac:(by right)) as (j & t' & ? & Ht' & Hn').
      exists j, t'. repeat split; [|done..].
      destruct (decide (j = i)) as [->|]; [|lia].
      exfalso. apply (Hne s' Hs'). congruence.
    - exists t0. rewrite (swap_lookup _ _ _ ti t0) by done.
      rewrite decide_True by done. repeat split; [done|..].
      + intros k Hk. rewrite (swap_lookup _ _ _ ti t0) by done.
        rewrite !decide_False by lia. done.
      + intros s' Hs'.
        destruct (Hin s' ltac:(by right)) as (j & t' & ? & Ht' & Hn').
        destruct (decide (j = i)) as [->|].
        * exists j0, t'. rewrite (swap_lookup _ _ _ ti t0) by done.
          rewrite decide_False by lia. rewrite decide_True by done.
          repeat split; [lia| congruence|done].
        * exists j, t'. rewrite (swap_lookup _ _ _ ti t0) by done.
          rewrite decide_False by done.
          destruct (decide (j = j0)) as [->|]; [|repeat split; [lia|done..]].
          exfalso. apply (Hne s' Hs'). congruence. }
  destruct (IH (S i) topics' Hnd Hrest) as [IHpos IHlow].
  split.
  - intros [|k] s0 Hk; simpl in Hk.
    + injection Hk as <-. exists t. rewrite Nat.add_0_r.
      rewrite IHlow by lia. done.
    + replace (i + S k) with (S i + k) by lia. by apply IHpos.
  - intros k Hk. rewrite IHlow by lia. by apply Hlow.
Qed.

(** With every target name present remotely, the head of the sorted list
    spells the target names, index by index. *)
Lemma sort_take_names topics specs :
  NoDup (ts_Name <$> specs) →
  (∀ s, s ∈ specs → ts_Name s ∈ (Name <$> topics)) →
  Name <$> take (length specs) (sortKafkaTopics topics specs) = ts_Name <$> specs.
Proof.
  intros Hnd Hin.
  destruct (sort_from_positions specs 0 topics Hnd) as [Hpos _].
  { intros s Hs. apply Hin in Hs.
    apply list_elem_of_fmap in Hs as (t & Hn & Ht).
    apply list_elem_of_lookup in Ht as [j Hj].
    exists j, t. repeat split; [lia|done..]. }
  apply list_eq. intros k. rewrite !list_lookup_fmap.
  destruct (specs !! k) as [s|] eqn:Hk; simpl.
  - destruct (Hpos k s Hk) as (t & Ht & Hn). simpl in Ht.
    rewrite lookup_take_lt by (by apply lookup_lt_Some in Hk).
    unfold sortKafkaTopics. rewrite Ht. simpl. by f_equal.
  - apply lookup_ge_None in Hk. rewrite lookup_take_ge by done. done.
Qed.

Lemma filter_all {A} (P : A → Prop) `{∀ x, Decision (P x)} (l : list A) :
  (∀ x, x ∈ l → P x) → filter P l = l.
Proof.
  induction l as [|x l IH]; intros Hall; [done|].
  rewrite filter_cons_True by (apply Hall; left).
  f_equal. apply IH. intros y Hy. apply Hall. by right.
Qed.

Lemma filter_none {A} (P : A → Prop) `{∀ x, Decision (P x)} (l : list A) :
  (∀ x, x ∈ l → ¬ P x) → filter P l = [].
Proof.
  induction l as [|x l IH]; intros Hall; [done|].
  rewrite filter_cons_False by (apply Hall; left).
  apply IH. intros y Hy. apply Hall. by right.
Qed.

End sort_facts.

(** C3, as stated, fails: a target name with no remote topic shifts the
    indices, and the matched elements keep their remote order. *)
Lemma sortKafkaTopics_aligned_counterexample :
  let topics := [mkTopic "a"; mkTopic "b"] in
  let specs := [mkTopicSpec "x"; mkTopicSpec "b"; mkTopicSpec "a"] in
  NoDup (Name <$> topics) ∧ NoDup (ts_Name <$> specs)
  ∧ sortKafkaTopics topics specs = topics
  ∧ ¬ aligned (sortKafkaTopics topics specs) topics specs.
Proof.
  simpl. split_and!.
  - compute_done.
  - compute_done.
  - reflexivity.
  - unfold aligned. vm_compute. discriminate.
Qed.

(** C10: sortKafkaTopics returns a permutation of the remote list it is given,
    whatever the spec list: the same topic values, each as often as before. *)
Theorem sortKafkaTopics_permutation (topics : list Topic) (specs : list TopicSpec) :
  sortKafkaTopics topics specs ≡ₚ topics.
Proof.
  unfold sortKafkaTopics. generalize 0. revert topics.
  induction specs as [|spec specs IH]; intros topics i; simpl.
  - reflexivity.
  - rewrite IH. apply scan_perm.
Qed.

(** ** The field-path mapper *)

Example Replace_leftmost_first : strings_ReplaceAll "aaa" "aa" "b" = "ba".
Proof. reflexivity. Qed.

Example getSuffixVerion_2_8 :
  getSuffixVerion (Sample.data "c1" []) = "2_8".
Proof. reflexivity. Qed.

Example Sprintf_d_topic : Sprintf_d "topic.%d.partitions" 12 = "topic.12.partitions".
Proof. reflexivity. Qed.

Section mapper_facts.
Implicit Types (s old new version path : string).

Lemma prefix_nil s : String.prefix "" s = true.
Proof. by destruct s. Qed.

Lemma suffixVersion_string_map version :
  suffixVersion version = string_map dot_to_underscore version.
Proof.
  unfold suffixVersion, strings_ReplaceAll.
  induction version as [|c v IH]; [done|].
  cbn [Replace_scan string_map String.prefix String.length Nat.sub].
  unfold dot_to_underscore at 1.
  destruct (ascii_dec "." c) as [<-|Hne].
  - rewrite prefix_nil. simpl. by rewrite IH.
  - rewrite IH. f_equal.
    destruct (Ascii.eqb_spec c "."); [by subst|done].
Qed.

Lemma Replace_scan_absent old new s :
  strings_Contains s old = false → Replace_scan old new 0 s = s.
Proof.
  induction s as [|c s IH]; [done|].
  cbn [strings_Contains Replace_scan]. intros H.
  apply orb_false_iff in H as [Hp Hs].
  rewrite Hp. f_equal. by apply IH.
Qed.

Lemma ReplaceAll_absent s old new :
  strings_Contains s old = false → strings_ReplaceAll s old new = s.
Proof.
  intros H. unfold strings_ReplaceAll. destruct old.
  - by destruct s.
  - by apply Replace_scan_absent.
Qed.

Lemma mapped_once_plain path :
  strings_Contains path version_placeholder = false →
  strings_Count path version_placeholder = 0 →
  mapped_once path.
Proof.
  intros Hc Hn version. left. split; [done|].
  by apply ReplaceAll_absent.
Qed.

Lemma mapped_once_kafka_config tail :
  strings_Contains tail version_placeholder = false →
  strings_Count tail version_placeholder = 0 →
  mapped_once ("config_spec.kafka.kafka_config_{version}" +:+ tail).
Proof.
  unfold mapped_once, updateMaskPath, strings_ReplaceAll, strings_Count,
    version_placeholder.
  intros Hc Hn version. right. split.
  - lazy beta iota fix delta [String.append]. cbn.
    rewrite prefix_nil. cbn. by rewrite Hn.
  - exists "config_spec.kafka.kafka_config_", tail. split_and!; [done..|].
    lazy beta iota fix delta [String.append]. cbn.
    rewrite prefix_nil. cbn. rewrite (Replace_scan_absent _ _ tail) by done.
    reflexivity.
Qed.

Lemma mapped_once_topic_config tail :
  strings_Contains tail version_placeholder = false →
  strings_Count tail version_placeholder = 0 →
  mapped_once ("topic_spec.topic_config_{version}" +:+ tail).
Proof.
  unfold mapped_once, updateMaskPath, strings_ReplaceAll, strings_Count,
    version_placeholder.
  intros Hc Hn version. right. split.
  - lazy beta iota fix delta [String.append]. cbn.
    rewrite prefix_nil. cbn. by rewrite Hn.
  - exists "topic_spec.topic_config_", tail. split_and!; [done..|].
    lazy beta iota fix delta [String.append]. cbn.
    rewrite prefix_nil. cbn. rewrite (Replace_scan_absent _ _ tail) by done.
    reflexivity.
Qed.

(** The path an update loop appends for a changed field is the mapped path,
    for the version the resource data holds. *)
Lemma ChangeLoop_step_path d key st field path :
  rd_HasChange d (key field) = true →
  cl_updatePath (ChangeLoop_step d key st (field, path))
  = cl_updatePath st
    ++ [updateMaskPath (as_string (rd_Get d "config.0.version")) path].
Proof. intros Hc. unfold ChangeLoop_step. simpl. by rewrite Hc. Qed.

Lemma mdbKafkaUpdateFieldsMap_mapped_once :
  Forall (λ e, mapped_once e.2) mdbKafkaUpdateFieldsMap_entries.
Proof.
  unfold mdbKafkaUpdateFieldsMap_entries.
  repeat (apply Forall_cons; split;
    [first [ by apply mapped_once_plain
           | by apply (mapped_once_kafka_config _) ] |]).
  apply Forall_nil_2.
Qed.

Lemma mdbKafkaUpdateTopicFieldsMap_mapped_once :
  Forall (λ e, mapped_once e.2) mdbKafkaUpdateTopicFieldsMap_entries.
Proof.
  unfold mdbKafkaUpdateTopicFieldsMap_entries.
  repeat (apply Forall_cons; split;
    [first [ by apply mapped_once_plain
           | by apply (mapped_once_topic_config _) ] |]).
  apply Forall_nil_2.
Qed.
End mapper_facts.

(** C6: for every entry of the two update-field maps whose field has changed
    and every version string the resource data holds, the step of the update
    loops appends the mapped path: the path whose one [{version}] placeholder
    is replaced by getSuffixVerion, the version with each dot turned into an
    underscore (version 2.8 gives 2_8), and a path without placeholder as it
    is.  What is appended depends on the path and the version only. *)
Theorem field_path_mapper_once (d : ResourceData) (key : string → string)
    (st : ChangeLoop) (field path : string) :
  mdbKafkaUpdateFieldsMap !! field = Some path
  ∨ mdbKafkaUpdateTopicFieldsMap !! field = Some path →
  rd_HasChange d (key field) = true →
  let version := as_string (rd_Get d "config.0.version") in
  let appended := cl_updatePath (ChangeLoop_step d key st (field, path)) in
  getSuffixVerion d = string_map dot_to_underscore version
  ∧ (version = "2.8" → getSuffixVerion d = "2_8")
  ∧ ((strings_Count path "{version}" = 0
      ∧ appended = cl_updatePath st ++ [path])
     ∨ (strings_Count path "{version}" = 1
        ∧ ∃ pre post,
            path = pre +:+ "{version}" +:+ post
            ∧ strings_Contains pre "{version}" = false
            ∧ strings_Contains post "{version}" = false
            ∧ appended
              = cl_updatePath st ++ [pre +:+ getSuffixVerion d +:+ post])).
Proof.
  intros Hin Hc version appended.
  split; [apply suffixVersion_string_map|].
  split; [by unfold getSuffixVerion; fold version; intros ->|].
  assert (mapped_once path) as Hpath.
  { destruct Hin as [Hin|Hin]; apply elem_of_list_to_map_2 in Hin.
    - pose proof mdbKafkaUpdateFieldsMap_mapped_once as Hall.
      rewrite Forall_forall in Hall. apply (Hall _ Hin).
    - pose proof mdbKafkaUpdateTopicFieldsMap_mapped_once as Hall.
      rewrite Forall_forall in Hall. apply (Hall _ Hin). }
  subst appended. rewrite (ChangeLoop_step_path d key st field path Hc).
  fold version. unfold getSuffixVerion. fold version.
  destruct (Hpath version) as [[Hcount Hsame]|(Hcount & pre & post & Hsplit)].
  - left. by rewrite Hsame.
  - right. split; [done|]. exists pre, post.
    destruct Hsplit as (? & ? & ? & ->). done.
Qed.

Lemma field_path_mapper_once_witness :
  let field := "config.0.kafka.0.kafka_config.0.log_preallocate" in
  let path := "config_spec.kafka.kafka_config_{version}.log_preallocate" in
  let d := Sample.data "c1" [field] in
  let appended :=
    cl_updatePath (ChangeLoop_step d id ChangeLoop_start (field, path)) in
  mdbKafkaUpdateFieldsMap !! field = Some path
  ∧ getSuffixVerion d = string_map dot_to_underscore "2.8"
  ∧ ("2.8" = "2.8" → getSuffixVerion d = "2_8")
  ∧ (strings_Count path "{version}" = 0 ∧ appended = [] ++ [path]
     ∨ strings_Count path "{version}" = 1
       ∧ ∃ pre post,
           path = pre +:+ "{version}" +:+ post
           ∧ strings_Contains pre "{version}" = false
           ∧ strings_Contains post "{version}" = false
           ∧ appended = [] ++ [pre +:+ getSuffixVerion d +:+ post]).
Proof.
  intros field path d appended.
  assert (mdbKafkaUpdateFieldsMap !! field = Some path) as Hin
    by (vm_compute; reflexivity).
  split; [exact Hin|].
  apply (field_path_mapper_once d id ChangeLoop_start field path).
  - left. exact Hin.
  - reflexivity.
Defined.

(** ** The topic differ *)

Section differ_facts.
Implicit Types (currTopics : list Topic) (targetTopics : list TopicSpec).

Lemma toDelete_names currTopics targetTopics n :
  n ∈ (Differ.kafkaTopicsDiff currTopics targetTopics).1
  ↔ (n ∈ (Name <$> currTopics)) ∧ (n ∉ (ts_Name <$> targetTopics)).
Proof. simpl. rewrite list_elem_of_filter. tauto. Qed.

Lemma toAdd_names currTopics targetTopics n :
  n ∈ (ts_Name <$> (Differ.kafkaTopicsDiff currTopics targetTopics).2)
  ↔ (n ∈ (ts_Name <$> targetTopics)) ∧ (n ∉ (Name <$> currTopics)).
Proof.
  simpl. split.
  - intros (spec & -> & Hspec)%list_elem_of_fmap.
    apply list_elem_of_filter in Hspec as [Hno Hin].
    split; [by apply list_elem_of_fmap_2|done].
  - intros [(spec & -> & Hin)%list_elem_of_fmap Hno].
    apply list_elem_of_fmap_2. by apply list_elem_of_filter.
Qed.

Lemma modified_names (topics : list IndexedTopicSpec) (toDelete toAdd : list string) n :
  n ∈ ((λ t, ts_Name (topic t)) <$> Differ.kafkaFilterModifiedTopics topics toDelete toAdd)
  ↔ (n ∈ ((λ t, ts_Name (topic t)) <$> topics)) ∧ (n ∉ toDelete) ∧ (n ∉ toAdd).
Proof.
  unfold Differ.kafkaFilterModifiedTopics. split.
  - intros (t & -> & Ht)%list_elem_of_fmap.
    apply list_elem_of_filter in Ht as [[Hd Ha] Hin].
    split; [|done]. by apply (list_elem_of_fmap_2 (λ t, ts_Name (topic t))).
  - intros ((t & -> & Hin)%list_elem_of_fmap & Hd & Ha).
    apply (list_elem_of_fmap_2 (λ t, ts_Name (topic t))).
    by apply list_elem_of_filter.
Qed.

Lemma sorted_names currTopics targetTopics n :
  n ∈ (Name <$> sortKafkaTopics currTopics targetTopics)
  ↔ n ∈ (Name <$> currTopics).
Proof.
  assert (Name <$> sortKafkaTopics currTopics targetTopics ≡ₚ Name <$> currTopics)
    as Hp by apply fmap_Permutation, sort_from_perm.
  by rewrite Hp.
Qed.
End differ_facts.

(** ** Reasoning about runs *)

Section run_facts.
Context {A B : Type}.

Lemma emits_bind (m : M A) (f : A → M B) P Q (R : Outcome B → list Event → Prop) :
  emits m P →
  (∀ a, emits (f a) (Q a)) →
  (∀ a evs1 out evs2, P (Return a) evs1 → Q a out evs2 → R out (evs1 ++ evs2)) →
  (∀ e evs1, P (Raise e) evs1 → R (Raise e) evs1) →
  (∀ evs1, P OutOfFuel evs1 → R OutOfFuel evs1) →
  emits (m ≫= f) R.
Proof.
  intros Hm Hf Hret Hraise Hfuel w. unfold mbind, M_bind.
  destruct (Hm w) as (evs1 & Ht1 & HP).
  destruct (m w) as [w1 [a|e|]]; simpl in *.
  - destruct (Hf a w1) as (evs2 & Ht2 & HQ).
    exists (evs1 ++ evs2). rewrite Ht2, Ht1, <-app_assoc. split; [done|].
    by eapply Hret.
  - exists evs1. split; [done|]. by apply Hraise.
  - exists evs1. split; [done|]. by apply Hfuel.
Qed.

Lemma emits_weaken (m : M A) (P Q : Outcome A → list Event → Prop) :
  emits m P → (∀ out evs, P out evs → Q out evs) → emits m Q.
Proof.
  intros Hm HPQ w. destruct (Hm w) as (evs & Ht & HP). exists evs. auto.
Qed.

Lemma silent_emits (m : M A) :
  silent m → emits m (λ _ evs, evs = []).
Proof. intros Hm w. exists []. by rewrite app_nil_r, Hm. Qed.

Lemma silent_bind (m : M A) (f : A → M B) :
  silent m → (∀ a, silent (f a)) → silent (m ≫= f).
Proof.
  intros Hm Hf w. unfold mbind, M_bind. specialize (Hm w).
  destruct (m w) as [w1 [a|e|]]; simpl in *; [|done..].
  by rewrite Hf.
Qed.

End run_facts.

Section silent_facts.
Context {A : Type}.

Lemma silent_ret (a : A) : silent (mret a).
Proof. done. Qed.

Lemma silent_raise (e : error) : silent (raise (A := A) e).
Proof. done. Qed.

Lemma silent_get_d : silent get_d.
Proof. done. Qed.

Lemma silent_get_trace : silent get_trace.
Proof. done. Qed.

Lemma silent_modify_d f : silent (modify_d f).
Proof. done. Qed.

Lemma silent_check (r : error + A) : silent (check r).
Proof. by destruct r. Qed.

Lemma silent_check_with wrap (r : error + A) : silent (check_with wrap r).
Proof. by destruct r. Qed.

Lemma silent_fail_if wrap r : silent (fail_if wrap r).
Proof. by destruct r. Qed.

Lemma silent_range_map {lib : Library} m : silent (range_map m).
Proof. done. Qed.

Lemma silent_d_Set k v : silent (d_Set k v).
Proof.
  apply silent_bind; [apply silent_get_d|]. intros d.
  destruct (rd_SetError d k v); [done|].
  apply silent_bind; [apply silent_modify_d|done].
Qed.

Lemma silent_d_Set_check k v : silent (d_Set_check k v).
Proof.
  apply silent_bind; [apply silent_d_Set|]. by intros [err|].
Qed.

Lemma silent_for_each (l : list A) (body : A → M unit) :
  (∀ x, x ∈ l → silent (body x)) → silent (for_each l body).
Proof.
  induction l as [|x l IH]; intros Hbody; [done|]. simpl.
  apply silent_bind; [apply Hbody; left|].
  intros _. apply IH. intros y Hy. apply Hbody. by right.
Qed.

Lemma silent_handleNotFoundError err resourceName :
  silent (handleNotFoundError err resourceName).
Proof.
  destruct err as [code desc|text]; simpl; [|done].
  case_decide; done.
Qed.
End silent_facts.

Create HintDb silent.

#[local] Hint Resolve silent_ret silent_raise silent_get_d silent_get_trace
  silent_modify_d silent_check silent_check_with silent_fail_if
  silent_range_map silent_d_Set silent_d_Set_check
  silent_handleNotFoundError : silent.

(** ** Read on a remote not-found *)

Section read_facts.
Context {pkg : Package} (config : Config).

Lemma handleNotFoundError_not_found desc resourceName w :
  handleNotFoundError (StatusError codes_NotFound desc) resourceName w
  = (d_SetId "" w).
Proof. unfold handleNotFoundError. by rewrite decide_True. Qed.

Lemma kafka_read_not_found fuel w desc :
  sdk_Cluster_Get (sdk config) (w_trace w) (rd_Id (w_d w))
    = inl (StatusError codes_NotFound desc) →
  ∃ w', resourceYandexMDBKafkaClusterRead config fuel w = (w', Return ())
        ∧ rd_Id (w_d w') = ""
        ∧ w_trace w' = w_trace w ++ [Sent (Cluster_Get (rd_Id (w_d w)))].
Proof.
  intros Hget. unfold resourceYandexMDBKafkaClusterRead, call.
  unfold mbind, M_bind, get_d, get_trace, emit, mret, M_ret. simpl.
  rewrite Hget. rewrite handleNotFoundError_not_found.
  eexists. split; [reflexivity|]. by simpl.
Qed.

Lemma address_read_not_found w desc :
  sdk_Address_Get (sdk config) (w_trace w) (rd_Id (w_d w))
    = inl (StatusError codes_NotFound desc) →
  ∃ w', resourceYandexVPCAddressRead config w = (w', Return ())
        ∧ rd_Id (w_d w') = ""
        ∧ w_trace w' = w_trace w ++ [Sent (Address_Get (rd_Id (w_d w)))].
Proof.
  intros Hget.
  unfold resourceYandexVPCAddressRead, yandexVPCAddressRead,
    handleAddressNotFoundError, call.
  unfold mbind, M_bind, get_d, get_trace, emit, mret, M_ret. simpl.
  rewrite Hget. rewrite handleNotFoundError_not_found.
  eexists. split; [reflexivity|]. by simpl.
Qed.
End read_facts.

(** C7: when the fetch by identity answers not-found, Read of the Kafka cluster
    and Read of the VPC address return without error, with the identity of the
    resource cleared, and make no further remote call. *)
Theorem read_not_found_signals_removal {pkg : Package}
    (config : Config) (fuel : nat) (w : World) (desc : string) :
  (sdk_Cluster_Get (sdk config) (w_trace w) (rd_Id (w_d w))
     = inl (StatusError codes_NotFound desc) →
   ∃ w', resourceYandexMDBKafkaClusterRead config fuel w = (w', Return ())
         ∧ rd_Id (w_d w') = ""
         ∧ w_trace w' = w_trace w ++ [Sent (Cluster_Get (rd_Id (w_d w)))])
  ∧ (sdk_Address_Get (sdk config) (w_trace w) (rd_Id (w_d w))
       = inl (StatusError codes_NotFound desc) →
     ∃ w', resourceYandexVPCAddressRead config w = (w', Return ())
           ∧ rd_Id (w_d w') = ""
           ∧ w_trace w' = w_trace w ++ [Sent (Address_Get (rd_Id (w_d w)))]).
Proof.
  split; [apply kafka_read_not_found|apply address_read_not_found].
Qed.

Lemma read_not_found_signals_removal_witness :
  let config := {| sdk := Sample.sdk_gone |} in
  let w := Sample.world (Sample.data "c1" []) in
  (∃ w', resourceYandexMDBKafkaClusterRead (pkg := Sample.package)
           config 1 w = (w', Return ())
         ∧ rd_Id (w_d w') = ""
         ∧ w_trace w' = w_trace w ++ [Sent (Cluster_Get (rd_Id (w_d w)))])
  ∧ (∃ w', resourceYandexVPCAddressRead (pkg := Sample.package) config w
             = (w', Return ())
           ∧ rd_Id (w_d w') = ""
           ∧ w_trace w' = w_trace w ++ [Sent (Address_Get (rd_Id (w_d w)))]).
Proof.
  intros config w.
  destruct (read_not_found_signals_removal (pkg := Sample.package) config 1 w "cluster not found")
    as [Hkafka _].
  destruct (read_not_found_signals_removal (pkg := Sample.package) config 1 w "address not found")
    as [_ Haddress].
  split; [apply Hkafka|apply Haddress]; reflexivity.
Defined.

(** ** Update without a changed field *)

Section extends_facts.
Context {A B : Type}.

Lemma extends_bind (m : M A) (f : A → M B) :
  extends m → (∀ a, extends (f a)) → extends (m ≫= f).
Proof.
  intros Hm Hf.
  eapply (emits_bind m f (λ _ _, True) (λ _ _ _, True)); done.
Qed.

Lemma silent_extends (m : M A) : silent m → extends m.
Proof.
  intros Hm. eapply emits_weaken; [by apply silent_emits|done].
Qed.

Lemma extends_call (answer : list Event → error + A) r : extends (call answer r).
Proof. intros w. by exists [Sent r]. Qed.

Lemma extends_op_Wait config r : extends (op_Wait config r).
Proof. intros w. by eexists [Waited r _]. Qed.
End extends_facts.

Section no_change_facts.
Context {pkg : Package} {lib : Library} (config : Config).

Lemma ChangeLoop_no_change d key entries : ∀ st,
  (∀ e, e ∈ entries → rd_HasChange d (key e.1) = false) →
  cl_updatePath (foldl (ChangeLoop_step d key) st entries) = cl_updatePath st.
Proof.
  induction entries as [|e entries IH]; intros st Hno; [done|].
  simpl. rewrite IH by (intros e' He'; apply Hno; by right).
  unfold ChangeLoop_step. by rewrite (Hno e) by left.
Qed.

Lemma updateKafkaClusterParams_no_change w :
  (∀ e, e ∈ range_order (w_ranges w) mdbKafkaUpdateFieldsMap →
        rd_HasChange (w_d w) e.1 = false) →
  w_trace (updateKafkaClusterParams config w).1 = w_trace w.
Proof.
  intros Hno. unfold updateKafkaClusterParams.
  unfold mbind, M_bind, get_d. simpl.
  destruct (kafkaClusterUpdateRequest (w_d w)) as [err|req]; [done|].
  simpl. rewrite (ChangeLoop_no_change _ id) by done. done.
Qed.

Lemma extends_yandexVPCAddressRead id : extends (yandexVPCAddressRead config id).
Proof.
  unfold yandexVPCAddressRead.
  apply extends_bind; [apply extends_call|]. intros [err|address].
  - apply silent_extends. unfold handleAddressNotFoundError.
    auto with silent.
  - apply silent_extends.
    repeat (apply silent_bind; [auto with silent|intros _]).
    auto with silent.
Qed.

Lemma resourceYandexVPCAddressUpdate_no_change w :
  rd_HasChange (w_d w) "labels" = false →
  rd_HasChange (w_d w) "name" = false →
  rd_HasChange (w_d w) "description" = false →
  ∃ rest,
    w_trace (resourceYandexVPCAddressUpdate config w).1
    = w_trace w
      ++ Sent (Address_Update
                 {| uar_AddressId := rd_Id (w_d w); uar_UpdateMask := [];
                    uar_Name := ""; uar_Description := ""; uar_Labels := [] |})
      :: rest.
Proof.
  intros Hl Hn Hd. unfold resourceYandexVPCAddressUpdate.
  unfold mbind at 1 2 3 4, M_bind, d_Partial, modify_d, get_d. simpl.
  rewrite Hl, Hn, Hd. simpl.
  set (req := {| uar_AddressId := _ |}).
  set (w1 := {| w_trace := _ |}).
  match goal with
  | |- ∃ rest, w_trace (?k w1).1 = _ => assert (extends k) as Hk
  end.
  { apply extends_bind; [apply silent_extends; auto with silent|]. intros _.
    apply extends_bind; [apply extends_op_Wait|]. intros err.
    apply extends_bind; [apply silent_extends; auto with silent|]. intros _.
    apply extends_bind; [by apply silent_extends|]. intros _.
    apply extends_bind; [apply silent_extends, silent_get_d|]. intros d.
    apply extends_yandexVPCAddressRead. }
  destruct (Hk w1) as (evs & Ht & _). exists evs.
  rewrite Ht. subst w1. simpl. by rewrite <-app_assoc.
Qed.
End no_change_facts.

(** C2 (amended): when no field of the update-field map has changed,
    updateKafkaClusterParams returns without any remote call.  The Update of
    the VPC address has no such guard: with none of its three fields changed
    it still issues its update call, with an empty update mask. *)
Theorem update_without_change {pkg : Package} {lib : Library}
    (config : Config) (w : World) :
  (range_order (w_ranges w) mdbKafkaUpdateFieldsMap
     ≡ₚ map_to_list mdbKafkaUpdateFieldsMap →
   (∀ field path, mdbKafkaUpdateFieldsMap !! field = Some path →
                  rd_HasChange (w_d w) field = false) →
   w_trace (updateKafkaClusterParams config w).1 = w_trace w)
  ∧ (rd_HasChange (w_d w) "labels" = false →
     rd_HasChange (w_d w) "name" = false →
     rd_HasChange (w_d w) "description" = false →
     ∃ rest,
       w_trace (resourceYandexVPCAddressUpdate config w).1
       = w_trace w
         ++ Sent (Address_Update
                    {| uar_AddressId := rd_Id (w_d w); uar_UpdateMask := [];
                       uar_Name := ""; uar_Description := ""; uar_Labels := [] |})
         :: rest).
Proof.
  split.
  - intros Hperm Hno. apply updateKafkaClusterParams_no_change.
    intros [field path] He. rewrite Hperm in He.
    apply elem_of_map_to_list in He. by apply (Hno field path).
  - apply resourceYandexVPCAddressUpdate_no_change.
Qed.

Lemma update_without_change_witness :
  let config := {| sdk := Sample.sdk_ok |} in
  let w := Sample.world (Sample.data "c1" []) in
  w_trace (updateKafkaClusterParams (pkg := Sample.package)
             (lib := Sample.library) config w).1 = w_trace w
  ∧ ∃ rest,
      w_trace (resourceYandexVPCAddressUpdate (pkg := Sample.package) config w).1
      = w_trace w
        ++ Sent (Address_Update
                   {| uar_AddressId := rd_Id (w_d w); uar_UpdateMask := [];
                      uar_Name := ""; uar_Description := ""; uar_Labels := [] |})
        :: rest.
Proof.
  intros config w.
  destruct (update_without_change (pkg := Sample.package)
              (lib := Sample.library) config w) as [Hkafka Haddress].
  split.
  - apply Hkafka.
    + compute_done.
    + intros field path _. reflexivity.
  - apply Haddress; reflexivity.
Defined.

(** C2, as stated, fails for the VPC address: with no field changed, Update
    still sends an update request (with an empty mask) and waits for it. *)
Lemma update_without_change_counterexample :
  let config := {| sdk := Sample.sdk_ok |} in
  let d := Sample.data "a1" [] in
  (∀ key, rd_HasChange d key = false)
  ∧ w_trace (resourceYandexVPCAddressUpdate (pkg := Sample.package) config
               (Sample.world d)).1
    = let req := Address_Update
                   {| uar_AddressId := "a1"; uar_UpdateMask := [];
                      uar_Name := ""; uar_Description := ""; uar_Labels := [] |} in
      [Sent req; Waited req None; Sent (Address_Get "a1")].
Proof.
  split; [by intros key|]. vm_compute. reflexivity.
Qed.

(** ** Partial-commit markers *)

Section marker_facts.
Context {pkg : Package} {lib : Library} (config : Config).

(** Every closure collected by an update loop is the same function of the loop
    variable, and there is one per update-mask path. *)
Lemma ChangeLoop_closures d key entries : ∀ st,
  Forall (λ f, f = (λ field, d_SetPartial field)) (cl_onDone st) →
  length (cl_onDone st) = length (cl_updatePath st) →
  let st' := foldl (ChangeLoop_step d key) st entries in
  Forall (λ f, f = (λ field, d_SetPartial field)) (cl_onDone st')
  ∧ length (cl_onDone st') = length (cl_updatePath st').
Proof.
  induction entries as [|e entries IH]; intros st Hall Hlen; [done|].
  simpl. apply IH; unfold ChangeLoop_step; destruct (rd_HasChange d (key e.1));
    simpl; try done.
  - apply Forall_app. split; [done|]. by apply Forall_singleton.
  - rewrite !length_app. simpl. lia.
Qed.

(** When the loop is over, its variable holds the last key visited. *)
Lemma ChangeLoop_field d key entries e st :
  cl_field (foldl (ChangeLoop_step d key) st (entries ++ [e])) = e.1.
Proof.
  rewrite foldl_snoc. unfold ChangeLoop_step.
  by destruct (rd_HasChange d (key e.1)).
Qed.

Lemma for_each_SetPartial (fs : list (string → M unit)) (k : string) : ∀ w,
  Forall (λ f, f = (λ field, d_SetPartial field)) fs →
  for_each fs (λ f, f k) w
  = ({| w_trace := w_trace w;
        w_d := {| rd_Id := rd_Id (w_d w); rd_Get := rd_Get (w_d w);
                  rd_GetOk := rd_GetOk (w_d w);
                  rd_HasChange := rd_HasChange (w_d w);
                  rd_GetChange := rd_GetChange (w_d w);
                  rd_SetError := rd_SetError (w_d w);
                  rd_partial := rd_partial (w_d w);
                  rd_partials := rd_partials (w_d w) ++ replicate (length fs) k |};
        w_ranges := w_ranges w |}, Return ()).
Proof.
  induction fs as [|f fs IH]; intros w Hall.
  - simpl. unfold mret, M_ret. destruct w as [t [] r]. simpl.
    by rewrite app_nil_r.
  - apply Forall_cons in Hall as [-> Hall]. simpl.
    unfold mbind, M_bind. simpl. rewrite IH by done. simpl.
    by rewrite <-app_assoc.
Qed.

(** The markers of updateKafkaClusterParams, whatever the order in which the
    map is visited: on success one marker per changed field, each naming the
    key visited last; on any failure none. *)
Lemma updateKafkaClusterParams_markers w :
  let st := foldl (ChangeLoop_step (w_d w) id) ChangeLoop_start
                  (range_order (w_ranges w) mdbKafkaUpdateFieldsMap) in
  markers_added (updateKafkaClusterParams config) w
    (match (updateKafkaClusterParams config w).2 with
     | Return _ => replicate (length (cl_updatePath st)) (cl_field st)
     | _ => []
     end).
Proof.
  unfold markers_added, updateKafkaClusterParams.
  unfold mbind, M_bind, get_d, WrapOperation, op_Wait, get_trace, emit. simpl.
  destruct (kafkaClusterUpdateRequest (w_d w)) as [err|req]; simpl;
    [by rewrite app_nil_r|].
  destruct (ChangeLoop_closures (w_d w) id
              (range_order (w_ranges w) mdbKafkaUpdateFieldsMap)
              ChangeLoop_start) as [Hall Hlen]; [by apply Forall_nil|done|].
  set (st := foldl _ _ _) in *.
  case_decide as Hzero; simpl.
  { rewrite Hzero. simpl. by rewrite app_nil_r. }
  destruct (sdk_Operation _ _ _); simpl; [by rewrite app_nil_r|].
  destruct (sdk_Wait _ _ _); simpl; [by rewrite app_nil_r|].
  unfold run_onDone. rewrite for_each_SetPartial by done. simpl.
  by rewrite Hlen.
Qed.

(** The same for updateKafkaTopic: the markers name a key of the table, with
    its [%d] in it, never the field [fd] that was asked about. *)
Lemma updateKafkaTopic_markers topicName topicSpec version w :
  let st := foldl (ChangeLoop_step (w_d w)
                     (λ field, Sprintf_d field (index topicSpec)))
                  ChangeLoop_start
                  (range_order (w_ranges w) mdbKafkaUpdateTopicFieldsMap) in
  markers_added (updateKafkaTopic config topicName topicSpec version) w
    (match (updateKafkaTopic config topicName topicSpec version w).2 with
     | Return _ => replicate (length (cl_updatePath st)) (cl_field st)
     | _ => []
     end).
Proof.
  unfold markers_added, updateKafkaTopic.
  unfold mbind, M_bind, get_d, WrapOperation, op_Wait, get_trace, emit. simpl.
  destruct (ChangeLoop_closures (w_d w)
              (λ field, Sprintf_d field (index topicSpec))
              (range_order (w_ranges w) mdbKafkaUpdateTopicFieldsMap)
              ChangeLoop_start) as [Hall Hlen]; [by apply Forall_nil|done|].
  set (st := foldl _ _ _) in *.
  case_decide as Hzero; simpl.
  { rewrite Hzero. simpl. by rewrite app_nil_r. }
  destruct (sdk_Operation _ _ _); simpl; [by rewrite app_nil_r|].
  destruct (sdk_Wait _ _ _); simpl; [by rewrite app_nil_r|].
  unfold run_onDone. rewrite for_each_SetPartial by done. simpl.
  by rewrite Hlen.
Qed.
End marker_facts.

(** C9, evaluated where it fails: with the fields name and description
    changed, and the map visited in the order of its literal, a successful
    updateKafkaClusterParams sets two markers, both for the key visited last,
    and none for name or description; a successful updateKafkaTopic on topic 0
    with its partitions changed sets a marker for the table key
    topic.%d.topic_config.0.preallocate, and none for topic.0.partitions. *)
Theorem partial_markers_miss_changed_fields :
  let config := {| sdk := Sample.sdk_ok |} in
  let run_params :=
    updateKafkaClusterParams (pkg := Sample.package) (lib := Sample.library)
      config (Sample.world (Sample.data "c1" ["name"; "description"])) in
  let run_topic :=
    updateKafkaTopic (lib := Sample.library) config "events"
      {| index := 0; topic := mkTopicSpec "events" |} "2.8"
      (Sample.world (Sample.data "c1" ["topic.0.partitions"])) in
  run_params.2 = Return ()
  ∧ rd_partials (w_d run_params.1)
    = ["config.0.zookeeper.0.resources.0.disk_size";
       "config.0.zookeeper.0.resources.0.disk_size"]
  ∧ run_topic.2 = Return ()
  ∧ (∃ req, w_trace run_topic.1 = [Sent (Topic_Update req);
                                    Waited (Topic_Update req) None]
            ∧ utr_UpdateMask req = Some ["topic_spec.partitions"])
  ∧ rd_partials (w_d run_topic.1) = ["topic.%d.topic_config.0.preallocate"].
Proof.
  intros config run_params run_topic.
  split; [vm_compute; reflexivity|].
  split; [vm_compute; reflexivity|].
  split; [vm_compute; reflexivity|].
  split; [|vm_compute; reflexivity].
  eexists. split; [vm_compute; reflexivity|]. reflexivity.
Qed.

(** ** The order of the remote calls *)

Section order_facts.
Context (phase : Request → option nat).

Lemma Completed_weaken p q evs p' q' :
  Completed phase p q evs → p' ≤ p → q ≤ q' → Completed phase p' q' evs.
Proof.
  intros H. revert p' q'. induction H as [p q Hpq|q r rest Hr H IH|p q q' r rest Hr Hq Hpq H IH];
    intros p' q'' Hp Hq'.
  - apply comp_end. lia.
  - assert (p' = 0) as -> by lia. apply comp_answered; [done|]. by apply IH.
  - eapply comp_awaited; [done..|lia|]. by apply IH.
Qed.

Lemma Sequential_weaken p evs p' :
  Sequential phase p evs → p' ≤ p → Sequential phase p' evs.
Proof.
  intros H Hp. destruct H.
  - apply seq_end.
  - assert (p' = 0) as -> by lia. by apply seq_answered.
  - eapply seq_refused; [done..|lia].
  - eapply seq_wait_failed; [done..|lia].
  - eapply seq_awaited; [done..|lia|done].
Qed.

Lemma Completed_Sequential_app p q evs1 evs2 :
  Completed phase p q evs1 → Sequential phase q evs2 →
  Sequential phase p (evs1 ++ evs2).
Proof.
  induction 1 as [p q Hpq|q r rest Hr H IH|p q q' r rest Hr Hq Hpq H IH];
    intros Hseq; simpl.
  - by eapply Sequential_weaken.
  - apply seq_answered; [done|]. by apply IH.
  - eapply seq_awaited; [done..|]. by apply IH.
Qed.

Lemma Completed_app p q r evs1 evs2 :
  Completed phase p q evs1 → Completed phase q r evs2 →
  Completed phase p r (evs1 ++ evs2).
Proof.
  induction 1 as [p q Hpq|q r0 rest Hr H IH|p q q' r0 rest Hr Hq Hpq H IH];
    intros Hc; simpl.
  - eapply Completed_weaken; [done|done|lia].
  - apply comp_answered; [done|]. by apply IH.
  - eapply comp_awaited; [done..|]. by apply IH.
Qed.

Lemma Completed_Sequential p q evs :
  Completed phase p q evs → Sequential phase p evs.
Proof.
  intros H. rewrite <-(app_nil_r evs).
  eapply Completed_Sequential_app; [done|apply seq_end].
Qed.

Lemma Phase_Sequential {A} p q (out : Outcome A) evs :
  Phase phase p q out evs → Sequential phase p evs.
Proof. destruct out; simpl; eauto using Completed_Sequential. Qed.

(** Steps compose along the phases. *)
Lemma emits_Phase_bind {A B} (m : M A) (f : A → M B) p q r :
  emits m (Phase phase p q) →
  (∀ a, emits (f a) (Phase phase q r)) →
  emits (m ≫= f) (Phase phase p r).
Proof.
  intros Hm Hf.
  eapply (emits_bind m f (Phase phase p q) (λ _, Phase phase q r)); [done..| | |].
  - intros a evs1 [b|e|] evs2 H1 H2; simpl in *;
      eauto using Completed_app, Completed_Sequential_app.
  - by intros e evs1 H1.
  - by intros evs1 H1.
Qed.

Lemma emits_Phase_weaken {A} (m : M A) p q p' q' :
  emits m (Phase phase p q) → p' ≤ p → q ≤ q' →
  emits m (Phase phase p' q').
Proof.
  intros Hm Hp Hq. eapply emits_weaken; [done|].
  intros [a|e|] evs H; simpl in *;
    eauto using Completed_weaken, Sequential_weaken.
Qed.

Lemma silent_Phase {A} (m : M A) p : silent m → emits m (Phase phase p p).
Proof.
  intros Hm. eapply emits_weaken; [by apply silent_emits|].
  intros [a|e|] evs ->; simpl; by constructor.
Qed.

Lemma emits_Phase_for_each {A} (l : list A) (body : A → M unit) p :
  (∀ x, emits (body x) (Phase phase p p)) →
  emits (for_each l body) (Phase phase p p).
Proof.
  intros Hbody. induction l as [|x l IH]; simpl.
  - by apply silent_Phase.
  - eapply emits_Phase_bind; [apply Hbody|]. by intros _.
Qed.

(** The request of an operation and the wait for it, then the rest of the
    step. *)
Lemma emits_operation_then {B} config r q q' wrap1 wrap2 (k : M B) :
  phase r = Some q → 0 < q →
  emits k (Phase phase q q') →
  emits (err ← WrapOperation config r;
         fail_if wrap1 err ;;
         err ← op_Wait config r;
         fail_if wrap2 err ;;
         k)
        (Phase phase q q').
Proof.
  intros Hr Hq Hk w.
  unfold mbind, M_bind, WrapOperation, op_Wait, get_trace, emit, mret, M_ret.
  simpl.
  destruct (sdk_Operation _ _ _) as [err|]; simpl.
  { exists [Sent r]. split; [done|]. by eapply seq_refused. }
  destruct (sdk_Wait _ _ _) as [err|]; simpl.
  { exists [Sent r; Waited r (Some err)]. rewrite <-app_assoc.
    split; [done|]. by eapply seq_wait_failed. }
  match goal with |- context [k ?w2] => destruct (Hk w2) as (evs & Ht & HP) end.
  revert Ht HP.
  match goal with |- context [k ?w2] => destruct (k w2) as [w3 out] end.
  simpl. intros Ht HP. exists (Sent r :: Waited r None :: evs).
  split.
  - destruct out; simpl; rewrite Ht, <-!app_assoc; done.
  - destruct out; simpl in *.
    + by eapply comp_awaited.
    + by eapply seq_awaited.
    + by eapply seq_awaited.
Qed.

Lemma emits_operation config r q wrap1 wrap2 :
  phase r = Some q → 0 < q →
  emits (err ← WrapOperation config r;
         fail_if wrap1 err ;;
         err ← op_Wait config r;
         fail_if wrap2 err)
        (Phase phase q q).
Proof.
  intros Hr Hq w.
  unfold mbind, M_bind, WrapOperation, op_Wait, get_trace, emit, mret, M_ret.
  simpl.
  destruct (sdk_Operation _ _ _) as [err|]; simpl.
  { exists [Sent r]. split; [done|]. by eapply seq_refused. }
  destruct (sdk_Wait _ _ _) as [err|]; simpl.
  - exists [Sent r; Waited r (Some err)]. rewrite <-app_assoc.
    split; [done|]. by eapply seq_wait_failed.
  - exists [Sent r; Waited r None]. rewrite <-app_assoc.
    split; [done|]. eapply comp_awaited; [done..|]. by apply comp_end.
Qed.
End order_facts.

(** A step that makes no remote call, inside a phase. *)
Ltac silent_step :=
  eapply emits_Phase_bind; [apply silent_Phase; auto with silent|].

Section reconciliation_order.
Context {pkg : Package} {lib : Library} (config : Config).

Lemma listKafkaTopics_pages_Phase fuel : ∀ id pageToken ret,
  emits (listKafkaTopics_pages config fuel id pageToken ret)
        (Phase topic_phase 0 0).
Proof.
  induction fuel as [|fuel IH]; intros id pageToken ret; simpl.
  { by apply silent_Phase. }
  eapply emits_Phase_bind with (q := 0).
  { intros w. exists [Sent (Topic_List id pageToken)]. split; [done|].
    simpl. apply comp_answered; [done|]. by apply comp_end. }
  intros resp. silent_step.
  intros [topics next]. case_decide; [by apply silent_Phase|apply IH].
Qed.

Lemma listKafkaUsers_pages_Phase fuel : ∀ id pageToken ret,
  emits (listKafkaUsers_pages config fuel id pageToken ret)
        (Phase user_phase 0 0).
Proof.
  induction fuel as [|fuel IH]; intros id pageToken ret; simpl.
  { by apply silent_Phase. }
  eapply emits_Phase_bind with (q := 0).
  { intros w. exists [Sent (User_List id pageToken)]. split; [done|].
    simpl. apply comp_answered; [done|]. by apply comp_end. }
  intros resp. silent_step.
  intros [users next]. case_decide; [by apply silent_Phase|apply IH].
Qed.

Lemma deleteKafkaTopic_Phase topicName :
  emits (deleteKafkaTopic config topicName) (Phase topic_phase 1 1).
Proof.
  unfold deleteKafkaTopic.
  silent_step.
  intros d. cbv zeta. apply emits_operation; [done|lia].
Qed.

Lemma createKafkaTopic_Phase topicSpec :
  emits (createKafkaTopic config topicSpec) (Phase topic_phase 2 2).
Proof.
  unfold createKafkaTopic.
  silent_step.
  intros d. cbv zeta. apply emits_operation; [done|lia].
Qed.

Lemma silent_run_onDone d key entries :
  silent (run_onDone (foldl (ChangeLoop_step d key) ChangeLoop_start entries)).
Proof.
  destruct (ChangeLoop_closures d key entries ChangeLoop_start)
    as [Hall _]; [by apply Forall_nil|done|].
  intros w. unfold run_onDone. by rewrite for_each_SetPartial.
Qed.

Lemma updateKafkaTopic_Phase topicName topicSpec version :
  emits (updateKafkaTopic config topicName topicSpec version)
        (Phase topic_phase 3 3).
Proof.
  unfold updateKafkaTopic.
  silent_step. intros d.
  silent_step.
  intros entries. cbv zeta. case_decide; [by apply silent_Phase|].
  apply emits_operation_then; [done|lia|].
  apply silent_Phase, silent_run_onDone.
Qed.

(** The loop that creates the topics to add. *)
Lemma createKafkaTopics_Phase toAddSpecs : ∀ toAdd,
  emits (createKafkaTopics config toAddSpecs toAdd) (Phase topic_phase 2 2).
Proof.
  induction toAddSpecs as [|spec rest IH]; intros toAdd; simpl.
  { by apply silent_Phase. }
  intros w. unfold mbind, M_bind, try.
  destruct (createKafkaTopic_Phase spec w) as (evs & Ht & HP).
  destruct (createKafkaTopic config spec w) as [w1 [[]|e|]]; simpl in *.
  - destruct (IH (toAdd ++ [ts_Name spec]) w1) as (evs2 & Ht2 & HP2).
    exists (evs ++ evs2). rewrite Ht2, Ht, <-app_assoc. split; [done|].
    destruct (createKafkaTopics _ _ _ _).2; simpl in *;
      eauto using Completed_app, Completed_Sequential_app.
  - by exists evs.
  - by exists evs.
Qed.

Lemma updateKafkaClusterTopics_Phase fuel :
  emits (updateKafkaClusterTopics config fuel) (Phase topic_phase 0 3).
Proof.
  unfold updateKafkaClusterTopics.
  silent_step. intros d.
  eapply emits_Phase_bind; [apply listKafkaTopics_pages_Phase|].
  intros currTopics.
  silent_step.
  intros targetTopics. cbv zeta.
  destruct (kafkaTopicsDiff _ _) as [toDelete toAddSpecs].
  eapply emits_Phase_bind with (q := 1).
  { eapply emits_Phase_weaken with (p := 1) (q := 1); [|lia..].
    apply emits_Phase_for_each, deleteKafkaTopic_Phase. }
  intros _. eapply emits_Phase_bind with (q := 2).
  { eapply emits_Phase_weaken with (p := 2) (q := 2); [|lia..].
    apply createKafkaTopics_Phase. }
  intros toAdd.
  destruct (rd_GetOk d "config.0.version"); simpl.
  2:{ eapply emits_Phase_weaken with (p := 2) (q := 2); [|lia..].
      apply silent_Phase. auto with silent. }
  destruct (rd_GetChange d "topic") as [oldSpecs newSpecs].
  eapply emits_Phase_bind with (q := 2); [apply silent_Phase; auto with silent|].
  intros changedTopics.
  eapply emits_Phase_bind with (q := 3).
  { eapply emits_Phase_weaken with (p := 3) (q := 3); [|lia..].
    apply emits_Phase_for_each. intros t. apply updateKafkaTopic_Phase. }
  intros _. apply silent_Phase. unfold d_SetPartial. auto with silent.
Qed.

Lemma deleteKafkaUser_Phase userName :
  emits (deleteKafkaUser config userName) (Phase user_phase 1 1).
Proof.
  unfold deleteKafkaUser.
  silent_step.
  intros d. cbv zeta. apply emits_operation; [done|lia].
Qed.

Lemma createKafkaUser_Phase userSpec :
  emits (createKafkaUser config userSpec) (Phase user_phase 2 2).
Proof.
  unfold createKafkaUser.
  silent_step.
  intros d. cbv zeta. apply emits_operation; [done|lia].
Qed.

Lemma updateKafkaUser_Phase req :
  emits (updateKafkaUser config req) (Phase user_phase 3 3).
Proof.
  unfold updateKafkaUser.
  silent_step.
  intros d. apply emits_operation; [done|lia].
Qed.

Lemma updateKafkaUsers_Phase oldSpecs newSpecs :
  emits (updateKafkaUsers config oldSpecs newSpecs) (Phase user_phase 3 3).
Proof.
  unfold updateKafkaUsers.
  silent_step. intros m.
  apply emits_Phase_for_each. intros spec. unfold updateKafkaUsers_step.
  silent_step. intros d.
  silent_step.
  intros user. destruct (m !! us_Name user) as [u|]; [|by apply silent_Phase].
  cbv zeta. case_decide; [apply updateKafkaUser_Phase|by apply silent_Phase].
Qed.

Lemma updateKafkaClusterUsers_Phase fuel :
  emits (updateKafkaClusterUsers config fuel) (Phase user_phase 0 3).
Proof.
  unfold updateKafkaClusterUsers.
  silent_step. intros d.
  eapply emits_Phase_bind; [apply listKafkaUsers_pages_Phase|].
  intros currUsers.
  silent_step.
  intros targetUsers.
  destruct (kafkaUsersDiff _ _) as [toDelete toAdd].
  eapply emits_Phase_bind with (q := 1).
  { eapply emits_Phase_weaken with (p := 1) (q := 1); [|lia..].
    apply emits_Phase_for_each, deleteKafkaUser_Phase. }
  intros _. eapply emits_Phase_bind with (q := 2).
  { eapply emits_Phase_weaken with (p := 2) (q := 2); [|lia..].
    apply emits_Phase_for_each, createKafkaUser_Phase. }
  intros _. destruct (rd_GetChange d "user") as [oldSpecs newSpecs].
  eapply emits_Phase_bind with (q := 3).
  { eapply emits_Phase_weaken with (p := 3) (q := 3); [|lia..].
    apply updateKafkaUsers_Phase. }
  intros _. apply silent_Phase. unfold d_SetPartial. auto with silent.
Qed.
End reconciliation_order.

(** C8: whatever the remote side answers, the calls of a topic reconciliation
    are strictly sequential and in the order delete, add, update: after a
    request the next event is the return of its own wait, no call follows a
    wait that failed, and no operation of an earlier phase is requested after
    one of a later phase.  When the reconciliation returns without error,
    every operation has been awaited with success.  The user reconciliation
    behaves the same. *)
Theorem reconciliation_calls_sequential {pkg : Package} {lib : Library}
    (config : Config) (fuel : nat) (w : World) :
  (∃ evs,
     w_trace (updateKafkaClusterTopics config fuel w).1 = w_trace w ++ evs
     ∧ Sequential topic_phase 0 evs
     ∧ ((updateKafkaClusterTopics config fuel w).2 = Return () →
        Completed topic_phase 0 3 evs))
  ∧ (∃ evs,
       w_trace (updateKafkaClusterUsers config fuel w).1 = w_trace w ++ evs
       ∧ Sequential user_phase 0 evs
       ∧ ((updateKafkaClusterUsers config fuel w).2 = Return () →
          Completed user_phase 0 3 evs)).
Proof.
  split.
  - destruct (updateKafkaClusterTopics_Phase config fuel w) as (evs & Ht & HP).
    exists evs. split; [done|]. split; [by eapply Phase_Sequential|].
    intros Hout. by rewrite Hout in HP.
  - destruct (updateKafkaClusterUsers_Phase config fuel w) as (evs & Ht & HP).
    exists evs. split; [done|]. split; [by eapply Phase_Sequential|].
    intros Hout. by rewrite Hout in HP.
Qed.

(** What [Sequential] rules out: a second request before the wait for the
    first has returned, and a deletion after a creation. *)
Example Sequential_rejects_overlap :
  ¬ Sequential topic_phase 0
      [Sent (Topic_Delete "c1" "a"); Sent (Topic_Delete "c1" "b")].
Proof. intros H. inversion H; simplify_eq/=. Qed.

Example Sequential_rejects_delete_after_create :
  ¬ Sequential topic_phase 0
      [Sent (Topic_Create "c1" (mkTopicSpec "a"));
       Waited (Topic_Create "c1" (mkTopicSpec "a")) None;
       Sent (Topic_Delete "c1" "b");
       Waited (Topic_Delete "c1" "b") None].
Proof.
  intros H. inversion H as [| | | |p q r rest Hr Hq Hpq Hrest]; simplify_eq/=.
  inversion Hrest; simplify_eq/=; lia.
Qed.

(** A run: one topic to delete and one to create. *)
Example reconciliation_run :
  let remote : SDK :=
    {| sdk_Cluster_Get := λ _ _, inr Sample.cluster;
       sdk_Topic_List := λ _ _ _, inr ([mkTopic "old"], "");
       sdk_User_List := λ _ _ _, inr ([], "");
       sdk_Address_Get := λ _ _, inr Sample.address;
       sdk_Operation := λ _ _, None;
       sdk_Wait := λ _ _, None |} in
  let helpers : Package :=
    {| expandLabels := λ _, inr [];
       expandSecurityGroupIds := λ _, [];
       expandKafkaConfigSpec := λ _, inr Sample.configSpec;
       expandKafkaTopics := λ _, inr [mkTopicSpec "new"];
       expandKafkaUsers := λ _, inr [];
       expandKafkaUser := Sample.expandUser;
       kafkaTopicsDiff := Differ.kafkaTopicsDiff;
       kafkaUsersDiff := λ _ _, ([], []);
       kafkaChangedTopics := λ _ _ _ _,
         inr [ {| index := 0; topic := mkTopicSpec "new" |} ];
       kafkaFilterModifiedTopics := Differ.kafkaFilterModifiedTopics;
       getTimestamp := λ _, inr "";
       getTimestamp_address := λ _, VNil;
       flattenKafkaConfig := λ _, inr VNil;
       flattenKafkaTopics := λ _, VList [];
       kafkaUsersPasswords := λ _, [];
       flattenKafkaUsers := λ _ _, VList [];
       flattenExternalIpV4AddressSpec := λ _, VList [] |} in
  w_trace (updateKafkaClusterTopics (pkg := helpers) (lib := Sample.library)
             {| sdk := remote |} 2
             (Sample.world (Sample.data "c1" ["topic"]))).1
  = [Sent (Topic_List "c1" "");
     Sent (Topic_Delete "c1" "old");
     Waited (Topic_Delete "c1" "old") None;
     Sent (Topic_Create "c1" (mkTopicSpec "new"));
     Waited (Topic_Create "c1" (mkTopicSpec "new")) None].
Proof. vm_compute. reflexivity. Qed.

(** ** The user differ *)

Section text_facts.
Lemma string_app_assoc (a b c : string) : (a +:+ b) +:+ c = a +:+ (b +:+ c).
Proof. induction a as [|x a IH]; [done|]. unfold String.app in *. simpl. by rewrite IH. Qed.

Lemma string_app_cons x (a b : string) : String x a +:+ b = String x (a +:+ b).
Proof. done. Qed.

Lemma string_app_nil (b : string) : "" +:+ b = b.
Proof. done. Qed.

Lemma escape_terminated t1 : ∀ t2 X1 X2,
  escape t1 +:+ String (ascii_of_nat 34) X1
  = escape t2 +:+ String (ascii_of_nat 34) X2 →
  t1 = t2 ∧ X1 = X2.
Proof.
  induction t1 as [|c1 t1 IH]; intros [|c2 t2] X1 X2; simpl;
    rewrite ?string_app_cons, ?string_app_nil.
  - intros Heq. by simplify_eq.
  - repeat case_decide; rewrite ?string_app_cons; intros Heq; simplify_eq.
  - repeat case_decide; rewrite ?string_app_cons; intros Heq; simplify_eq.
  - repeat case_decide; rewrite ?string_app_cons; intros Heq; simplify_eq;
      by destruct (IH _ _ _ ltac:(eassumption)) as [-> ->].
Qed.

Lemma tokR_separates r1 r2 A1 A2 :
  closes A1 → closes A2 →
  tokR r1 +:+ A1 = tokR r2 +:+ A2 → r1 = r2 ∧ A1 = A2.
Proof.
  intros [x1 [-> | ->]] [x2 [-> | ->]]; destruct r1, r2; simpl;
    rewrite ?string_app_cons, ?string_app_nil; intros Heq; by simplify_eq.
Qed.

Lemma tokR_opens r A :
  closes A →
  ∃ c rest, tokR r +:+ A = String c rest ∧ c ≠ "t"%char.
Proof.
  intros [x [-> | ->]]; destruct r; simpl;
    rewrite ?string_app_cons, ?string_app_nil; by eexists _, _.
Qed.

Lemma compact_text_separates p q A1 A2 :
  closes A1 → closes A2 →
  Sample.compact_text p +:+ A1 = Sample.compact_text q +:+ A2 →
  p = q ∧ A1 = A2.
Proof.
  intros HA1 HA2. destruct p as [t1 r1], q as [t2 r2].
  unfold Sample.compact_text, tokT. simpl. rewrite !string_app_assoc.
  destruct (tokR_opens r1 A1 HA1) as (c1 & Y1 & HY1 & Hc1).
  destruct (tokR_opens r2 A2 HA2) as (c2 & Y2 & HY2 & Hc2).
  repeat case_decide; subst; rewrite ?string_app_nil.
  - intros Heq. by destruct (tokR_separates _ _ _ _ HA1 HA2 Heq) as [-> ->].
  - rewrite HY1. unfold fmt_q, dq. rewrite ?string_app_assoc, ?string_app_cons.
    intros Heq. simplify_eq.
  - rewrite HY2. unfold fmt_q, dq. rewrite ?string_app_assoc, ?string_app_cons.
    intros Heq. simplify_eq.
  - unfold fmt_q, dq.
    rewrite ?string_app_assoc, ?string_app_cons, ?string_app_nil.
    intros Heq. simplify_eq.
    match goal with H : _ +:+ _ = _ +:+ _ |- _ =>
      apply escape_terminated in H as [-> Heq] end.
    simplify_eq.
    match goal with H : _ +:+ _ = _ +:+ _ |- _ =>
      by destruct (tokR_separates _ _ _ _ HA1 HA2 H) as [-> ->] end.
Qed.

End text_facts.

(** The print of a slice tells two lists apart when the print of an element,
    followed by what can follow it in a slice, tells the element. *)
Section print_facts.
Context (text : Permission → string) (P : Permission → Prop).
Context (Hsep : ∀ p q A1 A2, P p → P q → closes A1 → closes A2 →
                  text p +:+ A1 = text q +:+ A2 → p = q ∧ A1 = A2).

Lemma printed_rest_closes ps : closes (printed_rest text ps).
Proof. destruct ps; simpl; eexists; [by left|by right]. Qed.

Lemma Join_printed p ps :
  strings_Join (text <$> (p :: ps)) " " +:+ "]"
  = text p +:+ printed_rest text ps.
Proof.
  revert p. induction ps as [|q ps IH]; intros p; [done|].
  change (strings_Join (text <$> p :: q :: ps) " ")
    with (text p +:+ " " +:+ strings_Join (text <$> q :: ps) " ").
  rewrite !string_app_assoc, IH. done.
Qed.

Lemma printed_rest_inj ps : ∀ qs,
  Forall P ps → Forall P qs → length ps = length qs →
  printed_rest text ps = printed_rest text qs → ps = qs.
Proof.
  induction ps as [|p ps IH]; intros [|q qs] Hps Hqs Hlen; simplify_eq/=;
    [done|].
  apply Forall_cons in Hps as [Hp Hps]. apply Forall_cons in Hqs as [Hq Hqs].
  rewrite !string_app_cons, !string_app_nil. intros Heq. simplify_eq.
  match goal with H : _ +:+ _ = _ +:+ _ |- _ =>
    apply Hsep in H as [-> Hrest]; auto using printed_rest_closes end.
  f_equal. by apply IH.
Qed.

Lemma printed_separates ps qs :
  Forall P ps → Forall P qs → length ps = length qs →
  "[" +:+ strings_Join (text <$> ps) " " +:+ "]"
  = "[" +:+ strings_Join (text <$> qs) " " +:+ "]" →
  ps = qs.
Proof.
  destruct ps as [|p ps], qs as [|q qs]; intros Hps Hqs Hlen; try done.
  apply Forall_cons in Hps as [Hp Hps]. apply Forall_cons in Hqs as [Hq Hqs].
  rewrite !string_app_cons, !string_app_nil, !Join_printed. intros Heq.
  injection Heq as Heq. injection Hlen as Hlen.
  apply Hsep in Heq as [-> Hrest]; auto using printed_rest_closes.
  f_equal. by apply printed_rest_inj.
Qed.
End print_facts.

Lemma single_line_text_ordinary sep p :
  ordinary p →
  Sample.single_line_text sep p
  = "topic_name:" +:+ dq +:+ escape (TopicName p) +:+ dq +:+ sep
    +:+ match Role p with
        | ACCESS_ROLE_CONSUMER => "role:ACCESS_ROLE_CONSUMER"
        | _ => "role:ACCESS_ROLE_PRODUCER"
        end.
Proof.
  intros [Ht Hr]. unfold Sample.single_line_text.
  rewrite decide_False by done.
  destruct (Role p); [done|..]; simpl; unfold fmt_q;
    by rewrite ?string_app_assoc.
Qed.

Lemma app_inv_head_string (a b c : string) : a +:+ b = a +:+ c → b = c.
Proof.
  induction a as [|x a IH]; [done|]. rewrite !string_app_cons.
  intros Heq. injection Heq as Heq. by apply IH.
Qed.

Lemma single_line_text_separates sep p q A1 A2 :
  ordinary p → ordinary q →
  Sample.single_line_text sep p +:+ A1 = Sample.single_line_text sep q +:+ A2 →
  p = q ∧ A1 = A2.
Proof.
  intros Hp Hq.
  rewrite (single_line_text_ordinary sep p Hp),
    (single_line_text_ordinary sep q Hq).
  destruct p as [t1 r1], q as [t2 r2]. simpl.
  rewrite !string_app_assoc. intros Heq.
  apply app_inv_head_string in Heq. unfold dq in Heq.
  rewrite !string_app_cons, !string_app_nil in Heq.
  injection Heq as Heq.
  apply escape_terminated in Heq as [-> Heq].
  apply app_inv_head_string in Heq.
  destruct Hp as [_ Hr1], Hq as [_ Hr2]. simpl in Hr1, Hr2.
  destruct r1, r2; try done; rewrite !string_app_cons, !string_app_nil in Heq;
    by simplify_eq.
Qed.

Lemma protobuf_text_separates {lib : Library} ps qs :
  protobuf_text ps → ps ≡ₚ qs → Sprintf_v ps = Sprintf_v qs → ps = qs.
Proof.
  intros [Htext|[[sep Htext] Hord]] Hperm; unfold Sprintf_v; rewrite Htext.
  - apply (printed_separates Sample.compact_text (λ _, True)).
    + intros p q A1 A2 _ _. apply compact_text_separates.
    + by apply Forall_true.
    + by apply Forall_true.
    + by apply Permutation_length.
  - apply (printed_separates (Sample.single_line_text sep) ordinary).
    + intros p q A1 A2 Hp Hq _ _. by apply single_line_text_separates.
    + done.
    + by rewrite <-Hperm.
    + by apply Permutation_length.
Qed.


Section user_differ_facts.
Context {pkg : Package} {lib : Library} (config : Config).

Lemma updateKafkaUser_sends req w :
  ∃ rest,
    w_trace (updateKafkaUser config req w).1
    = w_trace w ++ Sent (User_Update req) :: rest.
Proof.
  unfold updateKafkaUser.
  unfold mbind, M_bind, get_d, WrapOperation, op_Wait, get_trace, emit, mret,
    M_ret. simpl.
  destruct (sdk_Operation _ _ _) as [err|]; simpl; [by exists []|].
  destruct (sdk_Wait _ _ _) as [err|]; simpl; rewrite <-app_assoc;
    by eexists [_].
Qed.

(** One old and one new spec of the same name: when the paths are not empty,
    the update request for the user is sent, with these paths as its mask. *)
Lemma updateKafkaUsers_single old new u user w :
  expandKafkaUser old = inr u →
  expandKafkaUser new = inr user →
  us_Name user = us_Name u →
  userUpdatePaths user u ≠ [] →
  ∃ rest,
    w_trace (updateKafkaUsers config [old] [new] w).1
    = w_trace w
      ++ Sent (User_Update
                 {| uur_ClusterId := rd_Id (w_d w);
                    uur_UserName := us_Name user;
                    uur_Password := us_Password user;
                    uur_Permissions := us_Permissions user;
                    uur_UpdateMask := userUpdatePaths user u |})
      :: rest.
Proof.
  intros Hold Hnew Hname Hpaths.
  unfold updateKafkaUsers, updateKafkaUsers_step. simpl. rewrite Hold. simpl.
  unfold mbind at 1 2 3 4, M_bind, get_d, check, mret, M_ret. simpl.
  rewrite Hnew. simpl. rewrite Hname, lookup_insert_eq.
  rewrite decide_True by (destruct (userUpdatePaths user u); [done|simpl; lia]).
  set (req := {| uur_ClusterId := _ |}).
  destruct (updateKafkaUser_sends req w) as (rest & Ht).
  exists rest. unfold mbind, M_bind.
  destruct (updateKafkaUser config req w) as [w1 [[]| |]]; by simpl in *.
Qed.

Lemma userUpdatePaths_password user u :
  us_Permissions user = us_Permissions u →
  us_Password user ≠ us_Password u →
  userUpdatePaths user u = ["password"].
Proof.
  intros Hperm Hpw. unfold userUpdatePaths.
  rewrite Hperm.
  rewrite (decide_False (P := Sprintf_v _ ≠ Sprintf_v _))
    by (intros Hne; by apply Hne).
  by rewrite decide_True by done.
Qed.

Lemma userUpdatePaths_permissions user u :
  us_Password user = us_Password u →
  Sprintf_v (us_Permissions user) ≠ Sprintf_v (us_Permissions u) →
  userUpdatePaths user u = ["permissions"].
Proof.
  intros Hpw Hperm. unfold userUpdatePaths.
  rewrite (decide_True (P := Sprintf_v _ ≠ Sprintf_v _)) by done.
  by rewrite decide_False by (intros Hne; by apply Hne).
Qed.
End user_differ_facts.






(** ** sortKafkaTopics on a list that is already in order *)

Section sort_stability.
Implicit Types (topics : list Topic) (specs : list TopicSpec).

Lemma names_lookup_inj topics a b x y :
  NoDup (Name <$> topics) →
  topics !! a = Some x → topics !! b = Some y → Name x = Name y → a = b.
Proof.
  intros Hnd Ha Hb Hxy.
  apply (NoDup_lookup (Name <$> topics) a b (Name x) Hnd).
  - by rewrite list_lookup_fmap, Ha.
  - by rewrite list_lookup_fmap, Hb, Hxy.
Qed.

Lemma scan_low name i n : ∀ j topics k,
  k < i → i < j →
  sortKafkaTopics_scan name i j n topics !! k = topics !! k.
Proof.
  induction n as [|n IH]; intros j topics k Hk Hij; simpl; [done|].
  destruct (topics !! j) as [tj|] eqn:Hj; [|done].
  case_decide; [|apply IH; lia].
  unfold swap. destruct (topics !! i); [|done]. rewrite Hj.
  by rewrite !list_lookup_insert_ne by lia.
Qed.

Lemma sort_from_low specs : ∀ i topics k,
  k < i → sortKafkaTopics_from i specs topics !! k = topics !! k.
Proof.
  induction specs as [|s specs IH]; intros i topics k Hk; simpl; [done|].
  rewrite IH by lia. apply scan_low; lia.
Qed.

(** A pass over a settled list finds no later match and swaps nothing. *)
Lemma sort_from_settled specs : ∀ i topics,
  settled i topics specs → sortKafkaTopics_from i specs topics = topics.
Proof.
  induction specs as [|s specs IH]; intros i topics Hset; simpl; [done|].
  assert (sortKafkaTopics_scan (ts_Name s) i (S i) (length topics - S i) topics
          = topics) as ->.
  { destruct (decide (S i ≤ length topics)) as [Hle|Hgt].
    - destruct (scan_cases (ts_Name s) i (length topics - S i) (S i) topics
                  ltac:(lia)) as [[Heq _]|(j0 & t0 & Hj0 & Ht0 & Hn0 & _)];
        [done|].
      exfalso. apply (Hset 0 s j0 t0); [done|lia|done..].
    - by replace (length topics - S i) with 0 by lia. }
  apply IH. intros k s' j t Hk Hj Ht.
  apply (Hset (S k) s' j t); [done|lia|done].
Qed.

(** With distinct remote names, the list a pass returns is settled. *)
Lemma sort_from_settles specs : ∀ i topics,
  NoDup (Name <$> topics) →
  settled i (sortKafkaTopics_from i specs topics) specs.
Proof.
  induction specs as [|s specs IH]; intros i topics Hnd; simpl.
  { intros k s j t Hk. by rewrite lookup_nil in Hk. }
  set (topics' := sortKafkaTopics_scan _ _ _ _ _).
  set (R := sortKafkaTopics_from _ _ _).
  assert (NoDup (Name <$> topics')) as Hnd'.
  { subst topics'. by rewrite scan_perm. }
  assert (NoDup (Name <$> R)) as HndR.
  { subst R. by rewrite sort_from_perm. }
  intros [|k] s' j t Hk Hj Ht; simpl in Hk.
  2:{ apply (IH (S i) topics' Hnd' k s' j t); [done|lia|done]. }
  injection Hk as <-. intros Hname.
  assert (t ∈ topics') as Hin.
  { rewrite <-(sort_from_perm specs (S i) topics').
    by apply list_elem_of_lookup_2 in Ht. }
  apply list_elem_of_lookup in Hin as [j' Hj'].
  assert (i < j') as Hij'.
  { destruct (decide (i < j')) as [|Hle]; [done|]. exfalso.
    assert (R !! j' = Some t) as HR.
    { subst R. rewrite sort_from_low by lia. done. }
    pose proof (names_lookup_inj R j j' t t HndR Ht HR eq_refl). lia. }
  assert (S i ≤ length topics) as Hlen.
  { apply lookup_lt_Some in Hj'. subst topics'.
    rewrite (Permutation_length (scan_perm _ _ _ _ _)) in Hj'. lia. }
  destruct (scan_cases (ts_Name s) i (length topics - S i) (S i) topics
              ltac:(lia)) as [[Heq Hno]|(j0 & t0 & Hj0 & Ht0 & Hn0 & Heq)].
  - apply (Hno j' t); [lia| |done]. subst topics'. by rewrite Heq in Hj'.
  - destruct (lookup_lt_is_Some_2 topics i ltac:(lia)) as [ti Hti].
    assert (topics' !! i = Some t0) as Hi'.
    { subst topics'. rewrite Heq, (swap_lookup _ _ _ ti t0) by done.
      by rewrite decide_True. }
    pose proof (names_lookup_inj topics' i j' t0 t Hnd' Hi' Hj'
                  ltac:(congruence)). lia.
Qed.

End sort_stability.

(** A pass over two runs of specs is the pass over the first, then the pass
    over the second from the index after it. *)
Lemma sort_from_app (specs1 specs2 : list TopicSpec) : ∀ i topics,
  sortKafkaTopics_from i (specs1 ++ specs2) topics
  = sortKafkaTopics_from (i + length specs1) specs2
      (sortKafkaTopics_from i specs1 topics).
Proof.
  induction specs1 as [|s specs1 IH]; intros i topics; simpl.
  { by rewrite Nat.add_0_r. }
  rewrite IH. f_equal. lia.
Qed.

(** C3 (amended): when the names are distinct within each list and no target
    name without a remote topic stands before a target name with one, so that
    the first [k] target names are the ones with a remote topic,
    sortKafkaTopics puts the remote topics that the target names in target
    order at the head of the list: the i-th remote element carries the i-th
    target name for every i below [k], and these are all the remote elements
    the target names. *)
Theorem sortKafkaTopics_aligned (topics : list Topic) (specs : list TopicSpec)
    (k : nat) :
  NoDup (Name <$> topics) →
  NoDup (ts_Name <$> specs) →
  k ≤ length specs →
  (∀ s, s ∈ take k specs → ts_Name s ∈ (Name <$> topics)) →
  (∀ s, s ∈ drop k specs → ts_Name s ∉ (Name <$> topics)) →
  Name <$> take k (sortKafkaTopics topics specs) = ts_Name <$> take k specs
  ∧ aligned (sortKafkaTopics topics specs) topics specs.
Proof.
  intros Hndt Hnds Hk Hin Hout.
  assert (length (take k specs) = k) as Hlen by (rewrite length_take; lia).
  assert (sortKafkaTopics topics specs = sortKafkaTopics topics (take k specs))
    as Hsame.
  { unfold sortKafkaTopics. rewrite <-(take_drop k specs) at 1.
    rewrite sort_from_app. apply sort_from_settled.
    intros i s j t Hs Hj Ht Hname. apply (Hout s).
    - by apply list_elem_of_lookup_2 in Hs.
    - rewrite <-Hname.
      rewrite <-(sorted_names topics (take k specs)).
      apply list_elem_of_fmap_2. by apply list_elem_of_lookup_2 in Ht. }
  assert (NoDup (ts_Name <$> take k specs)) as Hndk.
  { rewrite <-(take_drop k specs), fmap_app in Hnds.
    by apply NoDup_app in Hnds as (? & _ & _). }
  pose proof (sort_take_names topics (take k specs) Hndk Hin) as Htake.
  rewrite Hlen, <-Hsame in Htake.
  split; [done|]. unfold aligned.
  assert (NoDup (Name <$> sortKafkaTopics topics specs)) as Hnd.
  { eapply NoDup_Permutation_proper; [|exact Hndt].
    apply fmap_Permutation, sort_from_perm. }
  set (sorted := sortKafkaTopics topics specs) in *.
  assert (∀ n, n ∈ (Name <$> topics) → n ∈ (ts_Name <$> specs) →
            n ∈ (ts_Name <$> take k specs)) as Hpresent.
  { intros n Hn Hs. rewrite <-(take_drop k specs), fmap_app in Hs.
    apply elem_of_app in Hs as [Hs|Hs]; [done|].
    apply list_elem_of_fmap in Hs as (s & -> & Hs). by destruct (Hout s). }
  rewrite <-(take_drop k sorted) in Hnd |- *.
  rewrite fmap_app in Hnd. apply NoDup_app in Hnd as (_ & Hdisj & _).
  rewrite filter_app, fmap_app.
  rewrite (filter_all _ (take _ _)), (filter_none _ (drop _ _)).
  - rewrite app_nil_r, Htake.
    rewrite <-(take_drop k specs) at 2. rewrite fmap_app, filter_app.
    rewrite (filter_all _ (ts_Name <$> take k specs)),
      (filter_none _ (ts_Name <$> drop k specs)).
    + by rewrite app_nil_r.
    + intros n Hn. apply list_elem_of_fmap in Hn as (s & -> & Hs).
      by apply Hout.
    + intros n Hn. apply list_elem_of_fmap in Hn as (s & -> & Hs).
      by apply Hin.
  - intros t Ht Hmem.
    assert (Name t ∈ (Name <$> topics)) as Hn.
    { rewrite <-(sorted_names topics specs). fold sorted.
      rewrite <-(take_drop k sorted), fmap_app. apply elem_of_app. right.
      by apply list_elem_of_fmap_2. }
    pose proof (Hpresent _ Hn Hmem) as Hhead. rewrite <-Htake in Hhead.
    apply (Hdisj (Name t) Hhead). by apply list_elem_of_fmap_2.
  - intros t Ht.
    assert (Name t ∈ (ts_Name <$> take k specs)) as Hn
      by (rewrite <-Htake; by apply list_elem_of_fmap_2).
    rewrite <-(take_drop k specs), fmap_app. apply elem_of_app. by left.
Qed.

Lemma sortKafkaTopics_aligned_witness :
  let topics := [mkTopic "b"; mkTopic "x"; mkTopic "a"] in
  let specs := [mkTopicSpec "a"; mkTopicSpec "b"; mkTopicSpec "new"] in
  Name <$> take 2 (sortKafkaTopics topics specs) = ts_Name <$> take 2 specs
  ∧ aligned (sortKafkaTopics topics specs) topics specs.
Proof.
  intros topics specs. apply sortKafkaTopics_aligned.
  - compute_done.
  - compute_done.
  - simpl. lia.
  - apply Forall_forall. compute_done.
  - apply Forall_forall. compute_done.
Defined.

(** X1: a remote list in which no target name stands after the index of its
    target spec is returned by sortKafkaTopics as it is: a list that is
    already in the declared order is not reordered. *)
Theorem sortKafkaTopics_settled (topics : list Topic) (specs : list TopicSpec) :
  settled 0 topics specs → sortKafkaTopics topics specs = topics.
Proof.
  intros Hset. unfold sortKafkaTopics.
  by apply sort_from_settled.
Qed.

Lemma sortKafkaTopics_settled_witness :
  sortKafkaTopics [mkTopic "a"; mkTopic "b"; mkTopic "c"]
                  [mkTopicSpec "a"; mkTopicSpec "x"; mkTopicSpec "b"]
  = [mkTopic "a"; mkTopic "b"; mkTopic "c"].
Proof.
  apply sortKafkaTopics_settled.
  intros k s j t Hk Hj Ht.
  destruct k as [|[|[|k]]]; simpl in Hk; simplify_eq;
    destruct j as [|[|[|j]]]; simpl in Ht; simplify_eq; try lia; done.
Defined.

(** X2: when the remote names are distinct, sortKafkaTopics is idempotent:
    sorting its own result against the same specs changes nothing, so two
    reads in a row store the topics in the same order. *)
Theorem sortKafkaTopics_idempotent (topics : list Topic) (specs : list TopicSpec) :
  NoDup (Name <$> topics) →
  sortKafkaTopics (sortKafkaTopics topics specs) specs
  = sortKafkaTopics topics specs.
Proof.
  intros Hnd. apply sort_from_settled.
  by apply sort_from_settles.
Qed.

Lemma sortKafkaTopics_idempotent_witness :
  let topics := [mkTopic "a"; mkTopic "b"; mkTopic "c"] in
  let specs := [mkTopicSpec "c"; mkTopicSpec "x"; mkTopicSpec "a"] in
  sortKafkaTopics (sortKafkaTopics topics specs) specs
  = sortKafkaTopics topics specs.
Proof.
  intros topics specs. apply sortKafkaTopics_idempotent. compute_done.
Defined.

(** ** The paginated listings *)

Section listing_facts.
Context {pkg : Package} {lib : Library} (config : Config).

Lemma listKafkaTopics_pages_walk id pages last : ∀ fuel tok ret w,
  answers (λ h, sdk_Topic_List (sdk config) h id) (Topic_List id)
          (w_trace w) tok pages last →
  length pages < fuel →
  listKafkaTopics_pages config fuel id tok ret w
  = ({| w_trace := w_trace w ++ page_calls (Topic_List id) tok pages;
        w_d := w_d w; w_ranges := w_ranges w |},
     match last with
     | inl err =>
         Raise (Errorf ("error while getting list of topics for '" +:+ id
                        +:+ "': " +:+ Error_ err))
     | inr topics => Return (ret ++ concat pages.*1 ++ topics)
     end).
Proof.
  induction pages as [|[topics next] pages IH]; intros fuel tok ret w Hans Hfuel;
    (destruct fuel as [|fuel]; [simpl in Hfuel; lia|]); simpl in Hans.
  - simpl. unfold mbind, M_bind, call, get_trace, emit; simpl.
    rewrite Hans. by destruct last as [err|topics].
  - destruct Hans as (Hpage & Hnext & Hrest).
    simpl. unfold mbind at 1 2, M_bind at 1 2, call, get_trace, emit; simpl.
    rewrite Hpage. simpl. rewrite decide_False by done.
    rewrite (IH fuel next); [|exact Hrest|simpl in Hfuel; lia]. simpl.
    f_equal; [by rewrite <-app_assoc|].
    destruct last; [done|]. by rewrite <-!app_assoc.
Qed.

Lemma listKafkaUsers_pages_walk id pages last : ∀ fuel tok ret w,
  answers (λ h, sdk_User_List (sdk config) h id) (User_List id)
          (w_trace w) tok pages last →
  length pages < fuel →
  listKafkaUsers_pages config fuel id tok ret w
  = ({| w_trace := w_trace w ++ page_calls (User_List id) tok pages;
        w_d := w_d w; w_ranges := w_ranges w |},
     match last with
     | inl err =>
         Raise (Errorf ("error while getting list of users for '" +:+ id
                        +:+ "': " +:+ Error_ err))
     | inr users => Return (ret ++ concat pages.*1 ++ users)
     end).
Proof.
  induction pages as [|[users next] pages IH]; intros fuel tok ret w Hans Hfuel;
    (destruct fuel as [|fuel]; [simpl in Hfuel; lia|]); simpl in Hans.
  - simpl. unfold mbind, M_bind, call, get_trace, emit; simpl.
    rewrite Hans. by destruct last as [err|users].
  - destruct Hans as (Hpage & Hnext & Hrest).
    simpl. unfold mbind at 1 2, M_bind at 1 2, call, get_trace, emit; simpl.
    rewrite Hpage. simpl. rewrite decide_False by done.
    rewrite (IH fuel next); [|exact Hrest|simpl in Hfuel; lia]. simpl.
    f_equal; [by rewrite <-app_assoc|].
    destruct last; [done|]. by rewrite <-!app_assoc.
Qed.

End listing_facts.

(** X3: listKafkaTopics asks for the first page with an empty token and for
    every further page with the token the page before named, one call per
    page and nothing else.  When the remote answers every page, the result is
    the topics of all pages in page order; when a page fails, the listing
    fails with the wrapped error of that page and the topics read so far are
    dropped. *)
Theorem listKafkaTopics_walks_pages (config : Config) (id : string)
    (pages : list (list Topic * string))
    (last : error + list Topic) (fuel : nat) (w : World) :
  answers (λ h, sdk_Topic_List (sdk config) h id) (Topic_List id)
          (w_trace w) "" pages last →
  length pages < fuel →
  listKafkaTopics config fuel id w
  = ({| w_trace := w_trace w ++ page_calls (Topic_List id) "" pages;
        w_d := w_d w; w_ranges := w_ranges w |},
     match last with
     | inl err =>
         Raise (Errorf ("error while getting list of topics for '" +:+ id
                        +:+ "': " +:+ Error_ err))
     | inr topics => Return (concat pages.*1 ++ topics)
     end).
Proof.
  intros Hans Hfuel. unfold listKafkaTopics.
  rewrite (listKafkaTopics_pages_walk config id pages last fuel "" [] w Hans Hfuel).
  done.
Qed.

Lemma listKafkaTopics_walks_pages_witness :
  listKafkaTopics
    {| sdk := Scenario.sdk_paged |} 5 "c1" (Sample.world (Sample.data "c1" []))
  = ({| w_trace := [Sent (Topic_List "c1" ""); Sent (Topic_List "c1" "page-2")];
        w_d := Sample.data "c1" []; w_ranges := 0 |},
     Return [mkTopic "a"; mkTopic "b"; mkTopic "c"]).
Proof.
  apply (listKafkaTopics_walks_pages {| sdk := Scenario.sdk_paged |} "c1"
           [([mkTopic "a"; mkTopic "b"], "page-2")] (inr [mkTopic "c"]) 5
           (Sample.world (Sample.data "c1" []))).
  - simpl. split_and!; done.
  - simpl. lia.
Defined.

(** X4: listKafkaUsers walks the pages of the users in the same way: one call
    per page, each with the token the page before named; all users in page
    order when every page is answered, the wrapped error of the failing page
    otherwise. *)
Theorem listKafkaUsers_walks_pages (config : Config) (id : string)
    (pages : list (list User * string))
    (last : error + list User) (fuel : nat) (w : World) :
  answers (λ h, sdk_User_List (sdk config) h id) (User_List id)
          (w_trace w) "" pages last →
  length pages < fuel →
  listKafkaUsers config fuel id w
  = ({| w_trace := w_trace w ++ page_calls (User_List id) "" pages;
        w_d := w_d w; w_ranges := w_ranges w |},
     match last with
     | inl err =>
         Raise (Errorf ("error while getting list of users for '" +:+ id
                        +:+ "': " +:+ Error_ err))
     | inr users => Return (concat pages.*1 ++ users)
     end).
Proof.
  intros Hans Hfuel. unfold listKafkaUsers.
  rewrite (listKafkaUsers_pages_walk config id pages last fuel "" [] w Hans Hfuel).
  done.
Qed.

Lemma listKafkaUsers_walks_pages_witness :
  listKafkaUsers
    {| sdk := Scenario.sdk_paged |} 5 "c1" (Sample.world (Sample.data "c1" []))
  = ({| w_trace := [Sent (User_List "c1" ""); Sent (User_List "c1" "page-2")];
        w_d := Sample.data "c1" []; w_ranges := 0 |},
     Raise (Errorf "error while getting list of users for 'c1': rpc error: code = Unavailable desc = try again")).
Proof.
  apply (listKafkaUsers_walks_pages {| sdk := Scenario.sdk_paged |} "c1"
           [([Scenario.alice; Scenario.bob], "page-2")]
           (inl (StatusError 14 "try again")) 5
           (Sample.world (Sample.data "c1" []))).
  - simpl. split_and!; done.
  - simpl. lia.
Defined.

(** ** The classes of calls a step makes, and the data it leaves alone *)

Section only_facts.
Context {A B : Type} (E : Event → Prop).

Lemma only_bind (m : M A) (f : A → M B) :
  only E m → (∀ a, only E (f a)) → only E (m ≫= f).
Proof.
  intros Hm Hf. unfold only.
  eapply (emits_bind m f _ (λ _ _ evs, Forall E evs));
    [exact Hm|exact Hf|..]; simpl; auto.
  intros a evs1 out evs2 H1 H2. apply Forall_app. done.
Qed.

Lemma only_silent (m : M A) : silent m → only E m.
Proof.
  intros Hm. eapply emits_weaken; [by apply silent_emits|].
  intros out evs ->. apply Forall_nil_2.
Qed.

Lemma only_call (answer : list Event → error + A) r :
  E (Sent r) → only E (call answer r).
Proof.
  intros Hr w. exists [Sent r]. split; [done|]. by apply Forall_singleton.
Qed.

Lemma only_try (m : M A) : only E m → only E (try m).
Proof.
  intros Hm w. destruct (Hm w) as (evs & Ht & Hall). exists evs.
  unfold try. destruct (m w) as [w1 [a|e|]]; done.
Qed.

Lemma only_for_each (l : list A) (body : A → M unit) :
  (∀ x, x ∈ l → only E (body x)) → only E (for_each l body).
Proof.
  induction l as [|x l IH]; intros Hbody; simpl.
  - intros w. exists []. split; [by rewrite app_nil_r|apply Forall_nil_2].
  - unfold only.
    eapply (emits_bind _ _ _ (λ _ _ evs, Forall E evs));
      [apply Hbody; left|intros _; apply IH; intros y Hy; apply Hbody; by right|..];
      simpl; auto.
    intros _ evs1 out evs2 H1 H2. by apply Forall_app.
Qed.

End only_facts.

Lemma only_weaken {A} (E E' : Event → Prop) (m : M A) :
  (∀ ev, E ev → E' ev) → only E m → only E' m.
Proof.
  intros HE Hm. eapply emits_weaken; [exact Hm|].
  intros out evs Hall. eapply Forall_impl; [exact Hall|]. exact HE.
Qed.

Lemma only_WrapOperation (E : Event → Prop) config r :
  E (Sent r) → only E (WrapOperation config r).
Proof.
  intros Hr w. exists [Sent r]. split; [done|]. by apply Forall_singleton.
Qed.

Lemma only_op_Wait (E : Event → Prop) config r :
  (∀ err, E (Waited r err)) → only E (op_Wait config r).
Proof.
  intros Hr w. exists [Waited r (sdk_Wait (sdk config) (w_trace w) r)].
  split; [done|]. by apply Forall_singleton.
Qed.

(** An operation: the request, and its wait when the request is accepted. *)
Lemma only_operation (E : Event → Prop) config r wrap1 wrap2 :
  E (Sent r) → (∀ err, E (Waited r err)) →
  only E (err ← WrapOperation config r; fail_if wrap1 err ;;
          err ← op_Wait config r; fail_if wrap2 err).
Proof.
  intros Hr Hw.
  apply only_bind; [by apply only_WrapOperation|]. intros err1.
  apply only_bind; [apply only_silent; auto with silent|]. intros _.
  apply only_bind; [by apply only_op_Wait|]. intros err2.
  apply only_silent; auto with silent.
Qed.

Section keeps_facts.
Context {A B R : Type} (proj : ResourceData → R).

Lemma keeps_bind (m : M A) (f : A → M B) :
  keeps proj m → (∀ a, keeps proj (f a)) → keeps proj (m ≫= f).
Proof.
  intros Hm Hf w. unfold mbind, M_bind. specialize (Hm w).
  destruct (m w) as [w1 [a|e|]]; simpl in *; [|done..].
  by rewrite Hf.
Qed.

Lemma keeps_ret (a : A) : keeps proj (mret a).
Proof. done. Qed.

Lemma keeps_raise (e : error) : keeps proj (raise (A := A) e).
Proof. done. Qed.

Lemma keeps_out_of_fuel : keeps proj (out_of_fuel (A := A)).
Proof. done. Qed.

Lemma keeps_get_d : keeps proj get_d.
Proof. done. Qed.

Lemma keeps_check (r : error + A) : keeps proj (check r).
Proof. by destruct r. Qed.

Lemma keeps_check_with wrap (r : error + A) : keeps proj (check_with wrap r).
Proof. by destruct r. Qed.

Lemma keeps_fail_if wrap r : keeps proj (fail_if wrap r).
Proof. by destruct r. Qed.

Lemma keeps_range_map {lib : Library} m : keeps proj (range_map m).
Proof. done. Qed.

Lemma keeps_call (answer : list Event → error + A) r : keeps proj (call answer r).
Proof. done. Qed.

Lemma keeps_WrapOperation config r : keeps proj (WrapOperation config r).
Proof. done. Qed.

Lemma keeps_op_Wait config r : keeps proj (op_Wait config r).
Proof. done. Qed.

Lemma keeps_try (m : M A) : keeps proj m → keeps proj (try m).
Proof.
  intros Hm w. specialize (Hm w). unfold try.
  by destruct (m w) as [w1 [a|e|]].
Qed.

Lemma keeps_modify_d f :
  (∀ d, proj (f d) = proj d) → keeps proj (modify_d f).
Proof. intros Hf w. apply Hf. Qed.

End keeps_facts.

Lemma keeps_for_each {A R} (proj : ResourceData → R) (l : list A)
    (body : A → M unit) :
  (∀ x, x ∈ l → keeps proj (body x)) → keeps proj (for_each l body).
Proof.
  induction l as [|x l IH]; intros Hbody; [done|]. simpl.
  apply keeps_bind; [apply Hbody; left|].
  intros _. apply IH. intros y Hy. apply Hbody. by right.
Qed.

Create HintDb keeps.

#[local] Hint Resolve keeps_ret keeps_raise keeps_out_of_fuel keeps_get_d
  keeps_check keeps_check_with keeps_fail_if keeps_range_map keeps_call
  keeps_WrapOperation keeps_op_Wait : keeps.

Lemma keeps_operation {R} (proj : ResourceData → R) config r wrap1 wrap2 :
  keeps proj (err ← WrapOperation config r; fail_if wrap1 err ;;
              err ← op_Wait config r; fail_if wrap2 err).
Proof.
  repeat (apply keeps_bind; [auto with keeps|intros ?]). auto with keeps.
Qed.

(** ** The update mask of a change loop *)

Section mask_facts.
Context {pkg : Package} {lib : Library} (config : Config).

(** The paths a loop collects: the mapped path of each entry whose key has
    changed, in the order of the visit. *)
Lemma ChangeLoop_mask d key entries : ∀ st,
  cl_updatePath (foldl (ChangeLoop_step d key) st entries)
  = cl_updatePath st
    ++ ((λ e, updateMaskPath (as_string (rd_Get d "config.0.version")) e.2)
          <$> filter (λ e, rd_HasChange d (key e.1) = true) entries).
Proof.
  induction entries as [|[field path] entries IH]; intros st; simpl.
  { by rewrite app_nil_r. }
  rewrite IH. destruct (rd_HasChange d (key field)) eqn:Hc.
  - rewrite filter_cons_True by done.
    rewrite (ChangeLoop_step_path d key st field path Hc).
    by rewrite <-app_assoc.
  - rewrite filter_cons_False by (simpl; congruence).
    unfold ChangeLoop_step. simpl. by rewrite Hc.
Qed.

Lemma run_onDone_silent d key entries :
  silent (run_onDone (foldl (ChangeLoop_step d key) ChangeLoop_start entries)).
Proof.
  destruct (ChangeLoop_closures d key entries ChangeLoop_start) as [Hall _];
    [by apply Forall_nil|done|].
  intros w. unfold run_onDone. by rewrite for_each_SetPartial.
Qed.

End mask_facts.

(** X5: when the update request can be built and some field of the cluster
    table has changed, updateKafkaClusterParams sends one update request, built
    by kafkaClusterUpdateRequest, whose mask lists the mapped path of each
    changed field of the table, in the order the table is visited, and of no
    other field; the only event after it is the wait on that request. *)
Theorem updateKafkaClusterParams_mask {pkg : Package} {lib : Library}
    (config : Config) (w : World) (req : UpdateClusterRequest) :
  let d := w_d w in
  let changed :=
    filter (λ e, rd_HasChange d e.1 = true)
           (range_order (w_ranges w) mdbKafkaUpdateFieldsMap) in
  let update :=
    Cluster_Update
      {| ucr_ClusterId := ucr_ClusterId req; ucr_Name := ucr_Name req;
         ucr_Description := ucr_Description req; ucr_Labels := ucr_Labels req;
         ucr_ConfigSpec := ucr_ConfigSpec req;
         ucr_SecurityGroupIds := ucr_SecurityGroupIds req;
         ucr_UpdateMask :=
           Some ((λ e, updateMaskPath (as_string (rd_Get d "config.0.version")) e.2)
                   <$> changed) |} in
  kafkaClusterUpdateRequest d = inr req →
  changed ≠ [] →
  ∃ rest,
    w_trace (updateKafkaClusterParams config w).1
    = w_trace w ++ Sent update :: rest
    ∧ (rest = [] ∨ ∃ err, rest = [Waited update err]).
Proof.
  intros d changed update Hreq Hne.
  unfold updateKafkaClusterParams.
  unfold mbind at 1 2 3, M_bind at 1 2 3, get_d, range_map. simpl.
  fold d. rewrite Hreq. simpl.
  pose proof (run_onDone_silent d id
                (range_order (w_ranges w) mdbKafkaUpdateFieldsMap)) as Hdone.
  rewrite (ChangeLoop_mask d id) in *. simpl. fold changed. fold update.
  rewrite decide_False
    by (rewrite length_fmap; destruct changed; [done|simpl; lia]).
  unfold mbind, M_bind, WrapOperation, op_Wait, get_trace, emit. simpl.
  destruct (sdk_Operation _ _ _); simpl.
  { exists []. split; [done|by left]. }
  destruct (sdk_Wait _ _ _) as [err|] eqn:Hw; simpl.
  { exists [Waited update (Some err)].
    split; [by rewrite <-app_assoc|right; by eexists]. }
  rewrite Hdone. simpl.
  exists [Waited update None]. split; [by rewrite <-app_assoc|right; by eexists].
Qed.

Lemma updateKafkaClusterParams_mask_witness :
  let config := {| sdk := Sample.sdk_ok |} in
  let w := Sample.world
             (Sample.data "c1"
                ["config.0.kafka.0.kafka_config.0.log_preallocate"; "name"]) in
  let update :=
    Cluster_Update
      {| ucr_ClusterId := "c1"; ucr_Name := "res"; ucr_Description := "";
         ucr_Labels := []; ucr_ConfigSpec := Sample.configSpec;
         ucr_SecurityGroupIds := [];
         ucr_UpdateMask :=
           Some ["name"; "config_spec.kafka.kafka_config_2_8.log_preallocate"] |} in
  ∃ rest,
    w_trace (updateKafkaClusterParams (pkg := Sample.package)
               (lib := Sample.library) config w).1
    = Sent update :: rest
    ∧ (rest = [] ∨ ∃ err, rest = [Waited update err]).
Proof.
  intros config w update.
  apply (updateKafkaClusterParams_mask (pkg := Sample.package)
           (lib := Sample.library) config w
           {| ucr_ClusterId := "c1"; ucr_Name := "res"; ucr_Description := "";
              ucr_Labels := []; ucr_ConfigSpec := Sample.configSpec;
              ucr_SecurityGroupIds := []; ucr_UpdateMask := None |}).
  - reflexivity.
  - vm_compute. discriminate.
Defined.

(** X6: when some field of the topic table, asked about at the index of the
    topic, has changed, updateKafkaTopic sends one update request for the
    topic; it carries the cluster id, the topic name, the spec, and a mask
    listing the mapped path of each changed field, in the order the table is
    visited, and of no other field.  The suffix of the mapped paths comes from
    the configured version, not from the version argument.  The only event
    after the request is the wait on it. *)
Theorem updateKafkaTopic_mask {lib : Library}
    (config : Config) (topicName : string) (topicSpec : IndexedTopicSpec)
    (version : string) (w : World) :
  let d := w_d w in
  let changed :=
    filter (λ e, rd_HasChange d (Sprintf_d e.1 (index topicSpec)) = true)
           (range_order (w_ranges w) mdbKafkaUpdateTopicFieldsMap) in
  let update :=
    Topic_Update
      {| utr_ClusterId := rd_Id d; utr_TopicName := topicName;
         utr_TopicSpec := topic topicSpec;
         utr_UpdateMask :=
           Some ((λ e, updateMaskPath (as_string (rd_Get d "config.0.version")) e.2)
                   <$> changed) |} in
  changed ≠ [] →
  ∃ rest,
    w_trace (updateKafkaTopic config topicName topicSpec version w).1
    = w_trace w ++ Sent update :: rest
    ∧ (rest = [] ∨ ∃ err, rest = [Waited update err]).
Proof.
  intros d changed update Hne.
  unfold updateKafkaTopic.
  unfold mbind at 1 2, M_bind at 1 2, get_d, range_map. simpl. fold d.
  pose proof (run_onDone_silent d (λ field, Sprintf_d field (index topicSpec))
                (range_order (w_ranges w) mdbKafkaUpdateTopicFieldsMap)) as Hdone.
  rewrite (ChangeLoop_mask d (λ field, Sprintf_d field (index topicSpec))).
  simpl. fold changed. fold update.
  rewrite decide_False
    by (rewrite length_fmap; destruct changed; [done|simpl; lia]).
  unfold mbind, M_bind, WrapOperation, op_Wait, get_trace, emit. simpl.
  destruct (sdk_Operation _ _ _); simpl.
  { exists []. split; [done|by left]. }
  destruct (sdk_Wait _ _ _) as [err|] eqn:Hw; simpl.
  { exists [Waited update (Some err)].
    split; [by rewrite <-app_assoc|right; by eexists]. }
  rewrite Hdone. simpl.
  exists [Waited update None]. split; [by rewrite <-app_assoc|right; by eexists].
Qed.

Lemma updateKafkaTopic_mask_witness :
  let config := {| sdk := Sample.sdk_ok |} in
  let w := Sample.world
             (Sample.data "c1"
                ["topic.1.topic_config.0.flush_ms"; "topic.1.partitions";
                 "topic.0.name"]) in
  let spec := {| index := 1; topic := mkTopicSpec "events" |} in
  let update :=
    Topic_Update
      {| utr_ClusterId := "c1"; utr_TopicName := "events";
         utr_TopicSpec := mkTopicSpec "events";
         utr_UpdateMask :=
           Some ["topic_spec.partitions";
                 "topic_spec.topic_config_2_8.flush_ms"] |} in
  ∃ rest,
    w_trace (updateKafkaTopic (lib := Sample.library)
               config "events" spec "3.0" w).1
    = Sent update :: rest
    ∧ (rest = [] ∨ ∃ err, rest = [Waited update err]).
Proof.
  intros config w spec update.
  apply (updateKafkaTopic_mask (lib := Sample.library)
           config "events" spec "3.0" w).
  vm_compute. discriminate.
Defined.

(** ** The request of the VPC address update *)

(** X7: the Update of the VPC address sends one update request.  Its mask
    names, in the fixed order labels, name, description, exactly the
    attributes that have changed; the request carries the new value of a
    changed attribute and the zero value of an unchanged one.  The expansion
    of the labels is only needed when they have changed. *)
Theorem resourceYandexVPCAddressUpdate_request {pkg : Package}
    (config : Config) (w : World) (labels : list (string * string)) :
  let d := w_d w in
  let changed k := rd_HasChange d k in
  let update :=
    Address_Update
      {| uar_AddressId := rd_Id d;
         uar_UpdateMask :=
           (if changed "labels" then ["labels"] else [])
           ++ (if changed "name" then ["name"] else [])
           ++ (if changed "description" then ["description"] else []);
         uar_Name := if changed "name" then as_string (rd_Get d "name") else "";
         uar_Description :=
           if changed "description" then as_string (rd_Get d "description")
           else "";
         uar_Labels := if changed "labels" then labels else [] |} in
  (changed "labels" = true → expandLabels (rd_Get d "labels") = inr labels) →
  ∃ rest,
    w_trace (resourceYandexVPCAddressUpdate config w).1
    = w_trace w ++ Sent update :: rest.
Proof.
  intros d changed update Hlabels. subst update changed.
  unfold resourceYandexVPCAddressUpdate.
  unfold mbind at 1 2 3, M_bind at 1 2 3, d_Partial, modify_d, get_d. simpl.
  fold d in Hlabels |- *.
  assert (∀ req (w1 : World) (k : option error → M unit),
            (∀ err, extends (k err)) →
            ∃ rest, w_trace ((WrapOperation config req ≫= k) w1).1
                    = w_trace w1 ++ Sent req :: rest) as Hsend.
  { intros req w1 k Hk. unfold mbind, M_bind, WrapOperation, get_trace, emit.
    simpl. destruct (Hk (sdk_Operation (sdk config) (w_trace w1) req)
                        {| w_trace := w_trace w1 ++ [Sent req];
                           w_d := w_d w1; w_ranges := w_ranges w1 |})
      as (evs & Ht & _).
    exists evs. rewrite Ht. simpl. by rewrite <-app_assoc. }
  assert (∀ req d0 err, extends
            (fail_if (λ err, addressError ("while requesting API to update Address "
                                +:+ fmt_q (rd_Id d0) +:+ ": " +:+ Error_ err)) err ;;
             err ← op_Wait config (Address_Update req);
             fail_if (λ err, addressError ("updating Address " +:+ fmt_q (rd_Id d0)
                                +:+ ": " +:+ Error_ err)) err ;;
             d_Partial false ;;
             resourceYandexVPCAddressRead config)) as Htail.
  { intros req d0 err.
    apply extends_bind; [apply silent_extends; auto with silent|]. intros _.
    apply extends_bind; [apply extends_op_Wait|]. intros err'.
    apply extends_bind; [apply silent_extends; auto with silent|]. intros _.
    apply extends_bind; [by apply silent_extends|]. intros _.
    apply extends_bind; [apply silent_extends, silent_get_d|]. intros d1.
    apply extends_yandexVPCAddressRead. }
  destruct (rd_HasChange d "labels") eqn:Hl.
  - rewrite (Hlabels eq_refl). simpl.
    destruct (rd_HasChange d "name"), (rd_HasChange d "description"); simpl;
      apply (Hsend _ {| w_trace := w_trace w |}); intros err; apply Htail.
  - simpl.
    destruct (rd_HasChange d "name"), (rd_HasChange d "description"); simpl;
      apply (Hsend _ {| w_trace := w_trace w |}); intros err; apply Htail.
Qed.

Lemma resourceYandexVPCAddressUpdate_request_witness :
  let config := {| sdk := Sample.sdk_ok |} in
  let w := Sample.world (Sample.data "a1" ["description"; "labels"]) in
  ∃ rest,
    w_trace (resourceYandexVPCAddressUpdate (pkg := Sample.package) config w).1
    = Sent (Address_Update
              {| uar_AddressId := "a1";
                 uar_UpdateMask := ["labels"; "description"];
                 uar_Name := ""; uar_Description := ""; uar_Labels := [] |})
      :: rest.
Proof.
  intros config w.
  apply (resourceYandexVPCAddressUpdate_request (pkg := Sample.package)
           config w []).
  reflexivity.
Defined.

(** X8: when the labels of a VPC address have changed and cannot be expanded,
    Update returns the error of the expansion as it is, without the address
    prefix, makes no remote call, and leaves partial mode switched on. *)
Theorem resourceYandexVPCAddressUpdate_labels_error {pkg : Package}
    (config : Config) (w : World) (err : error) :
  rd_HasChange (w_d w) "labels" = true →
  expandLabels (rd_Get (w_d w) "labels") = inl err →
  let r := resourceYandexVPCAddressUpdate config w in
  r.2 = Raise err
  ∧ w_trace r.1 = w_trace w
  ∧ rd_partial (w_d r.1) = true.
Proof.
  intros Hchanged Hexpand r.
  assert (r.2 = Raise err ∧ r.1 = (d_Partial true w).1) as [Hout ->].
  { subst r. split; unfold resourceYandexVPCAddressUpdate;
      unfold mbind at 1 2 3, M_bind at 1 2 3, d_Partial, modify_d, get_d; simpl;
      rewrite Hchanged, Hexpand; done. }
  done.
Qed.

Lemma resourceYandexVPCAddressUpdate_labels_error_witness :
  let config := {| sdk := Sample.sdk_ok |} in
  let w := Sample.world (Sample.data "a1" ["labels"]) in
  let r := resourceYandexVPCAddressUpdate (pkg := Scenario.package_bad_labels)
             config w in
  r.2 = Raise (Errorf "labels: unexpected value")
  ∧ w_trace r.1 = w_trace w
  ∧ rd_partial (w_d r.1) = true.
Proof.
  intros config w.
  apply (resourceYandexVPCAddressUpdate_labels_error
           (pkg := Scenario.package_bad_labels) config w); reflexivity.
Defined.

(** ** What Read asks of the remote side *)

Section read_only_facts.
Context {pkg : Package} {lib : Library} (config : Config).

Lemma only_listKafkaTopics_pages (E : Event → Prop) id :
  (∀ tok, E (Sent (Topic_List id tok))) →
  ∀ fuel tok ret, only E (listKafkaTopics_pages config fuel id tok ret).
Proof.
  intros HE. induction fuel as [|fuel IH]; intros tok ret; simpl.
  { by apply only_silent. }
  apply only_bind; [by apply only_call|]. intros resp.
  apply only_bind; [apply only_silent; auto with silent|]. intros [topics next].
  case_decide; [by apply only_silent|apply IH].
Qed.

Lemma only_listKafkaUsers_pages (E : Event → Prop) id :
  (∀ tok, E (Sent (User_List id tok))) →
  ∀ fuel tok ret, only E (listKafkaUsers_pages config fuel id tok ret).
Proof.
  intros HE. induction fuel as [|fuel IH]; intros tok ret; simpl.
  { by apply only_silent. }
  apply only_bind; [by apply only_call|]. intros resp.
  apply only_bind; [apply only_silent; auto with silent|]. intros [users next].
  case_decide; [by apply only_silent|apply IH].
Qed.

Lemma only_read_kafka fuel :
  only is_read (resourceYandexMDBKafkaClusterRead config fuel).
Proof.
  unfold resourceYandexMDBKafkaClusterRead.
  apply only_bind; [apply only_silent; auto with silent|]. intros d.
  apply only_bind; [by apply only_call|]. intros [err|cluster].
  { apply only_silent; auto with silent. }
  repeat first
    [ apply only_silent; solve [auto with silent]
    | by apply only_listKafkaTopics_pages
    | by apply only_listKafkaUsers_pages
    | apply only_bind; [|intros ?] ].
Qed.

Lemma only_read_address id (E : Event → Prop) :
  E (Sent (Address_Get id)) → only E (yandexVPCAddressRead config id).
Proof.
  intros HE. unfold yandexVPCAddressRead.
  apply only_bind; [by apply only_call|]. intros [err|address].
  { apply only_silent. unfold handleAddressNotFoundError. auto with silent. }
  apply only_silent.
  repeat (apply silent_bind; [auto with silent|intros _]).
  auto with silent.
Qed.

End read_only_facts.

(** X9: the Read of the Kafka cluster and the Read of the VPC address ask the
    remote side only for the resource and, for the cluster, for the pages of
    its topics and users: neither starts an operation nor waits for one,
    whatever the remote side answers. *)
Theorem read_only_reads {pkg : Package} {lib : Library} (config : Config)
    (fuel : nat) :
  only is_read (resourceYandexMDBKafkaClusterRead config fuel)
  ∧ only is_read (resourceYandexVPCAddressRead config).
Proof.
  split.
  - apply only_read_kafka.
  - unfold resourceYandexVPCAddressRead.
    apply only_bind; [apply only_silent; auto with silent|]. intros d.
    by apply only_read_address.
Qed.

(** ** The calls and the data of each step of the reconciliation *)

Section step_calls.
Context {pkg : Package} {lib : Library} (config : Config).
Context (C : Request → Prop).

Lemma only_about_operation r wrap1 wrap2 :
  C r →
  only (about C) (err ← WrapOperation config r; fail_if wrap1 err ;;
                  err ← op_Wait config r; fail_if wrap2 err).
Proof. intros Hr. by apply only_operation. Qed.

Lemma only_deleteKafkaTopic name :
  (∀ id, C (Topic_Delete id name)) → only (about C) (deleteKafkaTopic config name).
Proof.
  intros HC. unfold deleteKafkaTopic.
  apply only_bind; [apply only_silent; auto with silent|]. intros d.
  by apply only_about_operation.
Qed.

Lemma only_createKafkaTopic spec :
  (∀ id, C (Topic_Create id spec)) → only (about C) (createKafkaTopic config spec).
Proof.
  intros HC. unfold createKafkaTopic.
  apply only_bind; [apply only_silent; auto with silent|]. intros d.
  by apply only_about_operation.
Qed.

Lemma only_createKafkaTopics specs : ∀ toAdd,
  (∀ id spec, C (Topic_Create id spec)) →
  only (about C) (createKafkaTopics config specs toAdd).
Proof.
  induction specs as [|spec specs IH]; intros toAdd HC; simpl.
  { by apply only_silent. }
  apply only_bind; [by apply only_try, only_createKafkaTopic|].
  intros [err|[]]; [by apply only_silent|by apply IH].
Qed.

Lemma only_updateKafkaTopic name spec version :
  (∀ req, C (Topic_Update req)) →
  only (about C) (updateKafkaTopic config name spec version).
Proof.
  intros HC. unfold updateKafkaTopic.
  apply only_bind; [apply only_silent; auto with silent|]. intros d.
  apply only_bind; [apply only_silent; auto with silent|]. intros entries.
  case_decide; [by apply only_silent|].
  apply only_bind; [apply only_WrapOperation; apply HC|]. intros err1.
  apply only_bind; [apply only_silent; auto with silent|]. intros _.
  apply only_bind; [apply only_op_Wait; intros ?; apply HC|]. intros err2.
  apply only_bind; [apply only_silent; auto with silent|]. intros _.
  apply only_silent, run_onDone_silent.
Qed.

Lemma only_updateKafkaClusterParams :
  (∀ req, C (Cluster_Update req)) →
  only (about C) (updateKafkaClusterParams config).
Proof.
  intros HC. unfold updateKafkaClusterParams.
  apply only_bind; [apply only_silent; auto with silent|]. intros d.
  apply only_bind; [apply only_silent; auto with silent|]. intros req.
  apply only_bind; [apply only_silent; auto with silent|]. intros entries.
  case_decide; [by apply only_silent|].
  apply only_bind; [apply only_WrapOperation; apply HC|]. intros err1.
  apply only_bind; [apply only_silent; auto with silent|]. intros _.
  apply only_bind; [apply only_op_Wait; intros ?; apply HC|]. intros err2.
  apply only_bind; [apply only_silent; auto with silent|]. intros _.
  apply only_silent, run_onDone_silent.
Qed.

Lemma only_updateKafkaClusterTopics fuel :
  (∀ r, is_Some (topic_phase r) → C r) →
  only (about C) (updateKafkaClusterTopics config fuel).
Proof.
  intros HC. unfold updateKafkaClusterTopics.
  apply only_bind; [apply only_silent; auto with silent|]. intros d.
  apply only_bind.
  { apply only_listKafkaTopics_pages. intros tok. by apply HC. }
  intros currTopics.
  apply only_bind; [apply only_silent; auto with silent|]. intros targetTopics.
  destruct (kafkaTopicsDiff _ _) as [toDelete toAddSpecs].
  apply only_bind.
  { apply only_for_each. intros name _. apply only_deleteKafkaTopic.
    intros id. by apply HC. }
  intros _.
  apply only_bind.
  { apply only_createKafkaTopics. intros id spec. by apply HC. }
  intros toAdd.
  destruct (negb _); [by apply only_silent|].
  destruct (rd_GetChange d "topic") as [oldSpecs newSpecs].
  apply only_bind; [apply only_silent; auto with silent|]. intros changed.
  apply only_bind.
  { apply only_for_each. intros t _. apply only_updateKafkaTopic.
    intros req. by apply HC. }
  intros _. by apply only_silent.
Qed.

Lemma only_deleteKafkaUser name :
  (∀ id, C (User_Delete id name)) → only (about C) (deleteKafkaUser config name).
Proof.
  intros HC. unfold deleteKafkaUser.
  apply only_bind; [apply only_silent; auto with silent|]. intros d.
  by apply only_about_operation.
Qed.

Lemma only_createKafkaUser spec :
  (∀ id, C (User_Create id spec)) → only (about C) (createKafkaUser config spec).
Proof.
  intros HC. unfold createKafkaUser.
  apply only_bind; [apply only_silent; auto with silent|]. intros d.
  by apply only_about_operation.
Qed.

Lemma only_updateKafkaUser req :
  C (User_Update req) → only (about C) (updateKafkaUser config req).
Proof.
  intros HC. unfold updateKafkaUser.
  apply only_bind; [apply only_silent; auto with silent|]. intros d.
  by apply only_about_operation.
Qed.

Lemma only_updateKafkaUsers oldSpecs newSpecs :
  (∀ req, C (User_Update req)) →
  only (about C) (updateKafkaUsers config oldSpecs newSpecs).
Proof.
  intros HC. unfold updateKafkaUsers.
  apply only_bind; [apply only_silent; auto with silent|]. intros m.
  apply only_for_each. intros spec _. unfold updateKafkaUsers_step.
  apply only_bind; [apply only_silent; auto with silent|]. intros d.
  apply only_bind; [apply only_silent; auto with silent|]. intros user.
  destruct (m !! us_Name user) as [u|]; [|by apply only_silent].
  case_decide; [|by apply only_silent].
  by apply only_updateKafkaUser.
Qed.

Lemma only_updateKafkaClusterUsers fuel :
  (∀ r, is_Some (user_phase r) → C r) →
  only (about C) (updateKafkaClusterUsers config fuel).
Proof.
  intros HC. unfold updateKafkaClusterUsers.
  apply only_bind; [apply only_silent; auto with silent|]. intros d.
  apply only_bind.
  { apply only_listKafkaUsers_pages. intros tok. by apply HC. }
  intros currUsers.
  apply only_bind; [apply only_silent; auto with silent|]. intros targetUsers.
  destruct (kafkaUsersDiff _ _) as [toDelete toAdd].
  apply only_bind.
  { apply only_for_each. intros name _. apply only_deleteKafkaUser.
    intros id. by apply HC. }
  intros _.
  apply only_bind.
  { apply only_for_each. intros spec _. apply only_createKafkaUser.
    intros id. by apply HC. }
  intros _.
  destruct (rd_GetChange d "user") as [oldSpecs newSpecs].
  apply only_bind.
  { apply only_updateKafkaUsers. intros req. by apply HC. }
  intros _. by apply only_silent.
Qed.

End step_calls.

Section step_data.
Context {pkg : Package} {lib : Library} (config : Config).
Context {R : Type} (proj : ResourceData → R).

Ltac keeps_step :=
  apply keeps_bind; [solve [auto with keeps]|intros ?].

Lemma keeps_listKafkaTopics_pages id : ∀ fuel tok ret,
  keeps proj (listKafkaTopics_pages config fuel id tok ret).
Proof.
  induction fuel as [|fuel IH]; intros tok ret; simpl; [auto with keeps|].
  keeps_step. apply keeps_bind; [auto with keeps|]. intros [topics next].
  case_decide; [auto with keeps|apply IH].
Qed.

Lemma keeps_listKafkaUsers_pages id : ∀ fuel tok ret,
  keeps proj (listKafkaUsers_pages config fuel id tok ret).
Proof.
  induction fuel as [|fuel IH]; intros tok ret; simpl; [auto with keeps|].
  keeps_step. apply keeps_bind; [auto with keeps|]. intros [users next].
  case_decide; [auto with keeps|apply IH].
Qed.

Lemma keeps_deleteKafkaTopic name : keeps proj (deleteKafkaTopic config name).
Proof. unfold deleteKafkaTopic. keeps_step. apply keeps_operation. Qed.

Lemma keeps_createKafkaTopic spec : keeps proj (createKafkaTopic config spec).
Proof. unfold createKafkaTopic. keeps_step. apply keeps_operation. Qed.

Lemma keeps_createKafkaTopics specs : ∀ toAdd,
  keeps proj (createKafkaTopics config specs toAdd).
Proof.
  induction specs as [|spec specs IH]; intros toAdd; simpl; [auto with keeps|].
  apply keeps_bind; [apply keeps_try, keeps_createKafkaTopic|].
  intros [err|[]]; [auto with keeps|apply IH].
Qed.

Lemma keeps_deleteKafkaUser name : keeps proj (deleteKafkaUser config name).
Proof. unfold deleteKafkaUser. keeps_step. apply keeps_operation. Qed.

Lemma keeps_createKafkaUser spec : keeps proj (createKafkaUser config spec).
Proof. unfold createKafkaUser. keeps_step. apply keeps_operation. Qed.

Lemma keeps_updateKafkaUser req : keeps proj (updateKafkaUser config req).
Proof. unfold updateKafkaUser. keeps_step. apply keeps_operation. Qed.

Lemma keeps_updateKafkaUsers oldSpecs newSpecs :
  keeps proj (updateKafkaUsers config oldSpecs newSpecs).
Proof.
  unfold updateKafkaUsers. keeps_step.
  apply keeps_for_each. intros spec _. unfold updateKafkaUsers_step.
  keeps_step. keeps_step.
  destruct (_ !! _) as [u|]; [|auto with keeps].
  case_decide; [apply keeps_updateKafkaUser|auto with keeps].
Qed.

Context (Hproj : ∀ k, keeps proj (d_SetPartial k)).

Lemma keeps_run_onDone d key entries :
  keeps proj (run_onDone (foldl (ChangeLoop_step d key) ChangeLoop_start entries)).
Proof.
  destruct (ChangeLoop_closures d key entries ChangeLoop_start) as [Hall _];
    [by apply Forall_nil|done|].
  unfold run_onDone. apply keeps_for_each. intros f Hf.
  rewrite Forall_forall in Hall. rewrite (Hall f Hf). apply Hproj.
Qed.

Lemma keeps_updateKafkaTopic name spec version :
  keeps proj (updateKafkaTopic config name spec version).
Proof.
  unfold updateKafkaTopic. keeps_step. keeps_step.
  case_decide; [auto with keeps|].
  do 4 keeps_step. apply keeps_run_onDone.
Qed.

Lemma keeps_updateKafkaClusterParams :
  keeps proj (updateKafkaClusterParams config).
Proof.
  unfold updateKafkaClusterParams. do 3 keeps_step.
  case_decide; [auto with keeps|].
  do 4 keeps_step. apply keeps_run_onDone.
Qed.

Lemma keeps_updateKafkaClusterTopics fuel :
  keeps proj (updateKafkaClusterTopics config fuel).
Proof.
  unfold updateKafkaClusterTopics. keeps_step.
  apply keeps_bind; [apply keeps_listKafkaTopics_pages|]. intros currTopics.
  keeps_step.
  destruct (kafkaTopicsDiff _ _) as [toDelete toAddSpecs].
  apply keeps_bind.
  { apply keeps_for_each. intros name _. apply keeps_deleteKafkaTopic. }
  intros _.
  apply keeps_bind; [apply keeps_createKafkaTopics|]. intros toAdd.
  destruct (negb _); [auto with keeps|].
  destruct (rd_GetChange _ "topic") as [oldSpecs newSpecs].
  keeps_step.
  apply keeps_bind.
  { apply keeps_for_each. intros t _. apply keeps_updateKafkaTopic. }
  intros _. apply Hproj.
Qed.

Lemma keeps_updateKafkaClusterUsers fuel :
  keeps proj (updateKafkaClusterUsers config fuel).
Proof.
  unfold updateKafkaClusterUsers. keeps_step.
  apply keeps_bind; [apply keeps_listKafkaUsers_pages|]. intros currUsers.
  keeps_step.
  destruct (kafkaUsersDiff _ _) as [toDelete toAdd].
  destruct (rd_GetChange _ "user") as [oldSpecs newSpecs].
  apply keeps_bind.
  { apply keeps_for_each. intros name _. apply keeps_deleteKafkaUser. }
  intros _. apply keeps_bind.
  { apply keeps_for_each. intros spec _. apply keeps_createKafkaUser. }
  intros _. apply keeps_bind; [apply keeps_updateKafkaUsers|].
  intros _. apply Hproj.
Qed.

End step_data.

(** ** The marker of the user reconciliation *)

Section marks_facts.
Context {A B : Type} (k : string).

Lemma marks_bind (m : M A) (f : A → M B) :
  keeps rd_partials m → (∀ a, marks k (f a)) → marks k (m ≫= f).
Proof.
  intros Hm Hf w. unfold markers_added, mbind, M_bind.
  specialize (Hm w).
  destruct (m w) as [w1 [a|e|]]; simpl in *;
    [|by rewrite Hm, app_nil_r..].
  rewrite <-Hm. apply Hf.
Qed.

End marks_facts.

(** X10: updateKafkaClusterUsers sets the marker of the user collection when
    every step of the user reconciliation has succeeded, as the one marker it
    adds; when the listing, a deletion, a creation or an update fails, it adds
    no marker at all. *)
Theorem updateKafkaClusterUsers_marker {pkg : Package} {lib : Library}
    (config : Config) (fuel : nat) (w : World) :
  markers_added (updateKafkaClusterUsers config fuel) w
    (match (updateKafkaClusterUsers config fuel w).2 with
     | Return _ => ["user"]
     | _ => []
     end).
Proof.
  revert w. change (marks "user" (updateKafkaClusterUsers config fuel)).
  unfold updateKafkaClusterUsers.
  apply marks_bind; [auto with keeps|]. intros d.
  apply marks_bind; [apply keeps_listKafkaUsers_pages|]. intros currUsers.
  apply marks_bind; [auto with keeps|]. intros targetUsers.
  destruct (kafkaUsersDiff _ _) as [toDelete toAdd].
  destruct (rd_GetChange d "user") as [oldSpecs newSpecs].
  apply marks_bind.
  { apply keeps_for_each. intros name _. apply keeps_deleteKafkaUser. }
  intros _. apply marks_bind.
  { apply keeps_for_each. intros spec _. apply keeps_createKafkaUser. }
  intros _. apply marks_bind; [apply keeps_updateKafkaUsers|].
  intros _ w. done.
Qed.

(** ** Partial mode over an Update of the cluster *)

Section partial_facts.
Context {pkg : Package} {lib : Library} (config : Config).

Lemma settles_bind {A B} (G : Event → Prop) (m : M A) (f : A → M B) :
  only (λ ev, ¬ G ev) m →
  keeps rd_partial m →
  (∀ a, settles_partial G (f a)) →
  settles_partial G (m ≫= f).
Proof.
  intros Hm Hkeep Hf w Hw. unfold mbind, M_bind.
  destruct (Hm w) as (evs1 & Ht1 & Hall). specialize (Hkeep w).
  assert (¬ Exists G evs1) as Hno.
  { intros Hex. apply Exists_exists in Hex as (ev & Hin & HG).
    rewrite Forall_forall in Hall. by apply (Hall _ Hin). }
  destruct (m w) as [w1 [a|e|]]; simpl in *.
  - destruct (Hf a w1) as (evs2 & Ht2 & Hiff & Hret); [congruence|].
    exists (evs1 ++ evs2). rewrite Ht2, Ht1, <-app_assoc.
    split; [done|]. split; [|done].
    rewrite Hiff, Exists_app.
    split; [intros Hex; by right|intros [Hex|Hex]; [by apply Hno in Hex|done]].
  - exists evs1. split; [done|]. split; [|done].
    rewrite Hkeep, Hw. split; [done|]. intros Hex. by apply Hno in Hex.
  - exists evs1. split; [done|]. split; [|done].
    rewrite Hkeep, Hw. split; [done|]. intros Hex. by apply Hno in Hex.
Qed.

Lemma keeps_d_Set {R} (proj : ResourceData → R) k v :
  (∀ d g, proj {| rd_Id := rd_Id d; rd_Get := g; rd_GetOk := rd_GetOk d;
                  rd_HasChange := rd_HasChange d;
                  rd_GetChange := rd_GetChange d;
                  rd_SetError := rd_SetError d; rd_partial := rd_partial d;
                  rd_partials := rd_partials d |} = proj d) →
  keeps proj (d_Set k v).
Proof.
  intros Hproj. unfold d_Set.
  apply keeps_bind; [auto with keeps|]. intros d.
  destruct (rd_SetError d k v); [auto with keeps|].
  apply keeps_bind; [|auto with keeps].
  apply keeps_modify_d. intros d'. apply Hproj.
Qed.

Lemma keeps_partial_read fuel :
  keeps rd_partial (resourceYandexMDBKafkaClusterRead config fuel).
Proof.
  assert (∀ k v, keeps rd_partial (d_Set k v)) as Hset
    by (intros; by apply keeps_d_Set).
  assert (∀ k v, keeps rd_partial (d_Set_check k v)) as Hcheck.
  { intros k v. unfold d_Set_check. apply keeps_bind; [apply Hset|].
    intros [err|]; auto with keeps. }
  unfold resourceYandexMDBKafkaClusterRead.
  apply keeps_bind; [auto with keeps|]. intros d.
  apply keeps_bind; [auto with keeps|]. intros [err|cluster].
  { unfold handleNotFoundError.
    destruct err as [code desc|text]; [|auto with keeps].
    case_decide; [|auto with keeps]. by apply keeps_modify_d. }
  repeat first
    [ solve [auto with keeps]
    | apply Hset | apply Hcheck
    | apply keeps_listKafkaTopics_pages
    | apply keeps_listKafkaUsers_pages
    | apply keeps_bind; [|intros ?] ].
Qed.

Lemma read_asks_first fuel w :
  ∃ rest,
    w_trace (resourceYandexMDBKafkaClusterRead config fuel w).1
    = w_trace w ++ Sent (Cluster_Get (rd_Id (w_d w))) :: rest.
Proof.
  unfold resourceYandexMDBKafkaClusterRead.
  unfold mbind at 1 2, M_bind at 1 2, get_d, call, get_trace, emit.
  simpl.
  match goal with
  | |- ∃ rest, w_trace (?k ?w1).1 = _ =>
      assert (extends k) as Hk; [|destruct (Hk w1) as (rest & Hr & _)]
  end.
  { destruct (sdk_Cluster_Get _ _ _) as [err|cluster].
    - apply silent_extends. auto with silent.
    - eapply emits_weaken; [|done].
      repeat first
        [ apply only_silent; solve [auto with silent]
        | by apply (only_listKafkaTopics_pages config (λ _, True))
        | by apply (only_listKafkaUsers_pages config (λ _, True))
        | apply (only_bind (λ _, True)); [|intros ?] ]. }
  exists rest. rewrite Hr. simpl. by rewrite <-app_assoc.
Qed.

End partial_facts.

(** X11: the Update of the Kafka cluster switches partial mode on before its
    first step and switches it off only when the parameters, the topics and
    the users have all been reconciled: at the end of a run partial mode is
    off exactly when the final read of the cluster has been reached, which is
    the case whenever Update returns without error.  A step that fails leaves
    partial mode on, and no read follows it. *)
Theorem update_partial_mode {pkg : Package} {lib : Library} (config : Config)
    (fuel : nat) (w : World) :
  let r := resourceYandexMDBKafkaClusterUpdate config fuel w in
  ∃ evs,
    w_trace r.1 = w_trace w ++ evs
    ∧ (rd_partial (w_d r.1) = false ↔ ∃ id, Sent (Cluster_Get id) ∈ evs)
    ∧ ∀ a, r.2 = Return a → rd_partial (w_d r.1) = false.
Proof.
  assert (∀ k, keeps rd_partial (d_SetPartial k)) as Hmark
    by (intros k; by apply keeps_modify_d).
  assert (∀ C : Request → Prop, (∀ r, C r → ∀ id, r ≠ Cluster_Get id) →
            ∀ ev, about C ev → ¬ is_Cluster_Get ev) as Hclass.
  { intros C HC ev Hev [id ->]. by apply (HC _ Hev id). }
  assert (settles_partial is_Cluster_Get
            (updateKafkaClusterParams config ;;
             d ← get_d;
             (if rd_HasChange d "topic" then updateKafkaClusterTopics config fuel
              else mret ()) ;;
             (if rd_HasChange d "user" then updateKafkaClusterUsers config fuel
              else mret ()) ;;
             d_Partial false ;;
             resourceYandexMDBKafkaClusterRead config fuel)) as Hrest.
  { apply settles_bind; [|by apply keeps_updateKafkaClusterParams|].
    { eapply only_weaken;
        [|apply (only_updateKafkaClusterParams config
                   (λ r, ∃ req, r = Cluster_Update req)); by eexists].
      apply Hclass. by intros r [req ->]. }
    intros _.
    apply settles_bind; [by apply only_silent|auto with keeps|]. intros d.
    apply settles_bind.
    { destruct (rd_HasChange d "topic"); [|by apply only_silent].
      eapply only_weaken;
        [|apply (only_updateKafkaClusterTopics config
                   (λ r, is_Some (topic_phase r))); done].
      apply Hclass. by intros [] [? ?]. }
    { destruct (rd_HasChange d "topic"); [|auto with keeps].
      by apply keeps_updateKafkaClusterTopics. }
    intros _. apply settles_bind.
    { destruct (rd_HasChange d "user"); [|by apply only_silent].
      eapply only_weaken;
        [|apply (only_updateKafkaClusterUsers config
                   (λ r, is_Some (user_phase r))); done].
      apply Hclass. by intros [] [? ?]. }
    { destruct (rd_HasChange d "user"); [|auto with keeps].
      by apply keeps_updateKafkaClusterUsers. }
    intros _ w1 _. unfold mbind, M_bind, d_Partial, modify_d. simpl.
    set (w2 := {| w_trace := w_trace w1 |}).
    destruct (read_asks_first config fuel w2) as (rest & Ht).
    pose proof (keeps_partial_read config fuel w2) as Hkeep.
    exists (Sent (Cluster_Get (rd_Id (w_d w2))) :: rest).
    split; [done|]. split; [|done].
    split; [|done]. intros _. apply Exists_cons_hd. by eexists. }
  intros r. subst r. unfold resourceYandexMDBKafkaClusterUpdate.
  unfold mbind at 1, M_bind at 1, d_Partial, modify_d. simpl.
  set (w0 := {| w_trace := w_trace w |}).
  destruct (Hrest w0 eq_refl) as (evs & Ht & Hiff & Hret).
  exists evs. split; [done|]. split; [|done].
  transitivity (Exists is_Cluster_Get evs); [exact Hiff|].
  rewrite Exists_exists. split.
  - intros (ev & Hin & [id ->]). by exists id.
  - intros [id Hin]. exists (Sent (Cluster_Get id)). split; [done|by exists id].
Qed.

(** ** The topic reconciliation without a version *)

Section version_facts.
Context {pkg : Package} {lib : Library} (config : Config).

Lemma get_d_bind {B} (f : ResourceData → M B) w :
  (get_d ≫= f) w = f (w_d w) w.
Proof. done. Qed.

Lemma never_returns_bind {A B} (m : M A) (f : A → M B) :
  (∀ a, never_returns (f a)) → never_returns (m ≫= f).
Proof.
  intros Hf w b. unfold mbind, M_bind.
  destruct (m w) as [w1 [a|e|]]; simpl; [apply Hf|done..].
Qed.

Lemma never_returns_raise {A} e : never_returns (raise (A := A) e).
Proof. by intros w a. Qed.

End version_facts.

(** ** The calls of the topic reconciliation *)

Section topic_calls.
Context {pkg : Package} {lib : Library} (config : Config).

Lemma M_bind_run {A B} (m : M A) (f : A → M B) w :
  (m ≫= f) w
  = match m w with
    | (w', Return a) => f a w'
    | (w', Raise e) => (w', Raise e)
    | (w', OutOfFuel) => (w', OutOfFuel)
    end.
Proof. reflexivity. Qed.

Lemma requests_app evs1 evs2 :
  requests (evs1 ++ evs2) = requests evs1 ++ requests evs2.
Proof. apply omap_app. Qed.

Lemma requests_operation r wrap1 wrap2 w :
  let m := (err ← WrapOperation config r; fail_if wrap1 err ;;
            err ← op_Wait config r; fail_if wrap2 err) in
  ∃ evs, w_trace (m w).1 = w_trace w ++ evs ∧ requests evs = [r]
         ∧ w_d (m w).1 = w_d w.
Proof.
  simpl. unfold mbind, M_bind, WrapOperation, op_Wait, get_trace, emit. simpl.
  destruct (sdk_Operation _ _ _); simpl.
  { by exists [Sent r]. }
  destruct (sdk_Wait _ _ _) as [err|]; simpl.
  - exists [Sent r; Waited r (Some err)]. by rewrite <-app_assoc.
  - exists [Sent r; Waited r None]. by rewrite <-app_assoc.
Qed.

Lemma requests_deleteKafkaTopic name w :
  let r := deleteKafkaTopic config name w in
  ∃ evs, w_trace r.1 = w_trace w ++ evs
    ∧ requests evs = [Topic_Delete (rd_Id (w_d w)) name]
    ∧ w_d r.1 = w_d w.
Proof.
  unfold deleteKafkaTopic. rewrite get_d_bind. cbv beta zeta.
  apply requests_operation.
Qed.

Lemma requests_createKafkaTopic spec w :
  let r := createKafkaTopic config spec w in
  ∃ evs, w_trace r.1 = w_trace w ++ evs
    ∧ requests evs = [Topic_Create (rd_Id (w_d w)) spec]
    ∧ w_d r.1 = w_d w.
Proof.
  unfold createKafkaTopic. rewrite get_d_bind. cbv beta zeta.
  apply requests_operation.
Qed.

(** The deletions are requested in the order of the list, up to the first
    that fails. *)
Lemma requests_deletes names : ∀ w,
  let r := for_each names (deleteKafkaTopic config) w in
  ∃ evs, w_trace r.1 = w_trace w ++ evs
    ∧ w_d r.1 = w_d w
    ∧ requests evs `prefix_of` (Topic_Delete (rd_Id (w_d w)) <$> names)
    ∧ (∀ a, r.2 = Return a →
         requests evs = Topic_Delete (rd_Id (w_d w)) <$> names).
Proof.
  induction names as [|name names IH]; intros w; simpl.
  { exists []. rewrite app_nil_r. split_and!; done. }
  rewrite M_bind_run.
  destruct (requests_deleteKafkaTopic name w) as (evs1 & Ht1 & Hr1 & Hd1).
  simpl in Ht1, Hd1.
  destruct (deleteKafkaTopic config name w) as [w1 [[]|e|]]; simpl in *.
  - destruct (IH w1) as (evs2 & Ht2 & Hd2 & Hp2 & Hret2).
    exists (evs1 ++ evs2). rewrite Ht2, Ht1, <-app_assoc, Hd2, Hd1.
    rewrite requests_app, Hr1. rewrite Hd1 in Hp2, Hret2. simpl.
    split_and!; [done..| |].
    + by apply prefix_cons.
    + intros a Ha. by rewrite (Hret2 a Ha).
  - exists evs1. rewrite Hr1. split_and!; [done..| |done].
    by eexists.
  - exists evs1. rewrite Hr1. split_and!; [done..| |done].
    by eexists.
Qed.

(** So are the creations; the names returned are those of all the specs. *)
Lemma requests_creates specs : ∀ toAdd w,
  let r := createKafkaTopics config specs toAdd w in
  ∃ evs, w_trace r.1 = w_trace w ++ evs
    ∧ w_d r.1 = w_d w
    ∧ requests evs `prefix_of` (Topic_Create (rd_Id (w_d w)) <$> specs)
    ∧ (∀ a, r.2 = Return a →
         a = toAdd ++ (ts_Name <$> specs)
         ∧ requests evs = Topic_Create (rd_Id (w_d w)) <$> specs).
Proof.
  induction specs as [|spec specs IH]; intros toAdd w; simpl.
  { exists []. rewrite !app_nil_r. split_and!; [done..|].
    intros a [= <-]. done. }
  rewrite M_bind_run. unfold try.
  destruct (requests_createKafkaTopic spec w) as (evs1 & Ht1 & Hr1 & Hd1).
  simpl in Ht1, Hd1.
  destruct (createKafkaTopic config spec w) as [w1 [[]|e|]]; simpl in *.
  - destruct (IH (toAdd ++ [ts_Name spec]) w1)
      as (evs2 & Ht2 & Hd2 & Hp2 & Hret2).
    exists (evs1 ++ evs2). rewrite Ht2, Ht1, <-app_assoc, Hd2, Hd1.
    rewrite requests_app, Hr1. rewrite Hd1 in Hp2, Hret2. simpl.
    split_and!; [done..| |].
    + by apply prefix_cons.
    + intros a Ha. destruct (Hret2 a Ha) as [-> ->].
      by rewrite <-app_assoc.
  - exists evs1. rewrite Hr1. split_and!; [done..| |done].
    by eexists.
  - exists evs1. rewrite Hr1. split_and!; [done..| |done].
    by eexists.
Qed.

(** An update is requested only for a topic with a changed field. *)
Lemma requests_updateKafkaTopic name t version w :
  let r := updateKafkaTopic config name t version w in
  ∃ evs, w_trace r.1 = w_trace w ++ evs
    ∧ rd_HasChange (w_d r.1) = rd_HasChange (w_d w)
    ∧ rd_Id (w_d r.1) = rd_Id (w_d w)
    ∧ (requests evs = []
       ∨ ∃ req, requests evs = [Topic_Update req]
           ∧ utr_ClusterId req = rd_Id (w_d w)
           ∧ utr_TopicName req = name
           ∧ topic_changed (w_d w) t).
Proof.
  intros r.
  pose proof (keeps_updateKafkaTopic config rd_HasChange
                (λ k w, eq_refl) name t version w) as Hhc.
  pose proof (keeps_updateKafkaTopic config rd_Id
                (λ k w, eq_refl) name t version w) as Hid.
  fold r in Hhc, Hid. subst r.
  remember (updateKafkaTopic config name t version w) as r eqn:Hr.
  unfold updateKafkaTopic in Hr. rewrite get_d_bind in Hr. cbv beta in Hr.
  unfold mbind at 1, M_bind at 1, range_map in Hr. simpl in Hr.
  pose proof (run_onDone_silent (w_d w) (λ field, Sprintf_d field (index t))
                (range_order (w_ranges w) mdbKafkaUpdateTopicFieldsMap)) as Hdone.
  rewrite (ChangeLoop_mask (w_d w) (λ field, Sprintf_d field (index t))) in *.
  simpl in *.
  set (changed := filter _ _) in *.
  destruct changed as [|e changed'] eqn:Hchanged.
  { simpl in Hr. subst r. simpl. exists []. rewrite app_nil_r.
    split_and!; [done..|by left]. }
  assert (topic_changed (w_d w) t) as Hch.
  { exists (w_ranges w), e.
    assert (e ∈ changed) as He by (rewrite Hchanged; left).
    apply list_elem_of_filter in He as [He1 He2]. done. }
  rewrite decide_False in Hr by (simpl; lia).
  unfold mbind, M_bind, WrapOperation, op_Wait, get_trace, emit in Hr.
  simpl in Hr.
  match type of Hr with
  | context [sdk_Operation _ _ ?q] => set (request := q) in *
  end.
  assert (∃ req, request = Topic_Update req
                 ∧ utr_ClusterId req = rd_Id (w_d w)
                 ∧ utr_TopicName req = name) as (req & Hreq & Hcid & Hname)
    by (eexists; split; [reflexivity|done]).
  clearbody request. subst request.
  destruct (sdk_Operation _ _ _); simpl in Hr.
  { subst r. exists [Sent (Topic_Update req)]. split_and!; [done..|].
    right. by exists req. }
  destruct (sdk_Wait _ _ _) as [err|]; simpl in Hr.
  { subst r. exists [Sent (Topic_Update req); Waited (Topic_Update req) (Some err)].
    split_and!; [by rewrite <-app_assoc|done..|].
    right. by exists req. }
  exists [Sent (Topic_Update req); Waited (Topic_Update req) None].
  split_and!; [|done..|right; by exists req].
  subst r. rewrite Hdone. simpl. by rewrite <-app_assoc.
Qed.

Lemma requests_updates version (modified : list IndexedTopicSpec) : ∀ w,
  let r := for_each modified
             (λ t, updateKafkaTopic config (ts_Name (topic t)) t version) w in
  ∃ evs, w_trace r.1 = w_trace w ++ evs
    ∧ Forall (λ q, ∃ req t, q = Topic_Update req ∧ t ∈ modified
                     ∧ utr_TopicName req = ts_Name (topic t)
                     ∧ topic_changed (w_d w) t)
             (requests evs).
Proof.
  induction modified as [|t modified IH]; intros w; simpl.
  { exists []. by rewrite app_nil_r. }
  rewrite M_bind_run.
  destruct (requests_updateKafkaTopic (ts_Name (topic t)) t version w)
    as (evs1 & Ht1 & Hhc & _ & Hr1).
  simpl in Ht1, Hhc.
  assert (Forall (λ q, ∃ req t', q = Topic_Update req ∧ t' ∈ t :: modified
                     ∧ utr_TopicName req = ts_Name (topic t')
                     ∧ topic_changed (w_d w) t') (requests evs1)) as Hall1.
  { destruct Hr1 as [->|(req & -> & _ & Hn & Hch)]; [done|].
    apply Forall_singleton. exists req, t. split_and!; [done|left|done..]. }
  destruct (updateKafkaTopic config _ t version w) as [w1 [[]|e|]];
    simpl in *; [|by exists evs1..].
  destruct (IH w1) as (evs2 & Ht2 & Hall2).
  exists (evs1 ++ evs2). rewrite Ht2, Ht1, <-app_assoc. split; [done|].
  rewrite requests_app. apply Forall_app. split; [done|].
  eapply Forall_impl; [exact Hall2|]. simpl.
  intros q (req & t' & -> & Hin & Hn & n & e & He & Hc).
  exists req, t'. split_and!; [done|by right|done|].
  exists n, e. by rewrite <-Hhc.
Qed.

(** On a remote side that accepts every call, an operation is requested and
    awaited, and the loops of deletions and creations run through. *)
Lemma accepted_operation r wrap1 wrap2 w :
  accepts config →
  (err ← WrapOperation config r; fail_if wrap1 err ;;
   err ← op_Wait config r; fail_if wrap2 err) w
  = ({| w_trace := w_trace w ++ awaited [r]; w_d := w_d w;
        w_ranges := w_ranges w |}, Return ()).
Proof.
  intros Hacc.
  unfold mbind, M_bind, WrapOperation, op_Wait, get_trace, emit. simpl.
  rewrite (proj1 (Hacc _ _)). simpl. rewrite (proj2 (Hacc _ _)). simpl.
  by rewrite <-app_assoc.
Qed.

Lemma accepted_deletes names : ∀ w,
  accepts config →
  for_each names (deleteKafkaTopic config) w
  = ({| w_trace := w_trace w ++ awaited (Topic_Delete (rd_Id (w_d w)) <$> names);
        w_d := w_d w; w_ranges := w_ranges w |}, Return ()).
Proof.
  induction names as [|name names IH]; intros w Hacc; simpl.
  { rewrite app_nil_r. by destruct w. }
  rewrite M_bind_run. unfold deleteKafkaTopic at 1. rewrite get_d_bind.
  cbv beta zeta. rewrite accepted_operation by done.
  rewrite IH by done. simpl. by rewrite <-app_assoc.
Qed.

Lemma accepted_creates specs : ∀ toAdd w,
  accepts config →
  createKafkaTopics config specs toAdd w
  = ({| w_trace := w_trace w ++ awaited (Topic_Create (rd_Id (w_d w)) <$> specs);
        w_d := w_d w; w_ranges := w_ranges w |},
     Return (toAdd ++ (ts_Name <$> specs))).
Proof.
  induction specs as [|spec specs IH]; intros toAdd w Hacc; simpl.
  { rewrite !app_nil_r. by destruct w. }
  rewrite M_bind_run. unfold try, createKafkaTopic at 1. rewrite get_d_bind.
  cbv beta zeta. rewrite accepted_operation by done.
  rewrite IH by done. simpl. by rewrite <-!app_assoc.
Qed.

Lemma named_app pick evs1 evs2 :
  named pick (evs1 ++ evs2) = named pick evs1 ∪ named pick evs2.
Proof.
  unfold named. by rewrite requests_app, omap_app, list_to_set_app_L.
Qed.

Lemma named_prefix pick evs rs :
  requests evs `prefix_of` rs →
  named pick evs ⊆ list_to_set (omap pick rs).
Proof.
  intros [k ->] n. unfold named. rewrite omap_app, list_to_set_app.
  set_solver.
Qed.

Lemma named_requests pick evs rs :
  requests evs = rs → named pick evs = list_to_set (omap pick rs).
Proof. by intros <-. Qed.

Lemma omap_deletes {B} (pick : Request → option B) id
    (names : list string) :
  omap pick (Topic_Delete id <$> names)
  = omap (λ name, pick (Topic_Delete id name)) names.
Proof. induction names as [|n names IH]; [done|]. csimpl. by rewrite IH. Qed.

Lemma omap_creates {B} (pick : Request → option B) id
    (specs : list TopicSpec) :
  omap pick (Topic_Create id <$> specs)
  = omap (λ spec, pick (Topic_Create id spec)) specs.
Proof. induction specs as [|n specs IH]; [done|]. csimpl. by rewrite IH. Qed.

Lemma omap_Some {A B} (f : A → B) (l : list A) :
  omap (λ x, Some (f x)) l = f <$> l.
Proof. induction l as [|x l IH]; [done|]. csimpl. by rewrite IH. Qed.

Lemma omap_None {A B} (l : list A) :
  omap (λ _, @None B) l = [].
Proof. by induction l. Qed.

Lemma named_updates (P : IndexedTopicSpec → Prop)
    (modified : list IndexedTopicSpec) evs name :
  Forall (λ q, ∃ req t, q = Topic_Update req ∧ t ∈ modified
                 ∧ utr_TopicName req = ts_Name (topic t) ∧ P t)
         (requests evs) →
  (name ∈ updated_topics evs →
     ∃ t, t ∈ modified ∧ ts_Name (topic t) = name ∧ P t)
  ∧ (name ∉ deleted_topics evs) ∧ (name ∉ created_topics evs).
Proof.
  unfold updated_topics, deleted_topics, created_topics, named.
  induction (requests evs) as [|q rs IH]; intros Hall.
  { simpl. set_solver. }
  apply Forall_cons in Hall as [(req & t & -> & Hin & Hn & HP) Hall].
  destruct (IH Hall) as (IH1 & IH2 & IH3). simpl. split_and!; [|done..].
  rewrite elem_of_union, elem_of_singleton. intros [->|Hname]; [|by apply IH1].
  by exists t.
Qed.

(** The three name sets of a run, against the lists of the differ. *)
Lemma topic_sets (HD : kafkaTopicsDiff = Differ.kafkaTopicsDiff)
    (HF : kafkaFilterModifiedTopics = Differ.kafkaFilterModifiedTopics)
    fuel w w1 currTopics targetTopics :
  listKafkaTopics config fuel (rd_Id (w_d w)) w = (w1, Return currTopics) →
  expandKafkaTopics (w_d w) = inr targetTopics →
  let r := updateKafkaClusterTopics config fuel w in
  let diff :=
    Differ.kafkaTopicsDiff (sortKafkaTopics currTopics targetTopics)
      targetTopics in
  let toDelete : gset string := list_to_set diff.1 in
  let toAdd : gset string := list_to_set (ts_Name <$> diff.2) in
  ∃ evs, w_trace r.1 = w_trace w1 ++ evs
    ∧ deleted_topics evs ⊆ toDelete
    ∧ created_topics evs ⊆ toAdd
    ∧ (∀ name, name ∈ updated_topics evs →
         (name ∉ toDelete) ∧ (name ∉ toAdd) ∧ changed_topic (w_d w) name)
    ∧ (∀ a, r.2 = Return a →
         deleted_topics evs = toDelete ∧ created_topics evs = toAdd).
Proof.
  intros Hlist Hexp r diff toDelete toAdd.
  pose proof (keeps_listKafkaTopics_pages config id (rd_Id (w_d w)) fuel "" [] w)
    as Hd1.
  unfold listKafkaTopics in Hlist. rewrite Hlist in Hd1. simpl in Hd1.
  subst toDelete toAdd.
  remember r as r' eqn:Hr. subst r. rename r' into r.
  unfold updateKafkaClusterTopics in Hr. rewrite get_d_bind in Hr.
  cbv beta in Hr. rewrite M_bind_run in Hr. unfold listKafkaTopics in Hr.
  rewrite Hlist, Hexp in Hr. rewrite M_bind_run in Hr. simpl check in Hr.
  unfold mret at 1, M_ret at 1 in Hr. rewrite HD, HF in Hr. fold diff in Hr.
  clearbody diff. destruct diff as [toDelete toAddSpecs]. simpl.
  rewrite M_bind_run in Hr.
  destruct (requests_deletes toDelete w1) as (evs1 & Ht1 & Hd2 & Hp1 & Hret1).
  simpl in Ht1, Hd2, Hret1.
  pose proof (named_prefix topic_deleted _ _ Hp1) as HD1.
  pose proof (named_prefix topic_created _ _ Hp1) as HA1.
  pose proof (named_prefix topic_updated _ _ Hp1) as HU1.
  rewrite omap_deletes in HD1, HA1, HU1. simpl in HD1, HA1, HU1.
  rewrite omap_Some, list_fmap_id in HD1. rewrite omap_None in HA1, HU1.
  apply equiv_empty_L in HA1, HU1.
  destruct (for_each toDelete _ w1) as [w2 [[]|e|]]; simpl in Ht1, Hd2;
    [|subst r; exists evs1; simpl;
      unfold deleted_topics, created_topics, updated_topics;
      rewrite HA1, HU1;
      split_and!; [done|done|apply empty_subseteq|
                   by intros name ?%elem_of_empty|done]..].
  specialize (Hret1 () eq_refl).
  pose proof (named_requests topic_deleted _ _ Hret1) as HD1'.
  rewrite omap_deletes in HD1'. simpl in HD1'.
  rewrite omap_Some, list_fmap_id in HD1'. clear HD1.
  rewrite M_bind_run in Hr.
  destruct (requests_creates toAddSpecs [] w2)
    as (evs2 & Ht2 & Hd3 & Hp2 & Hret2).
  simpl in Ht2, Hd3, Hret2.
  pose proof (named_prefix topic_deleted _ _ Hp2) as HD2.
  pose proof (named_prefix topic_created _ _ Hp2) as HA2.
  pose proof (named_prefix topic_updated _ _ Hp2) as HU2.
  rewrite omap_creates in HD2, HA2, HU2. simpl in HD2, HA2, HU2.
  rewrite omap_Some in HA2. rewrite omap_None in HD2, HU2.
  apply equiv_empty_L in HD2, HU2.
  assert (∀ X : World * Outcome (),
            w_trace X.1 = w_trace w2 ++ evs2 →
            (∀ a, X.2 = Return a →
               named topic_created evs2 = list_to_set (ts_Name <$> toAddSpecs)) →
            ∃ evs, w_trace X.1 = w_trace w1 ++ evs
              ∧ deleted_topics evs ⊆ list_to_set toDelete
              ∧ created_topics evs ⊆ list_to_set (ts_Name <$> toAddSpecs)
              ∧ (∀ name, name ∈ updated_topics evs →
                   (name ∉ (list_to_set toDelete : gset string))
                   ∧ (name ∉ (list_to_set (ts_Name <$> toAddSpecs) : gset string))
                   ∧ changed_topic (w_d w) name)
              ∧ (∀ a, X.2 = Return a →
                   deleted_topics evs = list_to_set toDelete
                   ∧ created_topics evs = list_to_set (ts_Name <$> toAddSpecs)))
    as Hstop.
  { intros X HX Hret. exists (evs1 ++ evs2).
    rewrite HX, Ht1, <-app_assoc.
    unfold deleted_topics, created_topics, updated_topics.
    rewrite !named_app, HD1', HA1, HD2, HU1, HU2.
    rewrite !union_empty_r_L, !union_empty_l_L.
    split_and!; [done..| |].
    - by intros name ?%elem_of_empty.
    - intros a Ha. split; [done|]. by apply (Hret a). }
  destruct (createKafkaTopics config toAddSpecs [] w2) as [w3 [toAdd|e|]];
    simpl in Ht2, Hd3;
    [|subst r; by apply Hstop..].
  destruct (Hret2 toAdd eq_refl) as [-> Hreq2]. simpl in Hr.
  pose proof (named_requests topic_created _ _ Hreq2) as HA2'.
  rewrite omap_creates in HA2'. simpl in HA2'. rewrite omap_Some in HA2'.
  clear HA2.
  assert (w_d w3 = w_d w) as Hd by congruence.
  destruct (negb _).
  { subst r. apply Hstop; [done|]. by intros a. }
  destruct (rd_GetChange (w_d w) "topic") as [oldSpecs newSpecs] eqn:Hchange.
  rewrite M_bind_run in Hr.
  destruct (kafkaChangedTopics _ _ _ _) as [err|changedTopics] eqn:Hchanged;
    simpl in Hr.
  { subst r. apply Hstop; [done|]. by intros a. }
  rewrite M_bind_run in Hr.
  destruct (requests_updates (as_string (rd_Get (w_d w) "config.0.version"))
              (Differ.kafkaFilterModifiedTopics changedTopics toDelete
                 (ts_Name <$> toAddSpecs)) w3) as (evs3 & Ht3 & Hall).
  simpl in Ht3.
  assert (w_trace r.1 = w_trace w3 ++ evs3
          ∧ ∀ a, r.2 = Return a → True) as [Htr _].
  { subst r. destruct (for_each _ _ w3) as [w4 [[]|e|]]; done. }
  assert (∀ name,
            (name ∈ updated_topics evs3 →
               (name ∉ (list_to_set toDelete : gset string))
               ∧ (name ∉ (list_to_set (ts_Name <$> toAddSpecs) : gset string))
               ∧ changed_topic (w_d w) name)
            ∧ (name ∉ deleted_topics evs3) ∧ (name ∉ created_topics evs3))
    as Hupd.
  { intros name.
    destruct (named_updates _ _ _ name Hall) as (HU3 & HD3 & HA3).
    split; [|done]. intros Hin.
    destruct (HU3 Hin) as (t & Ht & Hname & Hch).
    apply list_elem_of_filter in Ht as [[Hnd Hna] Ht].
    rewrite Hname in Hnd, Hna. rewrite !elem_of_list_to_set.
    split_and!; [done..|].
    exists changedTopics, t. rewrite Hchange. simpl. by rewrite Hd in Hch. }
  assert (deleted_topics evs3 = ∅) as HD3.
  { apply set_eq. intros name. split; [|by intros ?%elem_of_empty].
    intros Hin. by destruct (Hupd name) as (_ & Hno & _). }
  assert (created_topics evs3 = ∅) as HA3.
  { apply set_eq. intros name. split; [|by intros ?%elem_of_empty].
    intros Hin. by destruct (Hupd name) as (_ & _ & Hno). }
  exists (evs1 ++ evs2 ++ evs3).
  rewrite Htr, Ht2, Ht1, <-!app_assoc.
  unfold deleted_topics, created_topics, updated_topics in *.
  rewrite !named_app, HD1', HA1, HD2, HU1, HU2, HA2', HD3, HA3.
  rewrite !union_empty_r_L, !union_empty_l_L.
  split_and!; [done..| |done].
  intros name Hin. by apply Hupd.
Qed.

End topic_calls.




(** X12: when the configuration sets no version, updateKafkaClusterTopics
    never returns without error, sends no update of a topic and leaves the
    resource data, its markers included, as they were.  The check of the
    version stands after the deletions and the creations: on a remote side
    that accepts every call, once the topics are listed and the declared
    topics expanded, every topic to delete is deleted and awaited, then every
    topic to add is created and awaited, and only then the error
    [you must specify version of Kafka] is returned. *)
Theorem updateKafkaClusterTopics_without_version {pkg : Package}
    {lib : Library} (config : Config) (fuel : nat) (w : World) :
  rd_GetOk (w_d w) "config.0.version" = false →
  let r := updateKafkaClusterTopics config fuel w in
  (∀ a, r.2 ≠ Return a)
  ∧ w_d r.1 = w_d w
  ∧ (∃ evs, w_trace r.1 = w_trace w ++ evs
            ∧ Forall (about (λ q, ∀ req, q ≠ Topic_Update req)) evs)
  ∧ ∀ w1 currTopics targetTopics,
      accepts config →
      listKafkaTopics config fuel (rd_Id (w_d w)) w = (w1, Return currTopics) →
      expandKafkaTopics (w_d w) = inr targetTopics →
      let diff :=
        kafkaTopicsDiff (sortKafkaTopics currTopics targetTopics)
          targetTopics in
      r.2 = Raise (Errorf "you must specify version of Kafka")
      ∧ w_trace r.1
        = w_trace w1
          ++ awaited ((Topic_Delete (rd_Id (w_d w)) <$> diff.1)
                      ++ (Topic_Create (rd_Id (w_d w)) <$> diff.2)).
Proof.
  intros Hok r.
  assert (∀ w1 currTopics targetTopics,
      accepts config →
      listKafkaTopics config fuel (rd_Id (w_d w)) w = (w1, Return currTopics) →
      expandKafkaTopics (w_d w) = inr targetTopics →
      let diff :=
        kafkaTopicsDiff (sortKafkaTopics currTopics targetTopics)
          targetTopics in
      r.2 = Raise (Errorf "you must specify version of Kafka")
      ∧ w_trace r.1
        = w_trace w1
          ++ awaited ((Topic_Delete (rd_Id (w_d w)) <$> diff.1)
                      ++ (Topic_Create (rd_Id (w_d w)) <$> diff.2))) as Horder.
  { intros w1 currTopics targetTopics Hacc Hlist Hexp diff.
    pose proof (keeps_listKafkaTopics_pages config id (rd_Id (w_d w)) fuel
                  "" [] w) as Hd1.
    unfold listKafkaTopics in Hlist. rewrite Hlist in Hd1. simpl in Hd1.
    remember r as r' eqn:Hr. subst r. rename r' into r.
    unfold updateKafkaClusterTopics in Hr. rewrite get_d_bind in Hr.
    cbv beta in Hr. rewrite M_bind_run in Hr. unfold listKafkaTopics in Hr.
    rewrite Hlist, Hexp, Hok in Hr. rewrite M_bind_run in Hr.
    simpl check in Hr. unfold mret at 1, M_ret at 1 in Hr. fold diff in Hr.
    clearbody diff. destruct diff as [toDelete toAddSpecs].
    rewrite M_bind_run, accepted_deletes in Hr by done.
    rewrite M_bind_run, accepted_creates in Hr by done.
    simpl in Hr. subst r. simpl. split; [done|].
    unfold awaited. rewrite bind_app, Hd1. by rewrite <-app_assoc. }
  split_and!; [| | |exact Horder]; clear Horder; subst r.
  all: unfold updateKafkaClusterTopics; rewrite get_d_bind; cbv beta;
    rewrite Hok; change (negb false) with true; cbv iota.
  - match goal with |- ∀ a, (?p w).2 ≠ _ => set (prog := p) end.
    assert (never_returns prog) as Hnever; [|apply Hnever].
    subst prog. apply never_returns_bind. intros currTopics.
    apply never_returns_bind. intros targetTopics.
    destruct (kafkaTopicsDiff _ _) as [toDelete toAddSpecs].
    apply never_returns_bind. intros _.
    apply never_returns_bind. intros toAdd.
    apply never_returns_raise.
  - match goal with |- w_d (?p w).1 = _ => set (prog := p) end.
    assert (keeps id prog) as Hkeep; [|apply (Hkeep w)].
    subst prog.
    apply keeps_bind; [apply keeps_listKafkaTopics_pages|]. intros currTopics.
    apply keeps_bind; [auto with keeps|]. intros targetTopics.
    destruct (kafkaTopicsDiff _ _) as [toDelete toAddSpecs].
    apply keeps_bind.
    { apply keeps_for_each. intros name _. apply keeps_deleteKafkaTopic. }
    intros _.
    apply keeps_bind; [apply keeps_createKafkaTopics|]. intros toAdd.
    auto with keeps.
  - match goal with
    | |- ∃ evs, w_trace (?p w).1 = _ ∧ _ => set (prog := p)
    end.
    assert (only (about (λ q, ∀ req, q ≠ Topic_Update req)) prog) as Honly;
      [|apply Honly].
    subst prog.
    apply only_bind; [by apply only_listKafkaTopics_pages|]. intros currTopics.
    apply only_bind; [apply only_silent; auto with silent|]. intros targetTopics.
    destruct (kafkaTopicsDiff _ _) as [toDelete toAddSpecs].
    apply only_bind.
    { apply only_for_each. intros name _. by apply only_deleteKafkaTopic. }
    intros _.
    apply only_bind; [by apply only_createKafkaTopics|]. intros toAdd.
    by apply only_silent.
Qed.

Lemma updateKafkaClusterTopics_without_version_witness :
  let config := {| sdk := Scenario.sdk_topics |} in
  let w := Sample.world Scenario.data_without_version in
  let r := updateKafkaClusterTopics (pkg := Scenario.package_topics)
             (lib := Sample.library) config 3 w in
  (∀ a, r.2 ≠ Return a)
  ∧ w_d r.1 = w_d w
  ∧ (∃ evs, w_trace r.1 = w_trace w ++ evs
            ∧ Forall (about (λ q, ∀ req, q ≠ Topic_Update req)) evs)
  ∧ r.2 = Raise (Errorf "you must specify version of Kafka")
  ∧ w_trace r.1
    = [Sent (Topic_List "c1" "");
       Sent (Topic_Delete "c1" "a"); Waited (Topic_Delete "c1" "a") None;
       Sent (Topic_Create "c1" (mkTopicSpec "c"));
       Waited (Topic_Create "c1" (mkTopicSpec "c")) None].
Proof.
  intros config w r.
  destruct (updateKafkaClusterTopics_without_version
              (pkg := Scenario.package_topics) (lib := Sample.library)
              config 3 w eq_refl) as (Hnever & Hdata & Hcalls & Horder).
  split_and!; [exact Hnever|exact Hdata|exact Hcalls|..];
    apply (Horder {| w_trace := [Sent (Topic_List "c1" "")];
                     w_d := w_d w; w_ranges := 0 |}
             [mkTopic "a"; mkTopic "b"] [mkTopicSpec "b"; mkTopicSpec "c"]);
    done.
Defined.

(** ** The updates of the user differ *)

Section user_updates.
Context {pkg : Package} {lib : Library} (config : Config).

(** Every entry of the map of old users comes from an old spec or was in the
    map before. *)
Lemma oldUsersByName_lookup specs : ∀ m0 m k u,
  oldUsersByName specs m0 = inr m → m !! k = Some u →
  m0 !! k = Some u
  ∨ ∃ old, old ∈ specs ∧ expandKafkaUser old = inr u ∧ us_Name u = k.
Proof.
  induction specs as [|spec specs IH]; intros m0 m k u Hm Hk; simpl in Hm.
  { left. congruence. }
  destruct (expandKafkaUser spec) as [err|user] eqn:Hspec; [done|].
  destruct (IH _ _ _ _ Hm Hk) as [Hin|(old & Hold & Hexp & Hname)].
  - destruct (decide (us_Name user = k)) as [<-|Hne].
    + rewrite lookup_insert_eq in Hin. injection Hin as <-.
      right. exists spec. split; [left|done].
    + rewrite lookup_insert_ne in Hin by done. by left.
  - right. exists old. split; [by right|done].
Qed.

(** A failing old spec stops the differ before its second loop. *)
Lemma oldUsersByName_error specs : ∀ m0 old err,
  old ∈ specs → expandKafkaUser old = inl err →
  ∃ before old' after err',
    specs = before ++ old' :: after
    ∧ Forall (λ spec, ∃ u, expandKafkaUser spec = inr u) before
    ∧ expandKafkaUser old' = inl err'
    ∧ oldUsersByName specs m0 = inl err'.
Proof.
  induction specs as [|spec specs IH]; intros m0 old err Hin Hexp.
  { by apply elem_of_nil in Hin. }
  simpl. destruct (expandKafkaUser spec) as [err0|user] eqn:Hspec.
  { exists [], spec, specs, err0. split_and!; [done|apply Forall_nil_2|done..]. }
  apply elem_of_cons in Hin as [->|Hin]; [congruence|].
  destruct (IH (<[us_Name user := user]> m0) old err Hin Hexp)
    as (before & old' & after & err' & -> & Hbefore & Hexp' & Hrun).
  exists (spec :: before), old', after, err'.
  split_and!; [done| |done..].
  apply Forall_cons. split; [by exists user|done].
Qed.

(** When every old spec expands, the map of old users is built by inserting
    the users one after the other under their names. *)
Lemma oldUsersByName_inserts specs users :
  Forall2 (λ spec u, expandKafkaUser spec = inr u) specs users →
  ∀ m0, oldUsersByName specs m0
        = inr (foldl (λ m u, <[us_Name u := u]> m) m0 users).
Proof.
  induction 1 as [|spec u specs users Hspec _ IH]; intros m0; simpl; [done|].
  by rewrite Hspec, IH.
Qed.

Lemma inserts_lookup_other users : ∀ (m0 : gmap string UserSpec) k,
  k ∉ us_Name <$> users →
  foldl (λ m u, <[us_Name u := u]> m) m0 users !! k = m0 !! k.
Proof.
  induction users as [|u users IH]; intros m0 k Hk; simpl; [done|].
  rewrite fmap_cons in Hk. apply not_elem_of_cons in Hk as [Hne Hk].
  rewrite IH by done. by rewrite lookup_insert_ne.
Qed.

(** With distinct names, every user is found under its name. *)
Lemma inserts_lookup users : ∀ (m0 : gmap string UserSpec) u,
  NoDup (us_Name <$> users) → u ∈ users →
  foldl (λ m u, <[us_Name u := u]> m) m0 users !! us_Name u = Some u.
Proof.
  induction users as [|u0 users IH]; intros m0 u Hnd Hu.
  { by apply elem_of_nil in Hu. }
  rewrite fmap_cons in Hnd. apply NoDup_cons in Hnd as [Hfresh Hnd]. simpl.
  apply elem_of_cons in Hu as [->|Hu]; [|by apply IH].
  rewrite inserts_lookup_other by done. by rewrite lookup_insert_eq.
Qed.

Lemma userUpdatePaths_same u : userUpdatePaths u u = [].
Proof.
  unfold userUpdatePaths.
  rewrite (decide_False (P := us_Password u ≠ us_Password u))
    by (intros Hne; by apply Hne).
  rewrite (decide_False (P := Sprintf_v _ ≠ Sprintf_v _))
    by (intros Hne; by apply Hne).
  done.
Qed.

Lemma for_each_nothing {A} (l : list A) (body : A → M unit) w :
  (∀ x w', x ∈ l → body x w' = (w', Return ())) →
  for_each l body w = (w, Return ()).
Proof.
  revert w. induction l as [|x l IH]; intros w Hbody; [done|]. simpl.
  unfold mbind, M_bind. rewrite Hbody by left.
  apply IH. intros y w' Hy. apply Hbody. by right.
Qed.

End user_updates.

(** X13: given the same list of specs as the old and the new side of a change,
    with every spec expanding and no name occurring twice, updateKafkaUsers
    returns without error and without any remote call. *)
Theorem updateKafkaUsers_identical {pkg : Package} {lib : Library}
    (config : Config) (specs : list Value) (users : list UserSpec) (w : World) :
  Forall2 (λ spec u, expandKafkaUser spec = inr u) specs users →
  NoDup (us_Name <$> users) →
  updateKafkaUsers config specs specs w = (w, Return ()).
Proof.
  intros Hall Hnd. unfold updateKafkaUsers.
  rewrite (oldUsersByName_inserts specs users Hall).
  unfold mbind at 1, M_bind at 1. simpl.
  apply for_each_nothing. intros spec w' Hspec.
  apply list_elem_of_lookup in Hspec as [i Hi].
  destruct (Forall2_lookup_l _ _ _ _ _ Hall Hi) as (u & Hu & Hexp).
  unfold updateKafkaUsers_step.
  unfold mbind, M_bind, get_d. simpl. rewrite Hexp. simpl.
  rewrite (inserts_lookup users ∅ u Hnd)
    by (by apply list_elem_of_lookup_2 in Hu).
  by rewrite userUpdatePaths_same.
Qed.

Lemma updateKafkaUsers_identical_witness :
  let spec n pw :=
    VList [VString n; VString pw;
           VList [VList [VString "events"; VString "ACCESS_ROLE_CONSUMER"]]] in
  let specs := [spec "alice" "secret"; spec "bob" "hidden"] in
  let w := Sample.world (Sample.data "c1" ["user"]) in
  updateKafkaUsers (pkg := Sample.package) (lib := Sample.library)
    {| sdk := Sample.sdk_ok |} specs specs w = (w, Return ()).
Proof.
  intros spec specs w.
  apply (updateKafkaUsers_identical (pkg := Sample.package)
           (lib := Sample.library) {| sdk := Sample.sdk_ok |} specs
           [{| us_Name := "alice"; us_Password := "secret";
               us_Permissions :=
                 [{| TopicName := "events"; Role := ACCESS_ROLE_CONSUMER |}] |};
            {| us_Name := "bob"; us_Password := "hidden";
               us_Permissions :=
                 [{| TopicName := "events"; Role := ACCESS_ROLE_CONSUMER |}] |}]
           w).
  - repeat constructor.
  - compute_done.
Defined.

(** X14: whatever the old and the new specs of a change are, every event of
    updateKafkaUsers is about an update request for a user whose name is
    declared on both sides; the request carries the password and the
    permissions of the new side and, as its mask, the paths in which the two
    sides differ, of which there is at least one.  A user declared on one side
    only is never updated, and neither is a user whose two sides agree. *)
Theorem updateKafkaUsers_only_both_sides {pkg : Package} {lib : Library}
    (config : Config) (oldSpecs newSpecs : list Value) :
  only (about (user_update_of oldSpecs newSpecs))
       (updateKafkaUsers config oldSpecs newSpecs).
Proof.
  unfold updateKafkaUsers.
  destruct (oldUsersByName oldSpecs ∅) as [err|m] eqn:Hm.
  { intros w. exists []. split; [by rewrite app_nil_r|apply Forall_nil_2]. }
  change (only (about (user_update_of oldSpecs newSpecs))
            (for_each newSpecs (updateKafkaUsers_step config m))).
  apply only_for_each. intros new Hnew. unfold updateKafkaUsers_step.
  apply only_bind; [apply only_silent; auto with silent|]. intros d.
  destruct (expandKafkaUser new) as [err|user] eqn:Huser.
  { intros w. exists []. split; [by rewrite app_nil_r|apply Forall_nil_2]. }
  change (only (about (user_update_of oldSpecs newSpecs))
            (match m !! us_Name user with
             | Some u =>
                 if decide (0 < length (userUpdatePaths user u))
                 then updateKafkaUser config
                        {| uur_ClusterId := rd_Id d;
                           uur_UserName := us_Name user;
                           uur_Password := us_Password user;
                           uur_Permissions := us_Permissions user;
                           uur_UpdateMask := userUpdatePaths user u |}
                 else mret ()
             | None => mret ()
             end)).
  destruct (m !! us_Name user) as [u|] eqn:Hu; [|by apply only_silent].
  case_decide as Hpaths; [|by apply only_silent].
  apply only_updateKafkaUser.
  destruct (oldUsersByName_lookup _ _ _ _ _ Hm Hu)
    as [Hin|(old & Hold & Hexp & Hname)]; [by rewrite lookup_empty in Hin|].
  exists (rd_Id d), old, new, u, user.
  split_and!; try done.
  intros Hnil. rewrite Hnil in Hpaths. simpl in Hpaths. lia.
Qed.

(** X15: when an old spec of a user change does not expand, updateKafkaUsers
    returns the error of the first such spec, the one before which every old
    spec expands, as it is, before it looks at any new spec: no remote call
    is made and nothing else changes. *)
Theorem updateKafkaUsers_old_spec_error {pkg : Package} {lib : Library}
    (config : Config) (oldSpecs newSpecs : list Value) (old : Value)
    (err : error) (w : World) :
  old ∈ oldSpecs → expandKafkaUser old = inl err →
  ∃ before old' after err',
    oldSpecs = before ++ old' :: after
    ∧ Forall (λ spec, ∃ u, expandKafkaUser spec = inr u) before
    ∧ expandKafkaUser old' = inl err'
    ∧ updateKafkaUsers config oldSpecs newSpecs w = (w, Raise err').
Proof.
  intros Hin Hexp.
  destruct (oldUsersByName_error oldSpecs ∅ old err Hin Hexp)
    as (before & old' & after & err' & Hsplit & Hbefore & Hexp' & Hrun).
  exists before, old', after, err'. split_and!; [done..|].
  unfold updateKafkaUsers. rewrite Hrun. done.
Qed.

Lemma updateKafkaUsers_old_spec_error_witness :
  let good := VList [VString "alice"; VString "secret"; VList []] in
  let w := Sample.world (Sample.data "c1" ["user"]) in
  ∃ before old' after err',
    [good; VString "bob"; VString "carol"] = before ++ old' :: after
    ∧ Forall (λ spec, ∃ u, expandKafkaUser (Package := Sample.package) spec
                           = inr u) before
    ∧ expandKafkaUser (Package := Sample.package) old' = inl err'
    ∧ updateKafkaUsers (pkg := Sample.package) (lib := Sample.library)
        {| sdk := Sample.sdk_ok |} [good; VString "bob"; VString "carol"]
        [good] w
      = (w, Raise err').
Proof.
  intros good w.
  apply (updateKafkaUsers_old_spec_error (pkg := Sample.package)
           (lib := Sample.library) {| sdk := Sample.sdk_ok |}
           [good; VString "bob"; VString "carol"] [good] (VString "carol")
           (Errorf "user: unexpected value") w).
  - apply elem_of_cons. right. apply elem_of_cons. right.
    apply elem_of_cons. by left.
  - reflexivity.
Defined.

(** ** Partial mode over an Update of the address *)

Section address_partial_facts.
Context {pkg : Package} (config : Config).

Lemma keeps_partial_address_read id :
  keeps rd_partial (yandexVPCAddressRead config id).
Proof.
  assert (∀ k v, keeps rd_partial (d_Set_check k v)) as Hcheck.
  { intros k v. unfold d_Set_check.
    apply keeps_bind; [by apply keeps_d_Set|].
    intros [err|]; auto with keeps. }
  unfold yandexVPCAddressRead.
  apply keeps_bind; [auto with keeps|]. intros [err|address].
  { unfold handleAddressNotFoundError, handleNotFoundError.
    destruct err as [code desc|text]; [|auto with keeps].
    case_decide; [|auto with keeps]. by apply keeps_modify_d. }
  repeat first [ apply Hcheck | apply keeps_bind; [|intros ?] ].
Qed.

Lemma address_read_asks_first id w :
  ∃ rest,
    w_trace (yandexVPCAddressRead config id w).1
    = w_trace w ++ Sent (Address_Get id) :: rest.
Proof.
  unfold yandexVPCAddressRead.
  unfold mbind at 1, M_bind at 1, call, get_trace, emit. simpl.
  match goal with
  | |- ∃ rest, w_trace (?k ?w1).1 = _ =>
      assert (silent k) as Hk; [|exists []; by rewrite Hk]
  end.
  destruct (sdk_Address_Get _ _ _) as [err|address].
  - unfold handleAddressNotFoundError. auto with silent.
  - repeat (apply silent_bind; [auto with silent|intros _]).
    auto with silent.
Qed.

End address_partial_facts.

(** X16: the Update of the VPC address switches partial mode on first and off
    only after the update operation has been awaited with success: at the end
    of a run partial mode is off exactly when the read of the address has been
    reached, which is the case whenever Update returns without error.  When
    the labels do not expand, the request is refused or the wait fails,
    partial mode stays on and the address is not read. *)
Theorem address_update_partial_mode {pkg : Package} (config : Config)
    (w : World) :
  let r := resourceYandexVPCAddressUpdate config w in
  ∃ evs,
    w_trace r.1 = w_trace w ++ evs
    ∧ (rd_partial (w_d r.1) = false ↔ ∃ id, Sent (Address_Get id) ∈ evs)
    ∧ ∀ a, r.2 = Return a → rd_partial (w_d r.1) = false.
Proof.
  intros r. subst r. unfold resourceYandexVPCAddressUpdate.
  unfold mbind at 1, M_bind at 1, d_Partial at 1, modify_d at 1.
  cbv beta iota.
  match goal with
  | |- ∃ evs, w_trace (?p ?w0).1 = _ ∧ _ =>
      assert (settles_partial is_Address_Get p) as Hp;
        [|destruct (Hp w0 eq_refl) as (evs & Ht & Hiff & Hret)]
  end.
  { apply settles_bind; [by apply only_silent|auto with keeps|]. intros d.
    apply settles_bind.
    { apply only_silent. destruct (rd_HasChange d "labels"); [|done].
      apply silent_bind; [auto with silent|done]. }
    { destruct (rd_HasChange d "labels"); [|auto with keeps].
      apply keeps_bind; auto with keeps. }
    intros req. cbv zeta.
    apply settles_bind;
      [apply only_WrapOperation; by intros [id ?]|auto with keeps|].
    intros err1.
    apply settles_bind; [apply only_silent; auto with silent|auto with keeps|].
    intros _.
    apply settles_bind;
      [apply only_op_Wait; by intros err [id ?]|auto with keeps|].
    intros err2.
    apply settles_bind; [apply only_silent; auto with silent|auto with keeps|].
    intros _ w1 _.
    unfold resourceYandexVPCAddressRead.
    unfold mbind, M_bind, d_Partial, modify_d, get_d. simpl.
    set (w2 := {| w_trace := w_trace w1 |}).
    destruct (address_read_asks_first config (rd_Id (w_d w1)) w2) as (rest & Ht).
    pose proof (keeps_partial_address_read config (rd_Id (w_d w1)) w2) as Hkeep.
    exists (Sent (Address_Get (rd_Id (w_d w1))) :: rest).
    split; [done|]. split; [|done].
    split; [|done]. intros _. apply Exists_cons_hd. by eexists. }
  exists evs. split; [done|]. split; [|done].
  transitivity (Exists is_Address_Get evs); [exact Hiff|].
  rewrite Exists_exists. split.
  - intros (ev & Hin & [id ->]). by exists id.
  - intros [id Hin]. exists (Sent (Address_Get id)). split; [done|by exists id].
Qed.

(** ** Creation of the cluster *)

Section lifecycle_facts.
Context {A B : Type}.

Lemma L_bind_return (m : L A) (f : A → L B) s s' a :
  m s = (s', Return a) → (m ≫= f) s = f a s'.
Proof. intros Hm. unfold mbind, L_bind. by rewrite Hm. Qed.

Lemma L_bind_raise (m : L A) (f : A → L B) s s' e :
  m s = (s', Raise e) → (m ≫= f) s = (s', Raise e).
Proof. intros Hm. unfold mbind, L_bind. by rewrite Hm. Qed.

End lifecycle_facts.

Ltac lstep H :=
  erewrite L_bind_return in H by reflexivity; simpl in H.

(** X17: when the creation request of the cluster is accepted and its metadata
    carry a cluster id, Create records that id before it waits.  It then waits
    once; when the wait or the response of the operation fails, Create returns
    an error without reading the cluster, and the id stays recorded; when both
    succeed, the cluster is read under the new id. *)
Theorem create_records_id_before_wait {pkg : Package} {crt : Creation}
    (config : Config) (ops : Operations) (fuel : nat)
    (s : Run) (req : CreateClusterRequest) (id : string) :
  let h := w_trace (run_world s) in
  let create := Cluster_Create req in
  let steps1 := run_steps s ++ [Launched create] in
  let werr := ops_Wait ops h steps1 create in
  let steps2 := steps1 ++ [Awaited create werr] in
  let r := resourceYandexMDBKafkaClusterCreate config ops fuel s in
  prepareKafkaCreateRequest (w_d (run_world s)) config = inr req →
  ops_Operation ops h (run_steps s) create = None →
  ops_Metadata ops h steps1 create = inr (CreateClusterMetadata id) →
  run_steps r.1 = steps2
  ∧ match werr, ops_Response ops h steps2 create with
    | None, None =>
        ∃ rest, w_trace (run_world r.1) = h ++ Sent (Cluster_Get id) :: rest
    | _, _ =>
        (∃ e, r.2 = Raise e)
        ∧ w_trace (run_world r.1) = h
        ∧ rd_Id (w_d (run_world r.1)) = id
    end.
Proof.
  intros h create steps1 werr steps2 r Hreq Hop Hmd.
  destruct s as [w steps]. simpl in *.
  remember r as r' eqn:Hr. subst r.
  unfold resourceYandexMDBKafkaClusterCreate in Hr.
  lstep Hr. rewrite Hreq in Hr.
  lstep Hr. lstep Hr. fold h create in Hr. rewrite Hop in Hr.
  lstep Hr. lstep Hr. fold h create steps1 in Hr. rewrite Hmd in Hr.
  lstep Hr. lstep Hr. fold h create steps1 werr steps2 in Hr.
  clearbody werr. destruct werr as [e|].
  { erewrite L_bind_raise in Hr by reflexivity. subst r'. simpl. eauto. }
  lstep Hr. lstep Hr. fold h create steps1 steps2 in Hr.
  destruct (ops_Response ops h steps2 create) as [e|].
  { erewrite L_bind_raise in Hr by reflexivity. subst r'. simpl. eauto. }
  lstep Hr. unfold lift in Hr. simpl in Hr.
  match type of Hr with
  | _ = (let '(_, _) := _ ?w2 in _) =>
      destruct (read_asks_first config fuel w2) as (rest & Ht);
      destruct (resourceYandexMDBKafkaClusterRead config fuel w2) as [w3 out]
  end.
  subst r'. simpl in *. split; [done|]. by exists rest.
Qed.

Lemma create_records_id_before_wait_witness :
  let config := {| sdk := Sample.sdk_ok |} in
  let ops := Scenario.ops_with (Some (StatusError 4 "deadline exceeded")) None in
  let r := resourceYandexMDBKafkaClusterCreate (pkg := Sample.package)
             (crt := Scenario.creation) config ops 3
             (Scenario.run (Sample.data "" [])) in
  let create := Cluster_Create Scenario.create_request in
  run_steps r.1
  = [Launched create;
     Awaited create (Some (StatusError 4 "deadline exceeded"))]
  ∧ (∃ e, r.2 = Raise e)
  ∧ w_trace (run_world r.1) = []
  ∧ rd_Id (w_d (run_world r.1)) = "c9".
Proof.
  intros config ops r create.
  apply (create_records_id_before_wait (pkg := Sample.package)
           (crt := Scenario.creation) config ops 3
           (Scenario.run (Sample.data "" [])) Scenario.create_request "c9");
    reflexivity.
Defined.

(** X18: unless the creation request of the cluster can be prepared, is
    accepted and comes with metadata that carry a cluster id, Create returns
    an error, records no id and leaves the resource data as they were, does
    not wait and does not read the cluster; the one step it may have taken is
    the creation request. *)
Theorem create_without_cluster_id {pkg : Package} {crt : Creation}
    (config : Config) (ops : Operations) (fuel : nat) (s : Run) :
  let h := w_trace (run_world s) in
  let r := resourceYandexMDBKafkaClusterCreate config ops fuel s in
  (∀ req id,
     prepareKafkaCreateRequest (w_d (run_world s)) config = inr req →
     ops_Operation ops h (run_steps s) (Cluster_Create req) = None →
     ops_Metadata ops h (run_steps s ++ [Launched (Cluster_Create req)])
       (Cluster_Create req) ≠ inr (CreateClusterMetadata id)) →
  run_world r.1 = run_world s
  ∧ (∃ e, r.2 = Raise e)
  ∧ (run_steps r.1 = run_steps s
     ∨ ∃ req, run_steps r.1 = run_steps s ++ [Launched (Cluster_Create req)]).
Proof.
  intros h r Hno. destruct s as [w steps]. simpl in *.
  remember r as r' eqn:Hr. subst r.
  unfold resourceYandexMDBKafkaClusterCreate in Hr. lstep Hr.
  destruct (prepareKafkaCreateRequest (w_d w) config) as [err|req] eqn:Hreq.
  { erewrite L_bind_raise in Hr by reflexivity. subst r'. simpl. split_and!; eauto. }
  specialize (Hno req). lstep Hr. lstep Hr. fold h in Hr.
  destruct (ops_Operation ops h steps (Cluster_Create req)) as [err|].
  { erewrite L_bind_raise in Hr by reflexivity. subst r'. simpl. split_and!; eauto. }
  lstep Hr. lstep Hr. fold h in Hr.
  destruct (ops_Metadata ops h _ _) as [err|[id|id|]];
    [|by destruct (Hno id)|..]; subst r'; simpl; split_and!; eauto.
Qed.

Lemma create_without_cluster_id_witness :
  let config := {| sdk := Sample.sdk_ok |} in
  let s := Scenario.run (Sample.data "" []) in
  let r := resourceYandexMDBKafkaClusterCreate (pkg := Sample.package)
             (crt := Scenario.creation) config Scenario.ops_without_metadata
             3 s in
  run_world r.1 = run_world s
  ∧ (∃ e, r.2 = Raise e)
  ∧ (run_steps r.1 = run_steps s
     ∨ ∃ req, run_steps r.1 = run_steps s ++ [Launched (Cluster_Create req)]).
Proof.
  intros config s.
  apply (create_without_cluster_id (pkg := Sample.package)
           (crt := Scenario.creation) config Scenario.ops_without_metadata 3 s).
  intros req id _ _. discriminate.
Defined.

(** ** Deletion of the cluster *)

(** X19: Delete asks for the deletion of the cluster under the recorded id.
    When the request is refused it does not wait.  When the request is
    accepted it waits once and leaves the resource data, the id included, as
    they were; it returns the error of the wait, else the error of the
    response, each as it is, and returns without error when there is
    neither. *)
Theorem delete_cluster_run (ops : Operations) (s : Run) :
  let h := w_trace (run_world s) in
  let delete := Cluster_Delete (rd_Id (w_d (run_world s))) in
  let steps1 := run_steps s ++ [Launched delete] in
  let werr := ops_Wait ops h steps1 delete in
  let steps2 := steps1 ++ [Awaited delete werr] in
  let r := resourceYandexMDBKafkaClusterDelete ops s in
  match ops_Operation ops h (run_steps s) delete with
  | Some err =>
      run_steps r.1 = steps1 ∧ w_trace (run_world r.1) = h
  | None =>
      run_steps r.1 = steps2
      ∧ run_world r.1 = run_world s
      ∧ r.2 = match werr, ops_Response ops h steps2 delete with
              | Some e, _ => Raise e
              | None, Some e => Raise e
              | None, None => Return ()
              end
  end.
Proof.
  intros h delete steps1 werr steps2 r. destruct s as [w steps]. simpl in *.
  remember r as r' eqn:Hr. subst r.
  unfold resourceYandexMDBKafkaClusterDelete in Hr.
  lstep Hr. lstep Hr. fold h delete steps1 in Hr.
  destruct (ops_Operation ops h steps delete) as [err|].
  { unfold lift in Hr.
    match type of Hr with
    | _ = (let '(_, _) := ?m ?w1 in _) =>
        pose proof (silent_handleNotFoundError err
                      ("Kafka Cluster " +:+ fmt_q (as_string (rd_Get (w_d w) "name")))
                      w1) as Hsilent;
        destruct (m w1) as [w2 out]
    end.
    subst r'. simpl in *. done. }
  lstep Hr. fold h delete steps1 werr steps2 in Hr.
  clearbody werr. destruct werr as [e|].
  { erewrite L_bind_raise in Hr by reflexivity. by subst r'. }
  lstep Hr. lstep Hr. fold h delete steps1 steps2 in Hr.
  destruct (ops_Response ops h steps2 delete) as [e|]; by subst r'.
Qed.

(** ** Creation and deletion of the address *)

(** X20: when the creation request of the address is accepted and its
    metadata carry an address id, Create records that id before it waits.  It
    then waits once; when the wait or the response of the operation fails,
    Create returns an error without reading the address, and the id stays
    recorded; when both succeed, the address is read under the new id. *)
Theorem address_create_records_id_before_wait {pkg : Package}
    {crt : Creation} (config : Config) (ops : Operations) (s : Run)
    (labels : list (string * string)) (folderID : string)
    (spec : option ExternalIpv4Address) (id : string) :
  let h := w_trace (run_world s) in
  let d := w_d (run_world s) in
  let create :=
    Address_Create
      {| car_FolderId := folderID;
         car_Name := as_string (rd_Get d "name");
         car_Description := as_string (rd_Get d "description");
         car_Labels := labels;
         car_ExternalIpv4AddressSpec := spec |} in
  let steps1 := run_steps s ++ [Launched create] in
  let werr := ops_Wait ops h steps1 create in
  let steps2 := steps1 ++ [Awaited create werr] in
  let r := resourceYandexVPCAddressCreate config ops s in
  expandLabels (rd_Get d "labels") = inr labels →
  getFolderID d config = inr folderID →
  expandExternalIpv4Address d = inr spec →
  ops_Operation ops h (run_steps s) create = None →
  ops_Metadata ops h steps1 create = inr (CreateAddressMetadata id) →
  run_steps r.1 = steps2
  ∧ match werr, ops_Response ops h steps2 create with
    | None, None =>
        ∃ rest, w_trace (run_world r.1) = h ++ Sent (Address_Get id) :: rest
    | _, _ =>
        (∃ e, r.2 = Raise e)
        ∧ w_trace (run_world r.1) = h
        ∧ rd_Id (w_d (run_world r.1)) = id
    end.
Proof.
  intros h d create steps1 werr steps2 r Hlabels Hfolder Hspec Hop Hmd.
  destruct s as [w steps]. simpl in *.
  remember r as r' eqn:Hr. subst r.
  unfold resourceYandexVPCAddressCreate in Hr.
  lstep Hr. fold d in Hr. rewrite Hlabels in Hr.
  lstep Hr. rewrite Hfolder in Hr.
  lstep Hr. rewrite Hspec in Hr.
  lstep Hr. lstep Hr. fold h d create in Hr. rewrite Hop in Hr.
  lstep Hr. lstep Hr. fold h d create steps1 in Hr. rewrite Hmd in Hr.
  lstep Hr. lstep Hr. fold h d create steps1 werr steps2 in Hr.
  clearbody werr. destruct werr as [e|].
  { erewrite L_bind_raise in Hr by reflexivity. subst r'. simpl. eauto. }
  lstep Hr. lstep Hr. fold h d create steps1 steps2 in Hr.
  destruct (ops_Response ops h steps2 create) as [e|].
  { erewrite L_bind_raise in Hr by reflexivity. subst r'. simpl. eauto. }
  lstep Hr. unfold lift, resourceYandexVPCAddressRead in Hr.
  rewrite get_d_bind in Hr. simpl in Hr.
  match type of Hr with
  | _ = (let '(_, _) := _ ?w2 in _) =>
      destruct (address_read_asks_first config id w2) as (rest & Ht);
      destruct (yandexVPCAddressRead config id w2) as [w3 out]
  end.
  subst r'. simpl in *. split; [done|]. by exists rest.
Qed.

Lemma address_create_records_id_before_wait_witness :
  let config := {| sdk := Sample.sdk_ok |} in
  let ops := Scenario.ops_with None (Some (StatusError 8 "quota exceeded")) in
  let r := resourceYandexVPCAddressCreate (pkg := Sample.package)
             (crt := Scenario.creation) config ops
             (Scenario.run (Sample.data "" [])) in
  let create :=
    Address_Create
      {| car_FolderId := "f1"; car_Name := "res"; car_Description := "";
         car_Labels := []; car_ExternalIpv4AddressSpec := None |} in
  run_steps r.1 = [Launched create; Awaited create None]
  ∧ (∃ e, r.2 = Raise e)
  ∧ w_trace (run_world r.1) = []
  ∧ rd_Id (w_d (run_world r.1)) = "a9".
Proof.
  intros config ops r create.
  apply (address_create_records_id_before_wait (pkg := Sample.package)
           (crt := Scenario.creation) config ops
           (Scenario.run (Sample.data "" [])) [] "f1" None "a9");
    reflexivity.
Defined.

(** X21: unless the labels, the folder id and the address spec all expand, the
    creation request of the address is accepted and its metadata carry an
    address id, Create returns an error, records no id and leaves the resource
    data as they were, does not wait and does not read the address; the one
    step it may have taken is the creation request. *)
Theorem address_create_without_id {pkg : Package} {crt : Creation}
    (config : Config) (ops : Operations) (s : Run) :
  let h := w_trace (run_world s) in
  let d := w_d (run_world s) in
  let r := resourceYandexVPCAddressCreate config ops s in
  (∀ labels folderID spec id,
     expandLabels (rd_Get d "labels") = inr labels →
     getFolderID d config = inr folderID →
     expandExternalIpv4Address d = inr spec →
     let create :=
       Address_Create
         {| car_FolderId := folderID;
            car_Name := as_string (rd_Get d "name");
            car_Description := as_string (rd_Get d "description");
            car_Labels := labels;
            car_ExternalIpv4AddressSpec := spec |} in
     ops_Operation ops h (run_steps s) create = None →
     ops_Metadata ops h (run_steps s ++ [Launched create]) create
     ≠ inr (CreateAddressMetadata id)) →
  run_world r.1 = run_world s
  ∧ (∃ e, r.2 = Raise e)
  ∧ (run_steps r.1 = run_steps s
     ∨ ∃ req, run_steps r.1 = run_steps s ++ [Launched (Address_Create req)]).
Proof.
  intros h d r Hno. destruct s as [w steps]. simpl in *.
  remember r as r' eqn:Hr. subst r.
  unfold resourceYandexVPCAddressCreate in Hr. lstep Hr. fold d in Hr.
  destruct (expandLabels (rd_Get d "labels")) as [err|labels] eqn:Hlabels.
  { erewrite L_bind_raise in Hr by reflexivity.
    subst r'. simpl. split_and!; eauto. }
  lstep Hr.
  destruct (getFolderID d config) as [err|folderID] eqn:Hfolder.
  { erewrite L_bind_raise in Hr by reflexivity.
    subst r'. simpl. split_and!; eauto. }
  lstep Hr.
  destruct (expandExternalIpv4Address d) as [err|spec] eqn:Hspec.
  { erewrite L_bind_raise in Hr by reflexivity.
    subst r'. simpl. split_and!; eauto. }
  specialize (Hno labels folderID spec). simpl in Hno.
  lstep Hr. lstep Hr. fold h d in Hr.
  destruct (ops_Operation ops h steps _) as [err|].
  { erewrite L_bind_raise in Hr by reflexivity.
    subst r'. simpl. split_and!; eauto. }
  lstep Hr. lstep Hr. fold h d in Hr.
  destruct (ops_Metadata ops h _ _) as [err|[id|id|]];
    [|..|by destruct (Hno id)|]; subst r'; simpl; split_and!; eauto.
Qed.

Lemma address_create_without_id_witness :
  let config := {| sdk := Sample.sdk_ok |} in
  let s := Scenario.run (Sample.data "" []) in
  let r := resourceYandexVPCAddressCreate (pkg := Sample.package)
             (crt := Scenario.creation) config Scenario.ops_without_metadata
             s in
  run_world r.1 = run_world s
  ∧ (∃ e, r.2 = Raise e)
  ∧ (run_steps r.1 = run_steps s
     ∨ ∃ req, run_steps r.1 = run_steps s ++ [Launched (Address_Create req)]).
Proof.
  intros config s.
  apply (address_create_without_id (pkg := Sample.package)
           (crt := Scenario.creation) config Scenario.ops_without_metadata s).
  intros labels folderID spec id _ _ _ create _. discriminate.
Defined.

(** X22: Delete asks for the deletion of the address under the recorded id.
    When the request is refused it does not wait.  When the request is
    accepted it waits once and leaves the resource data, the id included, as
    they were; it returns the error of the wait, else the error of the
    response, each as it is, without the address prefix, and returns without
    error when there is neither. *)
Theorem delete_address_run (ops : Operations) (s : Run) :
  let h := w_trace (run_world s) in
  let delete := Address_Delete (rd_Id (w_d (run_world s))) in
  let steps1 := run_steps s ++ [Launched delete] in
  let werr := ops_Wait ops h steps1 delete in
  let steps2 := steps1 ++ [Awaited delete werr] in
  let r := resourceYandexVPCAddressDelete ops s in
  match ops_Operation ops h (run_steps s) delete with
  | Some err =>
      run_steps r.1 = steps1 ∧ w_trace (run_world r.1) = h
  | None =>
      run_steps r.1 = steps2
      ∧ run_world r.1 = run_world s
      ∧ r.2 = match werr, ops_Response ops h steps2 delete with
              | Some e, _ => Raise e
              | None, Some e => Raise e
              | None, None => Return ()
              end
  end.
Proof.
  intros h delete steps1 werr steps2 r. destruct s as [w steps]. simpl in *.
  remember r as r' eqn:Hr. subst r.
  unfold resourceYandexVPCAddressDelete in Hr.
  lstep Hr. lstep Hr. fold h delete steps1 in Hr.
  destruct (ops_Operation ops h steps delete) as [err|].
  { unfold lift, handleAddressNotFoundError in Hr.
    match type of Hr with
    | _ = (let '(_, _) := handleNotFoundError err ?name ?w1 in _) =>
        pose proof (silent_handleNotFoundError err name w1) as Hsilent;
        destruct (handleNotFoundError err name w1) as [w2 out]
    end.
    subst r'. simpl in *. done. }
  lstep Hr. fold h delete steps1 werr steps2 in Hr.
  clearbody werr. destruct werr as [e|].
  { erewrite L_bind_raise in Hr by reflexivity. by subst r'. }
  lstep Hr. lstep Hr. fold h delete steps1 steps2 in Hr.
  destruct (ops_Response ops h steps2 delete) as [e|]; by subst r'.
Qed.

(** ** The markers of the change loops *)

Section loop_marker_facts.
Context {lib : Library}.

(** When the loop is over, its variable holds the key of the last entry. *)
Lemma ChangeLoop_last_field d key entries : ∀ st,
  cl_field (foldl (ChangeLoop_step d key) st entries)
  = default (cl_field st) (fst <$> last entries).
Proof.
  induction entries as [|e entries IH] using rev_ind; intros st; [done|].
  rewrite ChangeLoop_field, last_snoc. done.
Qed.

Lemma ChangeLoop_mask_length d key entries :
  length (cl_updatePath (foldl (ChangeLoop_step d key) ChangeLoop_start entries))
  = length (filter (λ e, rd_HasChange d (key e.1) = true) entries).
Proof. rewrite ChangeLoop_mask. simpl. by rewrite length_fmap. Qed.

End loop_marker_facts.

(** X23: the markers of the two change loops.  When updateKafkaClusterParams
    or updateKafkaTopic returns without error it has added one marker for each
    changed field of its table, and every one of these markers is the key the
    visit of the table ended with, whichever fields have changed; when it
    fails, or when nothing has changed, it has added no marker. *)
Theorem change_loop_markers {pkg : Package} {lib : Library} (config : Config)
    (topicName : string) (topicSpec : IndexedTopicSpec) (version : string)
    (w : World) :
  let d := w_d w in
  let markers (key : string → string) (entries : list (string * string)) :=
    replicate (length (filter (λ e, rd_HasChange d (key e.1) = true) entries))
              (default "" (fst <$> last entries)) in
  markers_added (updateKafkaClusterParams config) w
    (match (updateKafkaClusterParams config w).2 with
     | Return _ =>
         markers id (range_order (w_ranges w) mdbKafkaUpdateFieldsMap)
     | _ => []
     end)
  ∧ markers_added (updateKafkaTopic config topicName topicSpec version) w
      (match (updateKafkaTopic config topicName topicSpec version w).2 with
       | Return _ =>
           markers (λ field, Sprintf_d field (index topicSpec))
                   (range_order (w_ranges w) mdbKafkaUpdateTopicFieldsMap)
       | _ => []
       end).
Proof.
  intros d markers. subst markers. cbv beta. split.
  - pose proof (updateKafkaClusterParams_markers config w) as Hm.
    cbv zeta in Hm. fold d in Hm.
    rewrite ChangeLoop_mask_length, ChangeLoop_last_field in Hm.
    exact Hm.
  - pose proof (updateKafkaTopic_markers config topicName topicSpec version w)
      as Hm.
    cbv zeta in Hm. fold d in Hm.
    rewrite ChangeLoop_mask_length, ChangeLoop_last_field in Hm.
    exact Hm.
Qed.

(** ** Update with unchanged collections *)

(** X24: when neither the topics nor the users have changed, the Update of the
    Kafka cluster reconciles neither: no topic and no user is deleted, created
    or updated; the only topic and user calls are the listings of the final
    read. *)
Theorem update_skips_unchanged_collections {pkg : Package} {lib : Library}
    (config : Config) (fuel : nat) (w : World) :
  rd_HasChange (w_d w) "topic" = false →
  rd_HasChange (w_d w) "user" = false →
  ∃ evs,
    w_trace (resourceYandexMDBKafkaClusterUpdate config fuel w).1
    = w_trace w ++ evs
    ∧ Forall (about (λ r, ∀ k, topic_phase r = Some k ∨ user_phase r = Some k →
                          k = 0)) evs.
Proof.
  intros Htopic Huser.
  set (C := λ r, ∀ k, topic_phase r = Some k ∨ user_phase r = Some k → k = 0).
  unfold resourceYandexMDBKafkaClusterUpdate.
  unfold mbind at 1, M_bind at 1, d_Partial at 1, modify_d at 1. cbv beta iota.
  set (w0 := {| w_trace := w_trace w |}).
  destruct (only_updateKafkaClusterParams config C) with (w := w0)
    as (evs1 & Ht1 & Hall1).
  { intros req k [?|?]; done. }
  pose proof (keeps_updateKafkaClusterParams config rd_HasChange
                ltac:(intros k; by apply keeps_modify_d) w0) as Hkeep.
  unfold mbind at 1, M_bind at 1.
  destruct (updateKafkaClusterParams config w0) as [w1 [[]|e|]];
    simpl in Ht1, Hkeep; [|by exists evs1..].
  rewrite get_d_bind. cbv beta. rewrite Hkeep. simpl.
  rewrite Htopic, Huser.
  unfold mbind, M_bind, d_Partial, modify_d. simpl.
  set (w2 := {| w_trace := w_trace w1 |}).
  destruct (only_read_kafka config fuel w2) as (evs2 & Ht2 & Hall2).
  exists (evs1 ++ evs2). rewrite Ht2. simpl. rewrite Ht1, <-app_assoc.
  split; [done|]. apply Forall_app. split; [done|].
  eapply Forall_impl; [exact Hall2|].
  intros ev Hev. destruct ev as [r|r err]; [|done].
  destruct r; try done; intros k [Hk|Hk]; simpl in Hk; by simplify_eq.
Qed.

Lemma update_skips_unchanged_collections_witness :
  let w := Sample.world (Sample.data "c1" ["name"]) in
  ∃ evs,
    w_trace (resourceYandexMDBKafkaClusterUpdate (pkg := Sample.package)
               (lib := Sample.library) {| sdk := Sample.sdk_ok |} 3 w).1
    = w_trace w ++ evs
    ∧ Forall (about (λ r, ∀ k, topic_phase r = Some k ∨ user_phase r = Some k →
                          k = 0)) evs.
Proof.
  intros w.
  apply (update_skips_unchanged_collections (pkg := Sample.package)
           (lib := Sample.library) {| sdk := Sample.sdk_ok |} 3 w);
    reflexivity.
Defined.

(** ** The attributes Read cannot set *)

Section set_error_facts.
Context {pkg : Package} (config : Config).

Lemma M_bind_return {A B} (m : M A) (f : A → M B) w w' a :
  m w = (w', Return a) → (m ≫= f) w = f a w'.
Proof. intros Hm. unfold mbind, M_bind. by rewrite Hm. Qed.

Lemma M_bind_raise {A B} (m : M A) (f : A → M B) w w' e :
  m w = (w', Raise e) → (m ≫= f) w = (w', Raise e).
Proof. intros Hm. unfold mbind, M_bind. by rewrite Hm. Qed.

Lemma M_bind_assoc {A B C} (m : M A) (f : A → M B) (g : B → M C) w :
  ((m ≫= f) ≫= g) w = (m ≫= λ a, f a ≫= g) w.
Proof. unfold mbind, M_bind. by destruct (m w) as [w1 [a|e|]]. Qed.

(** [d.Set] returns its error as a value; it changes neither the calls made,
    nor the id, nor what later [d.Set] calls answer. *)
Lemma d_Set_accepts_or_not k v w :
  ∃ o d',
    d_Set k v w
    = ({| w_trace := w_trace w; w_d := d'; w_ranges := w_ranges w |}, Return o)
    ∧ rd_Id d' = rd_Id (w_d w)
    ∧ rd_SetError d' = rd_SetError (w_d w).
Proof.
  unfold d_Set. rewrite get_d_bind.
  destruct (rd_SetError (w_d w) k v) as [err|].
  - exists (Some err), (w_d w). by destruct w.
  - eexists None, _. split; [reflexivity|done].
Qed.

Lemma d_Set_check_accepts k v w :
  rd_SetError (w_d w) k v = None →
  ∃ d', d_Set_check k v w
        = ({| w_trace := w_trace w; w_d := d'; w_ranges := w_ranges w |},
           Return ()).
Proof.
  intros Hset. unfold d_Set_check, d_Set. rewrite M_bind_assoc, get_d_bind.
  rewrite Hset. by eexists.
Qed.

Lemma d_Set_check_refuses k v w err :
  rd_SetError (w_d w) k v = Some err →
  d_Set_check k v w = (w, Raise err).
Proof.
  intros Hset. unfold d_Set_check, d_Set. rewrite M_bind_assoc, get_d_bind.
  by rewrite Hset.
Qed.

Lemma d_Set_then {B} (t : list Event) (id : string) se (ev : Event) k v
    (f : option error → M B) :
  (∀ o w', w_trace w' = t → rd_Id (w_d w') = id → rd_SetError (w_d w') = se →
     ∃ rest, w_trace (f o w').1 = t ++ ev :: rest) →
  ∀ w', w_trace w' = t → rd_Id (w_d w') = id → rd_SetError (w_d w') = se →
    ∃ rest, w_trace ((d_Set k v ≫= f) w').1 = t ++ ev :: rest.
Proof.
  intros Hf w' Ht Hid Hse.
  destruct (d_Set_accepts_or_not k v w') as (o & d' & Hrun & Hid' & Hse').
  erewrite M_bind_return by exact Hrun.
  apply Hf; simpl; congruence.
Qed.

End set_error_facts.

(** X25: the Read of the Kafka cluster does not look at the errors of d.Set
    for the eight scalar attributes created_at, name, folder_id, network_id,
    environment, health, status and description: whether or not these are
    accepted, once the cluster is fetched, its timestamp and configuration
    are flattened and the attribute config is accepted, Read goes on to list
    the topics. *)
Theorem kafka_read_ignores_scalar_set_errors {pkg : Package} (config : Config)
    (fuel : nat) (w : World) (cluster : Cluster) (createdAt : string)
    (cfg : Value) :
  let d := w_d w in
  let id := rd_Id d in
  sdk_Cluster_Get (sdk config) (w_trace w) id = inr cluster →
  getTimestamp (c_CreatedAt cluster) = inr createdAt →
  flattenKafkaConfig cluster = inr cfg →
  rd_SetError d "config" cfg = None →
  0 < fuel →
  ∃ rest,
    w_trace (resourceYandexMDBKafkaClusterRead config fuel w).1
    = w_trace w ++ Sent (Cluster_Get id) :: Sent (Topic_List id "") :: rest.
Proof.
  intros d id Hget Hts Hcfg Hset Hfuel.
  unfold resourceYandexMDBKafkaClusterRead.
  rewrite get_d_bind. cbv beta. fold d id.
  erewrite M_bind_return by reflexivity. simpl. fold d id.
  rewrite Hget, Hts.
  erewrite M_bind_return by reflexivity.
  set (t1 := w_trace w ++ [Sent (Cluster_Get id)]).
  match goal with
  | |- ∃ rest, w_trace (?K ?w1).1 = _ =>
      assert (∀ w', w_trace w' = t1 → rd_Id (w_d w') = id →
                rd_SetError (w_d w') = rd_SetError d →
                ∃ rest, w_trace (K w').1
                        = t1 ++ Sent (Topic_List id "") :: rest) as Hk;
        [|destruct (Hk w1) as [rest Hr]; try done;
          exists rest; rewrite Hr; subst t1; by rewrite <-app_assoc]
  end.
  do 8 (apply d_Set_then; intros ?).
  intros w' Ht Hid Hse. rewrite Hcfg.
  erewrite M_bind_return by reflexivity.
  destruct (d_Set_check_accepts "config" cfg w') as [d' Hrun];
    [by rewrite Hse|].
  erewrite M_bind_return by exact Hrun.
  destruct fuel as [|fuel]; [lia|].
  unfold listKafkaTopics. simpl listKafkaTopics_pages.
  rewrite M_bind_assoc. erewrite M_bind_return by reflexivity. simpl.
  match goal with
  | |- ∃ rest, w_trace (?K ?w2).1 = _ =>
      assert (extends K) as HK; [|destruct (HK w2) as (rest & Hr & _)]
  end.
  { eapply emits_weaken; [|done].
    apply (only_bind (λ _, True)).
    { apply (only_bind (λ _, True)); [apply only_silent; auto with silent|].
      intros [topics next].
      case_decide;
        [by apply only_silent
        |by apply (only_listKafkaTopics_pages config (λ _, True))]. }
    intros topics'.
    repeat first
      [ apply only_silent; solve [auto with silent]
      | by apply (only_listKafkaUsers_pages config (λ _, True))
      | apply (only_bind (λ _, True)); [|intros ?] ]. }
  exists rest. rewrite Hr. simpl. rewrite Ht. by rewrite <-app_assoc.
Qed.

Lemma kafka_read_ignores_scalar_set_errors_witness :
  let config := {| sdk := Sample.sdk_ok |} in
  let w := Sample.world
             (Scenario.data_rejecting "c1"
                ["created_at"; "name"; "folder_id"; "network_id";
                 "environment"; "health"; "status"; "description"]) in
  ∃ rest,
    w_trace (resourceYandexMDBKafkaClusterRead (pkg := Sample.package)
               config 3 w).1
    = w_trace w ++ Sent (Cluster_Get "c1") :: Sent (Topic_List "c1" "") :: rest.
Proof.
  intros config w.
  apply (kafka_read_ignores_scalar_set_errors (pkg := Sample.package) config
           3 w Sample.cluster "2021-01-01T00:00:00Z" VNil);
    [reflexivity..|lia].
Defined.

(** ** The attributes the read of an address cannot set *)

Section address_set_facts.
Context {pkg : Package} (config : Config).

(** After the address is fetched, its read is the loop that sets the
    attributes in their order and stops at the first one [d.Set] rejects. *)
Lemma address_read_sets id address w :
  sdk_Address_Get (sdk config) (w_trace w) id = inr address →
  yandexVPCAddressRead config id w
  = for_each (address_attributes address) (λ kv, d_Set_check kv.1 kv.2)
      {| w_trace := w_trace w ++ [Sent (Address_Get id)];
         w_d := w_d w; w_ranges := w_ranges w |}.
Proof.
  intros Hget. unfold yandexVPCAddressRead.
  erewrite M_bind_return by reflexivity. rewrite Hget.
  unfold address_attributes. simpl.
  unfold mbind, M_bind.
  repeat match goal with
  | |- context [d_Set_check ?k ?v ?w0] =>
      destruct (d_Set_check k v w0) as [? [[]|?|]]; try done
  end.
Qed.

Lemma for_each_accepted (attrs : list (string * Value)) : ∀ w,
  Forall (λ kv, rd_SetError (w_d w) kv.1 kv.2 = None) attrs →
  ∃ d', for_each attrs (λ kv, d_Set_check kv.1 kv.2) w
        = ({| w_trace := w_trace w; w_d := d'; w_ranges := w_ranges w |},
           Return ())
        ∧ rd_SetError d' = rd_SetError (w_d w)
        ∧ rd_Id d' = rd_Id (w_d w)
        ∧ ∀ k, k ∉ attrs.*1 → rd_Get d' k = rd_Get (w_d w) k.
Proof.
  induction attrs as [|[k v] attrs IH]; intros w Hall.
  { exists (w_d w). by destruct w. }
  apply Forall_cons in Hall as [Hkv Hall]. simpl in Hkv. simpl.
  unfold d_Set_check, d_Set. rewrite !M_bind_assoc, get_d_bind.
  rewrite Hkv. unfold mbind, M_bind, modify_d. simpl.
  set (w1 := {| w_trace := w_trace w |}).
  destruct (IH w1 Hall) as (d' & Hrun & Herr & Hid & Hget).
  exists d'. split; [exact Hrun|]. split; [done|]. split; [done|].
  intros k' Hk'. apply not_elem_of_cons in Hk' as [Hne Hk'].
  rewrite Hget by done. simpl. by rewrite decide_False.
Qed.

(** Accepted attributes with distinct keys are read back as they were
    set. *)
Lemma for_each_accepted_sets (attrs : list (string * Value)) : ∀ w,
  Forall (λ kv, rd_SetError (w_d w) kv.1 kv.2 = None) attrs →
  NoDup attrs.*1 →
  ∀ k v, (k, v) ∈ attrs →
    rd_Get (w_d (for_each attrs (λ kv, d_Set_check kv.1 kv.2) w).1) k = v.
Proof.
  induction attrs as [|[k0 v0] attrs IH]; intros w Hall Hnd k v Hin.
  { by apply elem_of_nil in Hin. }
  apply Forall_cons in Hall as [Hkv Hall]. simpl in Hkv.
  apply NoDup_cons in Hnd as [Hfresh Hnd]. simpl.
  unfold d_Set_check, d_Set. rewrite !M_bind_assoc, get_d_bind.
  rewrite Hkv. unfold mbind, M_bind, modify_d. simpl.
  set (w1 := {| w_trace := w_trace w |}).
  apply elem_of_cons in Hin as [[= -> ->]|Hin].
  - destruct (for_each_accepted attrs w1 Hall) as (d' & Hrun & _ & _ & Hget).
    change (rd_Get (w_d (for_each attrs (λ kv, d_Set_check kv.1 kv.2) w1).1) k0
            = v0).
    rewrite Hrun. simpl. rewrite Hget by done. simpl. by rewrite decide_True.
  - exact (IH w1 Hall Hnd k v Hin).
Qed.

Lemma address_attributes_keys address :
  NoDup (address_attributes address).*1.
Proof. unfold address_attributes. simpl. compute_done. Qed.

Lemma for_each_app {A} (l1 l2 : list A) (body : A → M unit) w :
  for_each (l1 ++ l2) body w = (for_each l1 body ;; for_each l2 body) w.
Proof.
  revert w. induction l1 as [|x l1 IH]; intros w; simpl; [done|].
  unfold mbind, M_bind.
  destruct (body x w) as [w1 [[]|e|]]; [|done..].
  rewrite IH. done.
Qed.

End address_set_facts.

(** X26: the read of a VPC address sets its attributes in the order folder_id,
    created_at, name, description, labels, external_ipv4_address, reserved,
    used and, unlike the read of the cluster, returns the error of the first
    attribute that d.Set rejects, as it is: the attributes before it are set,
    each reading back the value of the address, that attribute and the ones
    after it keep their value, and no call follows the fetch of the
    address. *)
Theorem address_read_stops_at_rejected_attribute {pkg : Package}
    (config : Config) (id : string) (w : World) (address : Address)
    (before after : list (string * Value)) (k : string) (v : Value)
    (err : error) :
  let r := yandexVPCAddressRead config id w in
  sdk_Address_Get (sdk config) (w_trace w) id = inr address →
  address_attributes address = before ++ (k, v) :: after →
  Forall (λ kv, rd_SetError (w_d w) kv.1 kv.2 = None) before →
  rd_SetError (w_d w) k v = Some err →
  r.2 = Raise err
  ∧ w_trace r.1 = w_trace w ++ [Sent (Address_Get id)]
  ∧ (∀ k' v', (k', v') ∈ before → rd_Get (w_d r.1) k' = v')
  ∧ ∀ k', k' ∉ before.*1 → rd_Get (w_d r.1) k' = rd_Get (w_d w) k'.
Proof.
  intros r Hget Hattrs Hbefore Hk. subst r.
  rewrite (address_read_sets config id address w Hget), Hattrs, for_each_app.
  set (w1 := {| w_trace := w_trace w ++ [Sent (Address_Get id)] |}).
  assert (NoDup before.*1) as Hnd.
  { pose proof (address_attributes_keys address) as Hkeys.
    rewrite Hattrs, fmap_app in Hkeys.
    by apply NoDup_app in Hkeys as (? & _ & _). }
  pose proof (for_each_accepted_sets before w1 Hbefore Hnd) as Hset.
  destruct (for_each_accepted before w1 Hbefore)
    as (d' & Hrun & Herr & Hid & Hkeep).
  rewrite Hrun in Hset. simpl in Hset.
  erewrite M_bind_return by exact Hrun. simpl.
  erewrite M_bind_raise;
    [|apply d_Set_check_refuses; simpl; by rewrite Herr].
  done.
Qed.

Lemma address_read_stops_at_rejected_attribute_witness :
  let config := {| sdk := Sample.sdk_ok |} in
  let w := Sample.world (Scenario.data_rejecting "a1" ["name"; "used"]) in
  let r := yandexVPCAddressRead (pkg := Sample.package) config "a1" w in
  r.2 = Raise (Errorf "cannot set name")
  ∧ w_trace r.1 = w_trace w ++ [Sent (Address_Get "a1")]
  ∧ (∀ k' v', (k', v') ∈ [("folder_id", VString "f1");
                           ("created_at", VString "2021-01-01T00:00:00Z")] →
              rd_Get (w_d r.1) k' = v')
  ∧ ∀ k', k' ∉ ["folder_id"; "created_at"] →
          rd_Get (w_d r.1) k' = rd_Get (w_d w) k'.
Proof.
  intros config w.
  apply (address_read_stops_at_rejected_attribute (pkg := Sample.package)
           config "a1" w Sample.address
           [("folder_id", VString "f1");
            ("created_at", VString "2021-01-01T00:00:00Z")]
           [("description", VString ""); ("labels", labels_value []);
            ("external_ipv4_address", VList []); ("reserved", VBool true);
            ("used", VBool false)]
           "name" (VString "addr") (Errorf "cannot set name")).
  - reflexivity.
  - reflexivity.
  - repeat constructor.
  - reflexivity.
Defined.
